(** * go-mitmproxy, [proxy/connection.go]: connection pairing and
    on-the-fly TLS interception.

    The Go file is embedded as functions over an explicit store: every
    struct that the source reaches through a pointer lives in a table of the
    [World], a pointer is an index into its table, and a call that Go would
    abort with a run-time panic (nil dereference, closing a closed channel,
    failed type assertion) ends in [Panic].  What the file asks of the
    outside (the dialer, the TLS library, the transport's [Close], the
    certificate authority, the addons) is recorded in a chronological trace
    of events, and the answers come from oracles that may depend on all that
    happened before.

    Three things are fixed by the way the program builds its values: the
    proxy-wide configuration is one read-only value; the connection embedded
    in a wrapper is the transport connection that the listener or the dialer
    returned; and an addon observes the event it is told and does not touch
    the store. *)

From Stdlib Require Import ZArith String Lia.
From stdpp Require Import base list.


(** ** Data model *)

(** Pointers are indices into the tables of the store; transport
    connections, UUIDs and addons are identified by a number. *)
Abbreviation ptr := nat (only parsing).
Abbreviation handle := nat (only parsing).
Abbreviation UUID := nat (only parsing).
Abbreviation Addon := nat (only parsing).

(** A Go [error]: [None] is [nil]. *)
Definition error := option string.

(** A [net.Conn] interface value: nil, a transport connection handed out by
    the dialer or the listener, or a pointer to one of the two wrappers of
    this file. *)
Inductive netConn :=
| nilConn
| tcpConn (h : handle)
| clientWrapper (p : ptr)
| serverWrapper (p : ptr).

(** [chan struct{}] on which nothing is ever sent: only its state matters. *)
Inductive chanState := chanNil | chanOpen | chanClosed.

(** The fields of [tls.Config] that the file sets. *)
Record tlsConfig := mkConfig {
  InsecureSkipVerify : bool;
  KeyLogWriter : option handle;
  ServerName : string;
  NextProtos : list string;
  CipherSuites : list Z;
  MinVersion : Z;
  MaxVersion : Z
}.

(** The fields of [tls.ClientHelloInfo] that the file reads; versions and
    cipher suites are [uint16] values. *)
Record ClientHelloInfo := mkHello {
  hello_ServerName : string;
  hello_CipherSuites : list Z;
  hello_SupportedVersions : list Z
}.

Record ConnectionState := mkState {
  st_Version : Z;
  st_CipherSuite : Z;
  st_NegotiatedProtocol : string
}.

(** [*tls.Conn] as built by [tls.Client(conn, cfg)]. *)
Record tlsClientConn := mkTlsConn {
  tls_under : netConn;
  tls_config : tlsConfig
}.

Record Certificate := mkCert {
  cert_name : string;
  cert_serial : nat
}.

(** The two dial closures, with the variables they capture. *)
Inductive dialFn :=
| DialContextHttp (connCtx serverConn : ptr)
| DialTLSContextHttps (connCtx : ptr).

(** [http.Client] with its [http.Transport], as the file configures them. *)
Record httpClient := mkClient {
  client_dial : dialFn;
  ForceAttemptHTTP2 : bool;
  DisableCompression : bool;
  TLSClientConfig : option tlsConfig;
  CheckRedirect_ErrUseLastResponse : bool
}.

Module ClientConn.
Record t := mk {
  Id : UUID;
  Conn : netConn;
  Tls : bool
}.
End ClientConn.

Module ServerConn.
Record t := mk {
  Id : UUID;
  Address : string;
  Conn : netConn;
  tlsHandshaked : chanState;
  tlsHandshakeErr : error;
  tlsConn : option tlsClientConn;
  tlsState : option ConnectionState;
  client : option httpClient
}.
End ServerConn.

(** Modelled from the spec: [pipeConn] is declared outside this file; the
    tunnel descriptor carries the target host, the only field read here. *)
Record pipeConnT := mkPipe { host : string }.

(** [ClientConn] is stored in place: [newConnContext], the only constructor,
    always sets it.  [ServerConn] and [pipeConn] are pointers that may be
    nil. *)
Module ConnContext.
Record t := mk {
  ClientConn : ClientConn.t;
  ServerConn : option ptr;
  pipeConn : option pipeConnT
}.
End ConnContext.

(** The embedded [net.Conn] of a wrapper is always what [Accept] or the
    dialer returned, a transport connection. *)
Module wrapClientConn.
Record t := mk {
  Conn : handle;
  connCtx : option ptr;
  closed : bool;
  closeErr : error
}.
End wrapClientConn.

Module wrapServerConn.
Record t := mk {
  Conn : handle;
  connCtx : option ptr;
  closed : bool;
  closeErr : error
}.
End wrapServerConn.

(** Modelled from the spec: [Proxy] and its interceptor are declared outside
    this file.  The file reads [Addons], [Opts.SslInsecure] and, through the
    type assertion of [interceptor] to a pointer to [middle], the
    certificate authority. *)
Inductive interceptorT := middle | otherInterceptor.

Record Proxy := mkProxy {
  Addons : list Addon;
  SslInsecure : bool;
  interceptor : interceptorT
}.

(** ** Events and the store *)

Inductive event :=
| EvDial (network addr : string)
| EvServerConnected (a : Addon) (connCtx : ptr)
| EvClientDisconnected (self : ptr) (a : Addon) (connCtx : ptr)
| EvServerDisconnected (self : ptr) (a : Addon) (connCtx : option ptr)
| EvNetClose (self : netConn) (h : handle)
| EvHandshake (c : netConn) (cfg : tlsConfig)
| EvSignal (serverConn : ptr)
| EvGetCert (name : string).

Record World := mkWorld {
  ctxs : list ConnContext.t;
  sconns : list ServerConn.t;
  cwraps : list wrapClientConn.t;
  swraps : list wrapServerConn.t;
  nextId : nat;
  trace : list event
}.

Inductive outcome (A : Type) :=
| Ret (a : A) (w : World)
| Panic (w : World)
| Block (w : World)
| OutOfFuel.
Arguments Ret {A} a w.
Arguments Panic {A} w.
Arguments Block {A} w.
Arguments OutOfFuel {A}.

Definition M (A : Type) := World -> outcome A.

Definition ret {A} (a : A) : M A := fun w => Ret a w.

Definition bind {A B} (m : M A) (k : A -> M B) : M B :=
  fun w =>
    match m w with
    | Ret a w' => k a w'
    | Panic w' => Panic w'
    | Block w' => Block w'
    | OutOfFuel => OutOfFuel
    end.

Notation "x <~ m ;; k" := (bind m (fun x => k))
  (at level 100, m at next level, right associativity).
Notation "m ;;; k" := (bind m (fun _ => k))
  (at level 100, right associativity).

Definition panic {A} : M A := fun w => Panic w.
Definition block {A} : M A := fun w => Block w.

(** Dereference a pointer that may be nil. *)
Definition deref {A} (o : option A) : M A :=
  match o with Some a => ret a | None => panic end.

Definition emit (e : event) : M unit :=
  fun w => Ret tt (mkWorld (ctxs w) (sconns w) (cwraps w) (swraps w) (nextId w)
                           (trace w ++ [e])).

Definition getTrace : M (list event) := fun w => Ret (trace w) w.

Definition loadCtx (p : ptr) : M ConnContext.t := fun w => deref (ctxs w !! p) w.
Definition loadServerConn (p : ptr) : M ServerConn.t := fun w => deref (sconns w !! p) w.
Definition loadClientWrap (p : ptr) : M wrapClientConn.t := fun w => deref (cwraps w !! p) w.
Definition loadServerWrap (p : ptr) : M wrapServerConn.t := fun w => deref (swraps w !! p) w.

Definition storeCtx (p : ptr) (c : ConnContext.t) : M unit :=
  fun w => Ret tt (mkWorld (<[p := c]> (ctxs w)) (sconns w) (cwraps w) (swraps w)
                           (nextId w) (trace w)).
Definition storeServerConn (p : ptr) (s : ServerConn.t) : M unit :=
  fun w => Ret tt (mkWorld (ctxs w) (<[p := s]> (sconns w)) (cwraps w) (swraps w)
                           (nextId w) (trace w)).
Definition storeClientWrap (p : ptr) (c : wrapClientConn.t) : M unit :=
  fun w => Ret tt (mkWorld (ctxs w) (sconns w) (<[p := c]> (cwraps w)) (swraps w)
                           (nextId w) (trace w)).
Definition storeServerWrap (p : ptr) (c : wrapServerConn.t) : M unit :=
  fun w => Ret tt (mkWorld (ctxs w) (sconns w) (cwraps w) (<[p := c]> (swraps w))
                           (nextId w) (trace w)).

(** Allocation appends to the table: the new pointer is fresh and no old
    pointer moves. *)
Definition allocServerConn (s : ServerConn.t) : M ptr :=
  fun w => Ret (length (sconns w))
               (mkWorld (ctxs w) (sconns w ++ [s]) (cwraps w) (swraps w)
                        (nextId w) (trace w)).
Definition allocServerWrap (c : wrapServerConn.t) : M ptr :=
  fun w => Ret (length (swraps w))
               (mkWorld (ctxs w) (sconns w) (cwraps w) (swraps w ++ [c])
                        (nextId w) (trace w)).
Definition allocClientWrap (c : wrapClientConn.t) : M ptr :=
  fun w => Ret (length (cwraps w))
               (mkWorld (ctxs w) (sconns w) (cwraps w ++ [c]) (swraps w)
                        (nextId w) (trace w)).
Definition allocCtx (c : ConnContext.t) : M ptr :=
  fun w => Ret (length (ctxs w))
               (mkWorld (ctxs w ++ [c]) (sconns w) (cwraps w) (swraps w)
                        (nextId w) (trace w)).

(** [uuid.NewV4()]: an identifier never handed out before. *)
Definition NewV4 : M UUID :=
  fun w => Ret (nextId w)
               (mkWorld (ctxs w) (sconns w) (cwraps w) (swraps w)
                        (S (nextId w)) (trace w)).

(** Receive from a channel on which nothing is sent: returns once the
    channel is closed, suspends the caller otherwise. *)
Definition recv (c : chanState) : M unit :=
  match c with chanClosed => ret tt | _ => block end.

Fixpoint forEach {A} (l : list A) (body : A -> M unit) : M unit :=
  match l with
  | [] => ret tt
  | a :: l' => body a ;;; forEach l' body
  end.

(** Field updates. *)
Definition setTls (b : bool) (c : ClientConn.t) : ClientConn.t :=
  ClientConn.mk (ClientConn.Id c) (ClientConn.Conn c) b.

Definition setServerConn (s : option ptr) (c : ConnContext.t) : ConnContext.t :=
  ConnContext.mk (ConnContext.ClientConn c) s (ConnContext.pipeConn c).

Definition setAddress (a : string) (s : ServerConn.t) : ServerConn.t :=
  ServerConn.mk (ServerConn.Id s) a (ServerConn.Conn s) (ServerConn.tlsHandshaked s)
    (ServerConn.tlsHandshakeErr s) (ServerConn.tlsConn s) (ServerConn.tlsState s)
    (ServerConn.client s).
Definition setConn (c : netConn) (s : ServerConn.t) : ServerConn.t :=
  ServerConn.mk (ServerConn.Id s) (ServerConn.Address s) c (ServerConn.tlsHandshaked s)
    (ServerConn.tlsHandshakeErr s) (ServerConn.tlsConn s) (ServerConn.tlsState s)
    (ServerConn.client s).
Definition setHandshaked (c : chanState) (s : ServerConn.t) : ServerConn.t :=
  ServerConn.mk (ServerConn.Id s) (ServerConn.Address s) (ServerConn.Conn s) c
    (ServerConn.tlsHandshakeErr s) (ServerConn.tlsConn s) (ServerConn.tlsState s)
    (ServerConn.client s).
Definition setHandshakeErr (e : error) (s : ServerConn.t) : ServerConn.t :=
  ServerConn.mk (ServerConn.Id s) (ServerConn.Address s) (ServerConn.Conn s)
    (ServerConn.tlsHandshaked s) e (ServerConn.tlsConn s) (ServerConn.tlsState s)
    (ServerConn.client s).
Definition setTlsConn (t : option tlsClientConn) (s : ServerConn.t) : ServerConn.t :=
  ServerConn.mk (ServerConn.Id s) (ServerConn.Address s) (ServerConn.Conn s)
    (ServerConn.tlsHandshaked s) (ServerConn.tlsHandshakeErr s) t (ServerConn.tlsState s)
    (ServerConn.client s).
Definition setTlsState (t : option ConnectionState) (s : ServerConn.t) : ServerConn.t :=
  ServerConn.mk (ServerConn.Id s) (ServerConn.Address s) (ServerConn.Conn s)
    (ServerConn.tlsHandshaked s) (ServerConn.tlsHandshakeErr s) (ServerConn.tlsConn s) t
    (ServerConn.client s).
Definition setClient (c : option httpClient) (s : ServerConn.t) : ServerConn.t :=
  ServerConn.mk (ServerConn.Id s) (ServerConn.Address s) (ServerConn.Conn s)
    (ServerConn.tlsHandshaked s) (ServerConn.tlsHandshakeErr s) (ServerConn.tlsConn s)
    (ServerConn.tlsState s) c.

Definition markClientClosed (c : wrapClientConn.t) : wrapClientConn.t :=
  wrapClientConn.mk (wrapClientConn.Conn c) (wrapClientConn.connCtx c) true
    (wrapClientConn.closeErr c).
Definition setClientCloseErr (e : error) (c : wrapClientConn.t) : wrapClientConn.t :=
  wrapClientConn.mk (wrapClientConn.Conn c) (wrapClientConn.connCtx c)
    (wrapClientConn.closed c) e.
Definition setClientConnCtx (k : option ptr) (c : wrapClientConn.t) : wrapClientConn.t :=
  wrapClientConn.mk (wrapClientConn.Conn c) k (wrapClientConn.closed c)
    (wrapClientConn.closeErr c).
Definition markServerClosed (c : wrapServerConn.t) : wrapServerConn.t :=
  wrapServerConn.mk (wrapServerConn.Conn c) (wrapServerConn.connCtx c) true
    (wrapServerConn.closeErr c).
Definition setServerCloseErr (e : error) (c : wrapServerConn.t) : wrapServerConn.t :=
  wrapServerConn.mk (wrapServerConn.Conn c) (wrapServerConn.connCtx c)
    (wrapServerConn.closed c) e.

(** Read-modify-write of one struct behind a pointer. *)
Definition updServerConn (p : ptr) (f : ServerConn.t -> ServerConn.t) : M unit :=
  s <~ loadServerConn p ;; storeServerConn p (f s).
Definition updCtx (p : ptr) (f : ConnContext.t -> ConnContext.t) : M unit :=
  c <~ loadCtx p ;; storeCtx p (f c).
Definition updClientWrap (p : ptr) (f : wrapClientConn.t -> wrapClientConn.t) : M unit :=
  c <~ loadClientWrap p ;; storeClientWrap p (f c).
Definition updServerWrap (p : ptr) (f : wrapServerConn.t -> wrapServerConn.t) : M unit :=
  c <~ loadServerWrap p ;; storeServerWrap p (f c).

(** [connCtx.ServerConn], dereferenced. *)
Definition serverConnOf (connCtx : ptr) : M ptr :=
  ctx <~ loadCtx connCtx ;; deref (ConnContext.ServerConn ctx).

(** ** The version range of the upstream configuration (lines 172-185) *)

(** One iteration of the loop over [clientHello.SupportedVersions]. *)
Definition scanVersion (acc : Z * Z) (version : Z) : Z * Z :=
  let minVersion := if (version <? fst acc)%Z then version else fst acc in
  let maxVersion := if (version >? snd acc)%Z then version else snd acc in
  (minVersion, maxVersion).

Definition versionRange (versions : list Z) : option (Z * Z) :=
  match versions with
  | [] => None
  | v0 :: _ => Some (fold_left scanVersion versions (v0, v0))
  end.

Section Connection.

(** The proxy-wide configuration and the answers of the outside world. *)
Variable proxy : Proxy.
Variable getTlsKeyLogWriter : option handle.
Variable dialResult : string -> string -> list event -> string + handle.
Variable acceptResult : list event -> string + handle.
Variable closeResult : handle -> list event -> error.
Variable handshakeResult : netConn -> tlsConfig -> list event -> string + ConnectionState.
Variable caResult : string -> list event -> option Certificate * error.

(** [(&net.Dialer{}).DialContext(ctx, network, addr)] *)
Definition DialContext (network addr : string) : M (string + handle) :=
  tr <~ getTrace ;;
  emit (EvDial network addr) ;;;
  ret (dialResult network addr tr).

(** [Close] of a transport connection, called from the method of [self]. *)
Definition netClose (self : netConn) (h : handle) : M error :=
  tr <~ getTrace ;;
  emit (EvNetClose self h) ;;;
  ret (closeResult h tr).

(** [tls.Client(conn, cfg).HandshakeContext(context.Background())] *)
Definition HandshakeContext (conn : netConn) (cfg : tlsConfig) : M (string + ConnectionState) :=
  tr <~ getTrace ;;
  emit (EvHandshake conn cfg) ;;;
  ret (handshakeResult conn cfg tr).

(** [connCtx.proxy.interceptor.( *middle).ca.GetCert(name)] *)
Definition GetCert (name : string) : M (option Certificate * error) :=
  match interceptor proxy with
  | middle =>
      tr <~ getTrace ;;
      emit (EvGetCert name) ;;;
      ret (caResult name tr)
  | otherInterceptor => panic
  end.

(** [close(serverConn.tlsHandshaked)]: closing a nil or closed channel
    panics. *)
Definition closeHandshaked (serverConn : ptr) : M unit :=
  s <~ loadServerConn serverConn ;;
  match ServerConn.tlsHandshaked s with
  | chanOpen =>
      storeServerConn serverConn (setHandshaked chanClosed s) ;;;
      emit (EvSignal serverConn)
  | _ => panic
  end.

(** ** Constructors (lines 20-71) *)

Definition newClientConn (c : netConn) : M ClientConn.t :=
  id <~ NewV4 ;;
  ret (ClientConn.mk id c false).

Definition newServerConn : M ptr :=
  id <~ NewV4 ;;
  allocServerConn (ServerConn.mk id ""%string nilConn chanOpen None None None None).

Definition newConnContext (c : netConn) : M ptr :=
  clientConn <~ newClientConn c ;;
  allocCtx (ConnContext.mk clientConn None None).

(** [ServerConn.TlsState] (lines 48-51) *)
Definition TlsState (c : ptr) : M (option ConnectionState) :=
  s <~ loadServerConn c ;;
  recv (ServerConn.tlsHandshaked s) ;;;
  s' <~ loadServerConn c ;;
  ret (ServerConn.tlsState s').

(** ** [initHttpServerConn] (lines 73-117) *)

(** The [DialContext] closure (lines 85-103); the deferred loop runs after
    the result is fixed and before the call returns. *)
Definition dialContextHttp (connCtx serverConn : ptr) (network addr : string)
  : M (netConn * error) :=
  r <~ DialContext network addr ;;
  match r with
  | inl err => ret (nilConn, Some err)
  | inr c =>
      cw <~ allocServerWrap (wrapServerConn.mk c (Some connCtx) false None) ;;
      updServerConn serverConn (setConn (serverWrapper cw)) ;;;
      updServerConn serverConn (setAddress addr) ;;;
      forEach (Addons proxy) (fun addon => emit (EvServerConnected addon connCtx)) ;;;
      ret (serverWrapper cw, None)
  end.

Definition httpClientOf (connCtx serverConn : ptr) : httpClient :=
  {| client_dial := DialContextHttp connCtx serverConn;
     ForceAttemptHTTP2 := false;
     DisableCompression := true;
     TLSClientConfig :=
       Some {| InsecureSkipVerify := SslInsecure proxy;
               KeyLogWriter := getTlsKeyLogWriter;
               ServerName := ""%string;
               NextProtos := [];
               CipherSuites := [];
               MinVersion := 0%Z;
               MaxVersion := 0%Z |};
     CheckRedirect_ErrUseLastResponse := true |}.

Definition initHttpServerConn (connCtx : ptr) : M unit :=
  ctx <~ loadCtx connCtx ;;
  match ConnContext.ServerConn ctx with
  | Some _ => ret tt
  | None =>
      if ClientConn.Tls (ConnContext.ClientConn ctx) then ret tt
      else
        serverConn <~ newServerConn ;;
        updServerConn serverConn (setClient (Some (httpClientOf connCtx serverConn))) ;;;
        updCtx connCtx (setServerConn (Some serverConn))
  end.

(** ** [initServerTcpConn] (lines 119-140) *)

Definition initServerTcpConn (connCtx : ptr) : M error :=
  ServerConn <~ newServerConn ;;
  updCtx connCtx (setServerConn (Some ServerConn)) ;;;
  ctx <~ loadCtx connCtx ;;
  pipe <~ deref (ConnContext.pipeConn ctx) ;;
  updServerConn ServerConn (setAddress (host pipe)) ;;;
  s <~ loadServerConn ServerConn ;;
  r <~ DialContext "tcp"%string (ServerConn.Address s) ;;
  match r with
  | inl err => ret (Some err)
  | inr plainConn =>
      cw <~ allocServerWrap (wrapServerConn.mk plainConn (Some connCtx) false None) ;;
      updServerConn ServerConn (setConn (serverWrapper cw)) ;;;
      forEach (Addons proxy) (fun addon => emit (EvServerConnected addon connCtx)) ;;;
      ret None
  end.

(** ** [initHttpsServerConn] (lines 142-161) *)

Definition httpsClientOf (connCtx : ptr) : httpClient :=
  {| client_dial := DialTLSContextHttps connCtx;
     ForceAttemptHTTP2 := false;
     DisableCompression := true;
     TLSClientConfig := None;
     CheckRedirect_ErrUseLastResponse := true |}.

Definition initHttpsServerConn (connCtx : ptr) : M unit :=
  ctx <~ loadCtx connCtx ;;
  if negb (ClientConn.Tls (ConnContext.ClientConn ctx)) then ret tt
  else
    serverConn <~ deref (ConnContext.ServerConn ctx) ;;
    updServerConn serverConn (setClient (Some (httpsClientOf connCtx))).

(** The [DialTLSContext] closure (lines 149-152). *)
Definition dialTLSContextHttps (connCtx : ptr) : M (option tlsClientConn * error) :=
  serverConn <~ serverConnOf connCtx ;;
  s <~ loadServerConn serverConn ;;
  recv (ServerConn.tlsHandshaked s) ;;;
  serverConn' <~ serverConnOf connCtx ;;
  s' <~ loadServerConn serverConn' ;;
  ret (ServerConn.tlsConn s', ServerConn.tlsHandshakeErr s').

(** ** [getCertificate] (lines 163-202) *)

(** The upstream configuration (lines 164-185). *)
Definition upstreamConfig (clientHello : ClientHelloInfo) : tlsConfig :=
  let cfg :=
    {| InsecureSkipVerify := SslInsecure proxy;
       KeyLogWriter := getTlsKeyLogWriter;
       ServerName := hello_ServerName clientHello;
       NextProtos := ["http/1.1"%string];
       CipherSuites := hello_CipherSuites clientHello;
       MinVersion := 0%Z;
       MaxVersion := 0%Z |} in
  match versionRange (hello_SupportedVersions clientHello) with
  | Some (minVersion, maxVersion) =>
      mkConfig (InsecureSkipVerify cfg) (KeyLogWriter cfg) (ServerName cfg)
               (NextProtos cfg) (CipherSuites cfg) minVersion maxVersion
  | None => cfg
  end.

Definition getCertificate (connCtx : ptr) (clientHello : ClientHelloInfo)
  : M (option Certificate * error) :=
  let cfg := upstreamConfig clientHello in
  serverConn <~ serverConnOf connCtx ;;
  s <~ loadServerConn serverConn ;;
  let tlsConn := mkTlsConn (ServerConn.Conn s) cfg in
  r <~ HandshakeContext (ServerConn.Conn s) cfg ;;
  match r with
  | inl err =>
      sc <~ serverConnOf connCtx ;;
      updServerConn sc (setHandshakeErr (Some err)) ;;;
      sc <~ serverConnOf connCtx ;;
      closeHandshaked sc ;;;
      ret (None, Some err)
  | inr tlsState =>
      sc <~ serverConnOf connCtx ;;
      updServerConn sc (setTlsConn (Some tlsConn)) ;;;
      sc <~ serverConnOf connCtx ;;
      updServerConn sc (setTlsState (Some tlsState)) ;;;
      sc <~ serverConnOf connCtx ;;
      closeHandshaked sc ;;;
      GetCert (hello_ServerName clientHello)
  end.

(** ** The wrappers (lines 204-276) *)

(** The statements of [wrapClientConn.Close] (lines 213-231), one
    definition per statement. *)

(** [c.closed] (line 215) *)
Definition clientClosed (c : ptr) : M bool :=
  w <~ loadClientWrap c ;;
  ret (wrapClientConn.closed w).

(** [return c.closeErr] (lines 216 and 230) *)
Definition clientCloseErr (c : ptr) : M error :=
  w <~ loadClientWrap c ;;
  ret (wrapClientConn.closeErr w).

(** [c.closed = true] (line 219) *)
Definition clientMarkClosed (c : ptr) : M unit :=
  updClientWrap c markClientClosed.

(** [c.closeErr = c.Conn.Close()] (line 220) *)
Definition clientRealClose (c : ptr) : M unit :=
  w <~ loadClientWrap c ;;
  e <~ netClose (clientWrapper c) (wrapClientConn.Conn w) ;;
  updClientWrap c (setClientCloseErr e).

(** The loop over the addons (lines 222-224); the argument
    [c.connCtx.ClientConn] dereferences [c.connCtx]. *)
Definition clientNotify (c : ptr) : M unit :=
  forEach (Addons proxy) (fun addon =>
    w <~ loadClientWrap c ;;
    k <~ deref (wrapClientConn.connCtx w) ;;
    loadCtx k ;;;
    emit (EvClientDisconnected c addon k)).

(** The guard of line 226: the connection to close next, if any. *)
Definition clientPaired (c : ptr) : M (option netConn) :=
  w <~ loadClientWrap c ;;
  k <~ deref (wrapClientConn.connCtx w) ;;
  ctx <~ loadCtx k ;;
  match ConnContext.ServerConn ctx with
  | None => ret None
  | Some serverConn =>
      s <~ loadServerConn serverConn ;;
      match ServerConn.Conn s with
      | nilConn => ret None
      | conn => ret (Some conn)
      end
  end.

(** [wrapClientConn.Close]; [Close] is the dynamic dispatch of
    [net.Conn.Close] that the cascade of line 227 goes through. *)
Definition wrapClientConn_Close (Close : netConn -> M error) (c : ptr) : M error :=
  closed <~ clientClosed c ;;
  if closed then clientCloseErr c
  else
    clientMarkClosed c ;;;
    clientRealClose c ;;;
    clientNotify c ;;;
    paired <~ clientPaired c ;;
    match paired with
    | Some conn => Close conn ;;; ret tt
    | None => ret tt
    end ;;;
    clientCloseErr c.

(** [wrapListener.Accept] (lines 239-249): the wrapper starts without a
    context. *)
Definition Accept : M (netConn * error) :=
  tr <~ getTrace ;;
  match acceptResult tr with
  | inl err => ret (nilConn, Some err)
  | inr c =>
      p <~ allocClientWrap (wrapClientConn.mk c None false None) ;;
      ret (clientWrapper p, None)
  end.

(** The statements of [wrapServerConn.Close] (lines 260-276). *)

(** [c.closed] (line 262) *)
Definition serverClosed (c : ptr) : M bool :=
  w <~ loadServerWrap c ;;
  ret (wrapServerConn.closed w).

(** [return c.closeErr] (lines 263 and 275) *)
Definition serverCloseErr (c : ptr) : M error :=
  w <~ loadServerWrap c ;;
  ret (wrapServerConn.closeErr w).

(** [c.closed = true] (line 266) *)
Definition serverMarkClosed (c : ptr) : M unit :=
  updServerWrap c markServerClosed.

(** [c.closeErr = c.Conn.Close()] (line 267) *)
Definition serverRealClose (c : ptr) : M unit :=
  w <~ loadServerWrap c ;;
  e <~ netClose (serverWrapper c) (wrapServerConn.Conn w) ;;
  updServerWrap c (setServerCloseErr e).

(** The loop over the addons (lines 269-271); [c.connCtx] is passed as it
    is, nil or not. *)
Definition serverNotify (c : ptr) : M unit :=
  forEach (Addons proxy) (fun addon =>
    w <~ loadServerWrap c ;;
    emit (EvServerDisconnected c addon (wrapServerConn.connCtx w))).

(** The receiver of line 273, [c.connCtx.ClientConn.Conn]: there is no
    guard, the call on a nil interface value panics in [Close]. *)
Definition serverPaired (c : ptr) : M netConn :=
  w <~ loadServerWrap c ;;
  k <~ deref (wrapServerConn.connCtx w) ;;
  ctx <~ loadCtx k ;;
  ret (ClientConn.Conn (ConnContext.ClientConn ctx)).

Definition wrapServerConn_Close (Close : netConn -> M error) (c : ptr) : M error :=
  closed <~ serverClosed c ;;
  if closed then serverCloseErr c
  else
    serverMarkClosed c ;;;
    serverRealClose c ;;;
    serverNotify c ;;;
    paired <~ serverPaired c ;;
    Close paired ;;;
    serverCloseErr c.

(** [net.Conn.Close] on an interface value: dispatch on the dynamic type.
    The fuel bounds the depth of nested calls. *)
Fixpoint Conn_Close (fuel : nat) (conn : netConn) : M error :=
  match fuel with
  | O => fun _ => OutOfFuel
  | S n =>
      match conn with
      | nilConn => panic
      | tcpConn h => netClose (tcpConn h) h
      | clientWrapper p => wrapClientConn_Close (Conn_Close n) p
      | serverWrapper p => wrapServerConn_Close (Conn_Close n) p
      end
  end.

(** ** Interleaved executions

    Goroutines are modelled as threads that take one atomic step at a time,
    in the order a schedule gives; a step is one statement of the source,
    built from the same primitives as the functions above.  A panic in any
    thread ends the run. *)

Definition stepAt {T} (step : T -> M T) (i : nat) (ths : list T) : M (list T) :=
  match ths !! i with
  | None => ret ths
  | Some t => t' <~ step t ;; ret (<[i := t']> ths)
  end.

Fixpoint runSchedule {T} (step : T -> M T) (sched : list nat) (ths : list T)
  : M (list T) :=
  match sched with
  | [] => ret ths
  | i :: sched' => ths' <~ stepAt step i ths ;; runSchedule step sched' ths'
  end.

(** *** The handshake and the readers of its outcome *)

(** Where a call of [getCertificate] stands; the values computed so far
    travel with the program point. *)
Inductive certPc :=
| GcHandshake
| GcStoreErr (err : string)
| GcSignalErr (err : string)
| GcStoreConn (tlsConn : tlsClientConn) (tlsState : ConnectionState)
| GcStoreState (tlsState : ConnectionState)
| GcSignalOk
| GcGetCert
| GcDone (r : option Certificate * error).

(** Where a call of [TlsState] stands. *)
Inductive accessPc :=
| TsRecv
| TsRead
| TsDone (v : option ConnectionState).

Inductive hthread :=
| CertThread (connCtx : ptr) (clientHello : ClientHelloInfo) (pc : certPc)
| AccessThread (c : ptr) (pc : accessPc).

(** One statement of [getCertificate]: lines 164-188, then 190, 191-192 on
    failure, and 195, 196-197, 198, 201 on success. *)
Definition stepCert (connCtx : ptr) (clientHello : ClientHelloInfo) (pc : certPc)
  : M certPc :=
  let cfg := upstreamConfig clientHello in
  match pc with
  | GcHandshake =>
      serverConn <~ serverConnOf connCtx ;;
      s <~ loadServerConn serverConn ;;
      let tlsConn := mkTlsConn (ServerConn.Conn s) cfg in
      r <~ HandshakeContext (ServerConn.Conn s) cfg ;;
      match r with
      | inl err => ret (GcStoreErr err)
      | inr tlsState => ret (GcStoreConn tlsConn tlsState)
      end
  | GcStoreErr err =>
      sc <~ serverConnOf connCtx ;;
      updServerConn sc (setHandshakeErr (Some err)) ;;;
      ret (GcSignalErr err)
  | GcSignalErr err =>
      sc <~ serverConnOf connCtx ;;
      closeHandshaked sc ;;;
      ret (GcDone (None, Some err))
  | GcStoreConn tlsConn tlsState =>
      sc <~ serverConnOf connCtx ;;
      updServerConn sc (setTlsConn (Some tlsConn)) ;;;
      ret (GcStoreState tlsState)
  | GcStoreState tlsState =>
      sc <~ serverConnOf connCtx ;;
      updServerConn sc (setTlsState (Some tlsState)) ;;;
      ret GcSignalOk
  | GcSignalOk =>
      sc <~ serverConnOf connCtx ;;
      closeHandshaked sc ;;;
      ret GcGetCert
  | GcGetCert =>
      r <~ GetCert (hello_ServerName clientHello) ;;
      ret (GcDone r)
  | GcDone r => ret (GcDone r)
  end.

(** The statements of [getCertificate] in sequence, to its result. *)
Fixpoint runCert (fuel : nat) (connCtx : ptr) (clientHello : ClientHelloInfo)
  (pc : certPc) : M (option Certificate * error) :=
  match pc with
  | GcDone r => ret r
  | _ =>
      match fuel with
      | O => fun _ => OutOfFuel
      | S n => pc' <~ stepCert connCtx clientHello pc ;; runCert n connCtx clientHello pc'
      end
  end.

(** One statement of [TlsState]: the receive of line 49, which does not
    complete while the channel is open or nil, and the read of line 50. *)
Definition stepAccess (c : ptr) (pc : accessPc) : M accessPc :=
  match pc with
  | TsRecv =>
      s <~ loadServerConn c ;;
      match ServerConn.tlsHandshaked s with
      | chanClosed => ret TsRead
      | _ => ret TsRecv
      end
  | TsRead =>
      s <~ loadServerConn c ;;
      ret (TsDone (ServerConn.tlsState s))
  | TsDone v => ret (TsDone v)
  end.

Definition stepH (t : hthread) : M hthread :=
  match t with
  | CertThread k hello pc => pc' <~ stepCert k hello pc ;; ret (CertThread k hello pc')
  | AccessThread c pc => pc' <~ stepAccess c pc ;; ret (AccessThread c pc')
  end.


(** *** Concurrent [Close] calls *)

(** Where a call of a wrapper's [Close] stands: before the test of
    [c.closed], before [c.closed = true], before [c.Conn.Close()], before the
    loop over the addons, before the cascade, before [return c.closeErr]. *)
Inductive closePc := AtCheck | AtMark | AtRealClose | AtNotify | AtCascade | AtReturn.

(** A call of [Close] in progress, and a goroutine as the stack of its
    calls, innermost first. *)
Record frame := mkFrame { f_self : netConn; f_pc : closePc }.

Inductive action :=
| Goto (pc : closePc)
| Call (conn : netConn) (pc : closePc)
| Return (e : error).

(** One statement of [wrapClientConn.Close]. *)
Definition stepClient (c : ptr) (pc : closePc) : M action :=
  match pc with
  | AtCheck =>
      closed <~ clientClosed c ;;
      ret (if closed then Goto AtReturn else Goto AtMark)
  | AtMark => clientMarkClosed c ;;; ret (Goto AtRealClose)
  | AtRealClose => clientRealClose c ;;; ret (Goto AtNotify)
  | AtNotify => clientNotify c ;;; ret (Goto AtCascade)
  | AtCascade =>
      paired <~ clientPaired c ;;
      match paired with
      | Some conn => ret (Call conn AtReturn)
      | None => ret (Goto AtReturn)
      end
  | AtReturn => e <~ clientCloseErr c ;; ret (Return e)
  end.

(** One statement of [wrapServerConn.Close]. *)
Definition stepServer (c : ptr) (pc : closePc) : M action :=
  match pc with
  | AtCheck =>
      closed <~ serverClosed c ;;
      ret (if closed then Goto AtReturn else Goto AtMark)
  | AtMark => serverMarkClosed c ;;; ret (Goto AtRealClose)
  | AtRealClose => serverRealClose c ;;; ret (Goto AtNotify)
  | AtNotify => serverNotify c ;;; ret (Goto AtCascade)
  | AtCascade => paired <~ serverPaired c ;; ret (Call paired AtReturn)
  | AtReturn => e <~ serverCloseErr c ;; ret (Return e)
  end.

(** [Close] on a transport connection is one step; on nil it panics. *)
Definition stepFrame (f : frame) : M action :=
  match f_self f with
  | nilConn => panic
  | tcpConn h => e <~ netClose (tcpConn h) h ;; ret (Return e)
  | clientWrapper p => stepClient p (f_pc f)
  | serverWrapper p => stepServer p (f_pc f)
  end.

(** One step of a goroutine; the result of a cascaded [Close] is dropped,
    as in lines 227 and 273. *)
Definition stepStack (t : list frame) : M (list frame) :=
  match t with
  | [] => ret []
  | f :: rest =>
      a <~ stepFrame f ;;
      match a with
      | Goto pc => ret (mkFrame (f_self f) pc :: rest)
      | Call conn pc => ret (mkFrame conn AtCheck :: mkFrame (f_self f) pc :: rest)
      | Return _ => ret rest
      end
  end.


End Connection.

(** ** Vocabulary of the statements *)

(** The store an execution ended in, whether it returned, panicked or
    suspended. *)
Definition worldOf {A} (o : outcome A) : option World :=
  match o with
  | Ret _ w | Panic w | Block w => Some w
  | OutOfFuel => None
  end.

(** Every event that [m] appends to the trace satisfies [Q]. *)
Definition emits {A} (Q : event -> Prop) (m : M A) : Prop :=
  forall w w', worldOf (m w) = Some w' ->
    exists d, trace w' = trace w ++ d /\ Forall Q d.

Definition isGetCert (e : event) : bool :=
  match e with EvGetCert _ => true | _ => false end.
Definition isSignal (e : event) : bool :=
  match e with EvSignal _ => true | _ => false end.
Definition isHandshake (e : event) : bool :=
  match e with EvHandshake _ _ => true | _ => false end.
Definition isServerConnected (e : event) : bool :=
  match e with EvServerConnected _ _ => true | _ => false end.

Definition count {A} (f : A -> bool) (l : list A) : nat :=
  length (filter (fun e => f e = true) l).

#[global] Instance netConn_eq_dec : EqDecision netConn.
Proof. solve_decision. Defined.

(** The connection whose [Close] method produced the event: each wrapper
    closes its own transport connection and notifies the addons itself. *)
Definition owner (e : event) : option netConn :=
  match e with
  | EvNetClose self _ => Some self
  | EvClientDisconnected self _ _ => Some (clientWrapper self)
  | EvServerDisconnected self _ _ => Some (serverWrapper self)
  | _ => None
  end.

(** The events of [d] that [c] produced, in order. *)
Definition eventsOf (c : netConn) (d : list event) : list event :=
  filter (fun e => owner e = Some c) d.

(** [Close] on [c] has work left to do in [w]. *)
Definition isOpenIn (w : World) (c : netConn) : Prop :=
  match c with
  | nilConn => False
  | tcpConn _ => True
  | clientWrapper p =>
      exists x, cwraps w !! p = Some x /\ wrapClientConn.closed x = false
  | serverWrapper p =>
      exists x, swraps w !! p = Some x /\ wrapServerConn.closed x = false
  end.

(** [Close] has been called on [c]: a wrapper carries its flag, a transport
    connection closed directly shows in the events [d]. *)
Definition closedAfter (w : World) (d : list event) (c : netConn) : Prop :=
  match c with
  | nilConn => False
  | tcpConn h => In (EvNetClose (tcpConn h) h) d
  | clientWrapper p =>
      exists x, cwraps w !! p = Some x /\ wrapClientConn.closed x = true
  | serverWrapper p =>
      exists x, swraps w !! p = Some x /\ wrapServerConn.closed x = true
  end.

(** The number of wrappers not yet closed bounds the depth of a cascade. *)
Definition openWrappers (w : World) : nat :=
  count (fun x => negb (wrapClientConn.closed x)) (cwraps w) +
  count (fun x => negb (wrapServerConn.closed x)) (swraps w).

(** A [net.Conn] value that is not nil and points into the store. *)
Definition liveConn (w : World) (c : netConn) : Prop :=
  match c with
  | nilConn => False
  | tcpConn _ => True
  | clientWrapper p => p < length (cwraps w)
  | serverWrapper p => p < length (swraps w)
  end.

(** The stores that the program builds: every wrapper is bound to a
    context (the hook that follows [Accept], [dialContextHttp] and
    [initServerTcpConn] set [connCtx]), every context has its client
    connection ([newConnContext] receives the accepted one), and pointers
    point into the store. *)
Record wf (w : World) : Prop := mkWf {
  wf_cwraps :
    Forall (fun x => exists k, wrapClientConn.connCtx x = Some k /\ k < length (ctxs w))
           (cwraps w);
  wf_swraps :
    Forall (fun x => exists k, wrapServerConn.connCtx x = Some k /\ k < length (ctxs w))
           (swraps w);
  wf_ctxs :
    Forall (fun ctx =>
              liveConn w (ClientConn.Conn (ConnContext.ClientConn ctx)) /\
              forall sc, ConnContext.ServerConn ctx = Some sc -> sc < length (sconns w))
           (ctxs w);
  wf_sconns :
    Forall (fun s => ServerConn.Conn s = nilConn \/ liveConn w (ServerConn.Conn s))
           (sconns w)
}.

(** What a [Close] call may change: flags and cached errors of wrappers that
    were open, and the trace, by events of connections that were open. *)
Record evolves (w w' : World) : Prop := mkEvolves {
  ev_ctxs : ctxs w' = ctxs w;
  ev_sconns : sconns w' = sconns w;
  ev_nextId : nextId w' = nextId w;
  ev_cwraps :
    forall p x, cwraps w !! p = Some x ->
      exists x', cwraps w' !! p = Some x' /\
                 wrapClientConn.Conn x' = wrapClientConn.Conn x /\
                 wrapClientConn.connCtx x' = wrapClientConn.connCtx x /\
                 (wrapClientConn.closed x = true -> x' = x);
  ev_cwraps_length : length (cwraps w') = length (cwraps w);
  ev_swraps :
    forall p x, swraps w !! p = Some x ->
      exists x', swraps w' !! p = Some x' /\
                 wrapServerConn.Conn x' = wrapServerConn.Conn x /\
                 wrapServerConn.connCtx x' = wrapServerConn.connCtx x /\
                 (wrapServerConn.closed x = true -> x' = x);
  ev_swraps_length : length (swraps w') = length (swraps w);
  ev_trace :
    exists d, trace w' = trace w ++ d /\
              Forall (fun e => exists c, owner e = Some c /\ isOpenIn w c) d
}.


(** The first [Close] of a client wrapper [x] at [c], bound to context [k]:
    what the wrapper becomes, the events of its own, and the store after
    lines 219-224, in which the cascade of lines 226-228 starts. *)
Definition clientClosedRecord (cl : handle -> list event -> error)
  (w : World) (x : wrapClientConn.t) : wrapClientConn.t :=
  wrapClientConn.mk (wrapClientConn.Conn x) (wrapClientConn.connCtx x) true
    (cl (wrapClientConn.Conn x) (trace w)).

Definition clientOwnEvents (proxy : Proxy) (c : ptr) (x : wrapClientConn.t) (k : ptr)
  : list event :=
  EvNetClose (clientWrapper c) (wrapClientConn.Conn x)
    :: map (fun addon => EvClientDisconnected c addon k) (Addons proxy).

Definition afterClientOwn (proxy : Proxy) (cl : handle -> list event -> error)
  (w : World) (c : ptr) (x : wrapClientConn.t) (k : ptr) : World :=
  mkWorld (ctxs w) (sconns w) (<[c := clientClosedRecord cl w x]> (cwraps w))
          (swraps w) (nextId w) (trace w ++ clientOwnEvents proxy c x k).

(** The same for a server wrapper (lines 266-271 and 273). *)
Definition serverClosedRecord (cl : handle -> list event -> error)
  (w : World) (x : wrapServerConn.t) : wrapServerConn.t :=
  wrapServerConn.mk (wrapServerConn.Conn x) (wrapServerConn.connCtx x) true
    (cl (wrapServerConn.Conn x) (trace w)).

Definition serverOwnEvents (proxy : Proxy) (c : ptr) (x : wrapServerConn.t)
  : list event :=
  EvNetClose (serverWrapper c) (wrapServerConn.Conn x)
    :: map (fun addon => EvServerDisconnected c addon (wrapServerConn.connCtx x))
           (Addons proxy).

Definition afterServerOwn (proxy : Proxy) (cl : handle -> list event -> error)
  (w : World) (c : ptr) (x : wrapServerConn.t) : World :=
  mkWorld (ctxs w) (sconns w) (cwraps w)
          (<[c := serverClosedRecord cl w x]> (swraps w))
          (nextId w) (trace w ++ serverOwnEvents proxy c x).

(** The connection that the guard of line 226 selects. *)
Definition serverSideOf (w : World) (ctx : ConnContext.t) : option netConn :=
  match ConnContext.ServerConn ctx with
  | None => None
  | Some sc =>
      match sconns w !! sc with
      | Some s =>
          match ServerConn.Conn s with
          | nilConn => None
          | conn => Some conn
          end
      | None => None
      end
  end.


(** *** The handshake thread and the readers, seen from outside

    A call of [getCertificate] that started on the ServerConn [s] at [sc],
    with handshake answer [answer]: the ServerConn and the events of the
    call at each program point. *)
Inductive certAt (s : ServerConn.t) (cfg : tlsConfig) (sc : nat) (name : string)
  (answer : string + ConnectionState) (cert : option Certificate * error)
  : certPc -> ServerConn.t -> list event -> Prop :=
| at_Handshake :
    certAt s cfg sc name answer cert GcHandshake s []
| at_StoreErr err :
    answer = inl err ->
    certAt s cfg sc name answer cert (GcStoreErr err) s
      [EvHandshake (ServerConn.Conn s) cfg]
| at_SignalErr err :
    answer = inl err ->
    certAt s cfg sc name answer cert (GcSignalErr err)
      (setHandshakeErr (Some err) s)
      [EvHandshake (ServerConn.Conn s) cfg]
| at_DoneErr err :
    answer = inl err ->
    certAt s cfg sc name answer cert (GcDone (None, Some err))
      (setHandshaked chanClosed (setHandshakeErr (Some err) s))
      [EvHandshake (ServerConn.Conn s) cfg; EvSignal sc]
| at_StoreConn st :
    answer = inr st ->
    certAt s cfg sc name answer cert
      (GcStoreConn (mkTlsConn (ServerConn.Conn s) cfg) st) s
      [EvHandshake (ServerConn.Conn s) cfg]
| at_StoreState st :
    answer = inr st ->
    certAt s cfg sc name answer cert (GcStoreState st)
      (setTlsConn (Some (mkTlsConn (ServerConn.Conn s) cfg)) s)
      [EvHandshake (ServerConn.Conn s) cfg]
| at_SignalOk st :
    answer = inr st ->
    certAt s cfg sc name answer cert GcSignalOk
      (setTlsState (Some st) (setTlsConn (Some (mkTlsConn (ServerConn.Conn s) cfg)) s))
      [EvHandshake (ServerConn.Conn s) cfg]
| at_GetCert st :
    answer = inr st ->
    certAt s cfg sc name answer cert GcGetCert
      (setHandshaked chanClosed
         (setTlsState (Some st)
            (setTlsConn (Some (mkTlsConn (ServerConn.Conn s) cfg)) s)))
      [EvHandshake (ServerConn.Conn s) cfg; EvSignal sc]
| at_DoneOk st :
    answer = inr st ->
    certAt s cfg sc name answer cert (GcDone cert)
      (setHandshaked chanClosed
         (setTlsState (Some st)
            (setTlsConn (Some (mkTlsConn (ServerConn.Conn s) cfg)) s)))
      [EvHandshake (ServerConn.Conn s) cfg; EvSignal sc; EvGetCert name].

(** A reader past the receive has seen the channel closed; a reader that
    returned holds the state stored on the ServerConn. *)
Definition accessOk (s : ServerConn.t) (pc : accessPc) : Prop :=
  match pc with
  | TsRecv => True
  | TsRead => ServerConn.tlsHandshaked s = chanClosed
  | TsDone v => ServerConn.tlsHandshaked s = chanClosed /\ v = ServerConn.tlsState s
  end.

(** The [tlsHandshaked] channel of the ServerConn at [sc] is closed. *)
Definition signalled (w : World) (sc : nat) : Prop :=
  exists s, sconns w !! sc = Some s /\ ServerConn.tlsHandshaked s = chanClosed.

(** What the readers are to see for a handshake answer. *)
Definition cachedState (answer : string + ConnectionState) : option ConnectionState :=
  match answer with
  | inr st => Some st
  | inl _ => None
  end.

(** One handshake thread for context [k] and [n] readers of the ServerConn
    at [sc], all at their first statement. *)
Definition handshakeThreads (k : nat) (hello : ClientHelloInfo) (sc n : nat)
  : list hthread :=
  CertThread k hello GcHandshake :: replicate n (AccessThread sc TsRecv).


(** The store of a run that has changed the ServerConn at [sc] to [s] and
    produced the events [d], and nothing else. *)
Definition withServerConn (w : World) (sc : nat) (s : ServerConn.t) (d : list event)
  : World :=
  mkWorld (ctxs w) (<[sc := s]> (sconns w)) (cwraps w) (swraps w) (nextId w)
          (trace w ++ d).


(** All that a run of the handshake thread and the readers can reach from
    the store [w]: the handshake thread stands at a point of [certAt], and
    every reader agrees with the ServerConn. *)
Definition handshakeInv (w : World) (k sc : nat) (hello : ClientHelloInfo)
  (s : ServerConn.t) (cfg : tlsConfig)
  (answer : string + ConnectionState) (cert : option Certificate * error)
  (ths : list hthread) (w' : World) : Prop :=
  exists pc s1 d accs,
    w' = withServerConn w sc s1 d /\
    certAt s cfg sc (hello_ServerName hello) answer cert pc s1 d /\
    ths = CertThread k hello pc :: map (AccessThread sc) accs /\
    Forall (accessOk s1) accs.


(** *** Concurrent [Close] calls, seen from outside *)

#[global] Instance closePc_eq_dec : EqDecision closePc.
Proof. solve_decision. Defined.

Definition isWrapper (c : netConn) : bool :=
  match c with
  | clientWrapper _ | serverWrapper _ => true
  | _ => false
  end.

(** The real close of wrapper [c], and a notification of an addon by wrapper
    [c]. *)
Definition isCloseBy (c : netConn) (e : event) : bool :=
  match e with
  | EvNetClose self _ => bool_decide (self = c)
  | _ => false
  end.

Definition isNotifyBy (c : netConn) (e : event) : bool :=
  match e with
  | EvClientDisconnected p _ _ => bool_decide (clientWrapper p = c)
  | EvServerDisconnected p _ _ => bool_decide (serverWrapper p = c)
  | _ => false
  end.

(** Goroutines that each start one [Close] call. *)
Definition closeThreads (conns : list netConn) : list (list frame) :=
  map (fun c => [mkFrame c AtCheck]) conns.

(** The goroutine has read [c.closed] as false and has not yet set it. *)
Definition atMark (t : list frame) : bool :=
  match t with
  | f :: _ => bool_decide (f_pc f = AtMark)
  | [] => false
  end.

(** No goroutine other than number [i] stands between the test and the
    update of a flag. *)
Fixpoint othersNotAtMark (i : nat) (ths : list (list frame)) : bool :=
  match ths, i with
  | [], _ => true
  | _ :: rest, O => forallb (fun t => negb (atMark t)) rest
  | t :: rest, S j => negb (atMark t) && othersNotAtMark j rest
  end.

(** The schedule keeps the test and the update of a flag together: a
    goroutine that has read a flag as false is the next one to run. *)
Fixpoint flagAtomic (step : list frame -> M (list frame)) (sched : list nat)
  (ths : list (list frame)) (w : World) : bool :=
  match sched with
  | [] => true
  | i :: sched' =>
      othersNotAtMark i ths &&
      match stepAt step i ths w with
      | Ret ths' w' => flagAtomic step sched' ths' w'
      | _ => true
      end
  end.

(** Calls of [Close] on [c] in progress, each counted with the weight of
    its program point. *)
Definition frameWeight (wt : closePc -> nat) (c : netConn) (f : frame) : nat :=
  if bool_decide (f_self f = c) then wt (f_pc f) else 0.

Definition stackLoad (wt : closePc -> nat) (c : netConn) (t : list frame) : nat :=
  sum_list (map (frameWeight wt c) t).

Definition load (wt : closePc -> nat) (c : netConn) (ths : list (list frame)) : nat :=
  sum_list (map (stackLoad wt c) ths).

(** Calls between the test and the update of the flag; calls past the
    update that still owe the real close; that still owe the real close or
    the notification; and calls that have updated the flag and not finished
    notifying. *)
Definition markW (pc : closePc) : nat :=
  match pc with AtMark => 1 | _ => 0 end.
Definition closeW (pc : closePc) : nat :=
  match pc with AtMark | AtRealClose => 1 | _ => 0 end.
Definition notifyW (pc : closePc) : nat :=
  match pc with AtMark | AtRealClose | AtNotify => 1 | _ => 0 end.
Definition pastW (pc : closePc) : nat :=
  match pc with AtRealClose | AtNotify => 1 | _ => 0 end.

(** One step of a goroutine, by what it does to the flags, the stack and
    the trace. *)
Inductive closeStep (rounds : nat) (w : World)
  : list frame -> World -> list frame -> list event -> Prop :=
| cs_idle :
    closeStep rounds w [] w [] []
| cs_check_open c rest :
    isWrapper c = true -> isOpenIn w c ->
    closeStep rounds w (mkFrame c AtCheck :: rest) w (mkFrame c AtMark :: rest) []
| cs_check_closed c rest :
    closeStep rounds w (mkFrame c AtCheck :: rest) w (mkFrame c AtReturn :: rest) []
| cs_mark c rest w' :
    isWrapper c = true -> ~ isOpenIn w' c ->
    (forall c', isOpenIn w' c' -> isOpenIn w c') ->
    closeStep rounds w (mkFrame c AtMark :: rest) w' (mkFrame c AtRealClose :: rest) []
| cs_real c rest w' h :
    isWrapper c = true ->
    (forall c', isOpenIn w' c' -> isOpenIn w c') ->
    closeStep rounds w (mkFrame c AtRealClose :: rest) w' (mkFrame c AtNotify :: rest)
      [EvNetClose c h]
| cs_notify c rest w' es :
    isWrapper c = true ->
    (forall c', isOpenIn w' c' -> isOpenIn w c') ->
    count (isNotifyBy c) es = rounds ->
    (forall c', count (isCloseBy c') es = 0) ->
    (forall c', c' <> c -> count (isNotifyBy c') es = 0) ->
    closeStep rounds w (mkFrame c AtNotify :: rest) w' (mkFrame c AtCascade :: rest) es
| cs_call c conn rest :
    closeStep rounds w (mkFrame c AtCascade :: rest) w
      (mkFrame conn AtCheck :: mkFrame c AtReturn :: rest) []
| cs_skip c rest :
    closeStep rounds w (mkFrame c AtCascade :: rest) w (mkFrame c AtReturn :: rest) []
| cs_return c rest :
    closeStep rounds w (mkFrame c AtReturn :: rest) w rest []
| cs_tcp h pc rest w' :
    (forall c', isOpenIn w' c' -> isOpenIn w c') ->
    closeStep rounds w (mkFrame (tcpConn h) pc :: rest) w' rest
      [EvNetClose (tcpConn h) h].

(** What every run with atomic flags keeps true, for the events [d] so far:
    callers wait at [AtReturn]; an open wrapper has produced nothing and no
    call is past its flag update; per wrapper, the calls that still owe the
    real close (the notification) and the closes (notifications) done add up
    to at most one (one round). *)
Record closeInv (rounds : nat) (ths : list (list frame)) (w : World) (d : list event)
  : Prop := mkCloseInv {
  ci_callers : Forall (fun t => Forall (fun f => f_pc f = AtReturn) (tail t)) ths;
  ci_open :
    forall c, isWrapper c = true -> isOpenIn w c ->
      load pastW c ths = 0 /\
      count (isCloseBy c) d = 0 /\ count (isNotifyBy c) d = 0;
  ci_close :
    forall c, isWrapper c = true ->
      load closeW c ths + count (isCloseBy c) d <= 1;
  ci_notify :
    forall c, isWrapper c = true ->
      load notifyW c ths * rounds + count (isNotifyBy c) d <= rounds
}.


(** Goroutine [t], running alone from store [w], reaches stack [t'] and
    store [w']. *)
Definition runsTo (step : list frame -> M (list frame))
  (t : list frame) (w : World) (t' : list frame) (w' : World) : Prop :=
  exists n, runSchedule step (replicate n 0) [t] w = Ret [t'] w'.

(** ** Sample sessions *)

Definition sampleProxy : Proxy := mkProxy [1; 2] false middle.

(** A greeting that offers TLS 1.3, 1.0 and 1.2, in that order. *)
Definition sampleHello : ClientHelloInfo :=
  mkHello "a.example" [4865%Z; 49195%Z] [772%Z; 769%Z; 771%Z].

Definition sampleState : ConnectionState := mkState 772 4865 "http/1.1".

Definition sampleServerConn : ServerConn.t :=
  ServerConn.mk 1 "a.example:443" (tcpConn 7) chanOpen None None None None.

(** An intercepted session after the tunnel is up: the client speaks TLS
    and the upstream transport connection exists. *)
Definition tlsSession : World :=
  mkWorld [ConnContext.mk (ClientConn.mk 0 (clientWrapper 0) true) (Some 0) None]
          [sampleServerConn]
          [wrapClientConn.mk 3 (Some 0) false None]
          []
          2 [].

Definition handshakeFails : netConn -> tlsConfig -> list event -> string + ConnectionState :=
  fun _ _ _ => inl "remote error: tls: handshake failure"%string.
Definition handshakeSucceeds : netConn -> tlsConfig -> list event -> string + ConnectionState :=
  fun _ _ _ => inr sampleState.
Definition sampleCA : string -> list event -> option Certificate * error :=
  fun name tr => (Some (mkCert name (length tr)), None).


(** A plain-HTTP session right after [newConnContext]. *)
Definition plainSession : World :=
  mkWorld [ConnContext.mk (ClientConn.mk 0 (clientWrapper 0) false) None None]
          []
          [wrapClientConn.mk 3 (Some 0) false None]
          []
          1 [].

(** A raw-tunnel session: the descriptor names the target host. *)
Definition tunnelSession : World :=
  mkWorld [ConnContext.mk (ClientConn.mk 0 (clientWrapper 0) false) None
             (Some (mkPipe "b.example:9000"))]
          []
          [wrapClientConn.mk 3 (Some 0) false None]
          []
          1 [].

Definition dialSucceeds : string -> string -> list event -> string + handle :=
  fun _ _ _ => inr 7.
Definition dialFails : string -> string -> list event -> string + handle :=
  fun _ _ _ => inl "dial tcp: connection refused"%string.


(** An intercepted session whose context has no ServerConn. *)
Definition tlsSessionNoServer : World :=
  mkWorld [ConnContext.mk (ClientConn.mk 0 (clientWrapper 0) true) None None]
          []
          [wrapClientConn.mk 3 (Some 0) false None]
          []
          1 [].


(** A plain-HTTP session with both sides connected: the client connection
    of the context is the client wrapper, the connection of the ServerConn
    is the server wrapper, and both wrappers point back to the context. *)
Definition pairedSession : World :=
  mkWorld [ConnContext.mk (ClientConn.mk 0 (clientWrapper 0) false) (Some 0) None]
          [ServerConn.mk 1 "a.example:80" (serverWrapper 0) chanOpen None None None None]
          [wrapClientConn.mk 3 (Some 0) false None]
          [wrapServerConn.mk 7 (Some 0) false None]
          2 [].

(** Closing the client side fails with an error, closing the server side
    does not. *)
Definition sampleClose : handle -> list event -> error :=
  fun h _ => if Nat.eqb h 3 then Some "use of closed network connection"%string else None.

(** The store after two goroutines have both closed the client wrapper of
    [plainSession], each having read [closed] before the other set it. *)
Definition doubleClosedSession : World :=
  mkWorld [ConnContext.mk (ClientConn.mk 0 (clientWrapper 0) false) None None]
          []
          [wrapClientConn.mk 3 (Some 0) true
             (Some "use of closed network connection"%string)]
          []
          1
          [EvNetClose (clientWrapper 0) 3; EvNetClose (clientWrapper 0) 3;
           EvClientDisconnected 0 1 0; EvClientDisconnected 0 2 0;
           EvClientDisconnected 0 1 0; EvClientDisconnected 0 2 0].

(** [tlsSession] after [getCertificate] has run once with a successful
    handshake. *)
Definition handshakenSession : World :=
  Eval vm_compute in
    match getCertificate sampleProxy None handshakeSucceeds sampleCA 0 sampleHello
            tlsSession with
    | Ret _ w => w
    | _ => tlsSession
    end.

(** A proxy whose interceptor is not the man-in-the-middle one. *)
Definition forwardingProxy : Proxy := mkProxy [1; 2] false otherInterceptor.


(** A dialler that hands out a new transport connection on every call. *)
Definition dialCounting : string -> string -> list event -> string + handle :=
  fun _ _ tr => inr (10 + length tr).

(** [plainSession] after [initHttpServerConn] and two requests that made the
    client dial, first one host and then another. *)
Definition redialledSession : World :=
  Eval vm_compute in
    match (initHttpServerConn sampleProxy None 0 ;;;
           dialContextHttp sampleProxy dialCounting 0 0 "tcp" "a.example:80" ;;;
           dialContextHttp sampleProxy dialCounting 0 0 "tcp" "b.example:80")
            plainSession with
    | Ret _ w => w
    | _ => plainSession
    end.


(** A context made by [newConnContext] from a nil connection, after
    [initHttpServerConn] and one dial. *)
Definition clientlessSession : World :=
  Eval vm_compute in
    match (k <~ newConnContext nilConn ;;
           initHttpServerConn sampleProxy None k ;;;
           dialContextHttp sampleProxy dialSucceeds k 0 "tcp" "a.example:80")
            (mkWorld [] [] [] [] 0 []) with
    | Ret _ w => w
    | _ => mkWorld [] [] [] [] 0 []
    end.


(** * Properties *)

(** ** Stores and lookups *)

Lemma lookup_insert_same {A} (l : list A) (i : nat) (x y : A) :
  l !! i = Some x -> <[i := y]> l !! i = Some y.
Proof. intros H. apply list_lookup_insert_eq. eapply lookup_lt_Some, H. Qed.

(** ** Counting events *)

Lemma count_app {A} (f : A -> bool) l1 l2 : count f (l1 ++ l2) = count f l1 + count f l2.
Proof. unfold count. rewrite filter_app, length_app. reflexivity. Qed.

Lemma count_cons {A} (f : A -> bool) e l : count f (e :: l) = (if f e then 1 else 0) + count f l.
Proof.
  unfold count. destruct (f e) eqn:E.
  - rewrite filter_cons_True by exact E. reflexivity.
  - rewrite filter_cons_False by (rewrite E; discriminate). reflexivity.
Qed.

Lemma count_ServerConnected_round k (l : list Addon) :
  count isServerConnected (map (fun addon => EvServerConnected addon k) l) = length l.
Proof.
  induction l as [|a l IH]; [reflexivity|].
  simpl map. rewrite count_cons, IH. reflexivity.
Qed.

(** ** The version scan *)

Lemma scanVersion_fold_bounds (versions : list Z) (acc : Z * Z) :
  let r := fold_left scanVersion versions acc in
  (fst r <= fst acc)%Z /\ (snd acc <= snd r)%Z /\
  Forall (fun v => (fst r <= v <= snd r)%Z) versions.
Proof.
  revert acc. induction versions as [|v vs IH]; intros [mn mx]; simpl.
  - split; [lia|]. split; [lia|]. constructor.
  - specialize (IH (scanVersion (mn, mx) v)). simpl in IH.
    destruct IH as (Hlo & Hhi & Hall).
    unfold scanVersion in *; simpl in *.
    destruct (Z.ltb_spec v mn), (Z.gtb_spec v mx); simpl in *;
      (split; [lia|]); (split; [lia|]); constructor; auto; lia.
Qed.

Lemma scanVersion_fold_mem (versions : list Z) (acc : Z * Z) :
  let r := fold_left scanVersion versions acc in
  (fst r = fst acc \/ In (fst r) versions) /\
  (snd r = snd acc \/ In (snd r) versions).
Proof.
  revert acc. induction versions as [|v vs IH]; intros [mn mx]; simpl.
  - auto.
  - specialize (IH (scanVersion (mn, mx) v)). simpl in IH.
    destruct IH as [Hmin Hmax].
    unfold scanVersion in *; simpl in *.
    destruct (Z.ltb_spec v mn), (Z.gtb_spec v mx); simpl in *;
      split; intuition auto.
Qed.

Lemma versionRange_spec (versions : list Z) (mn mx : Z) :
  versionRange versions = Some (mn, mx) ->
  In mn versions /\ In mx versions /\
  Forall (fun v => (mn <= v <= mx)%Z) versions.
Proof.
  destruct versions as [|v0 vs]; [discriminate|].
  unfold versionRange. intros [= Hr].
  pose proof (scanVersion_fold_bounds (v0 :: vs) (v0, v0)) as Hb.
  pose proof (scanVersion_fold_mem (v0 :: vs) (v0, v0)) as Hm.
  cbv zeta in Hb, Hm.
  change (fold_left scanVersion (v0 :: vs) (v0, v0))
    with (fold_left scanVersion vs (scanVersion (v0, v0) v0)) in Hb, Hm.
  rewrite Hr in Hb, Hm. simpl fst in *. simpl snd in *.
  destruct Hb as (_ & _ & Hall). destruct Hm as [Hmn Hmx].
  repeat split; auto.
  - destruct Hmn as [->|]; [left; reflexivity | assumption].
  - destruct Hmx as [->|]; [left; reflexivity | assumption].
Qed.

Lemma versionRange_nonempty (versions : list Z) :
  versions <> [] -> exists mn mx, versionRange versions = Some (mn, mx).
Proof.
  destruct versions as [|v0 vs]; [congruence|]. intros _.
  unfold versionRange.
  destruct (fold_left scanVersion (v0 :: vs) (v0, v0)) as [mn mx]. eauto.
Qed.

(** ** Reasoning about the events of a computation *)

Section Emits.
Context {Q : event -> Prop}.

Lemma emits_ret {A} (a : A) : emits Q (ret a).
Proof. intros w w' [= <-]. exists []. rewrite app_nil_r. auto. Qed.

Lemma emits_panic {A} : emits Q (@panic A).
Proof. intros w w' [= <-]. exists []. rewrite app_nil_r. auto. Qed.

Lemma emits_block {A} : emits Q (@block A).
Proof. intros w w' [= <-]. exists []. rewrite app_nil_r. auto. Qed.

Lemma emits_bind {A B} (m : M A) (k : A -> M B) :
  emits Q m -> (forall a, emits Q (k a)) -> emits Q (bind m k).
Proof.
  intros Hm Hk w w'. unfold bind.
  destruct (m w) as [a w1| w1 | w1 |] eqn:E; intros Hw.
  - destruct (Hm w w1) as (d1 & E1 & F1); [rewrite E; reflexivity|].
    destruct (Hk a w1 w' Hw) as (d2 & E2 & F2).
    exists (d1 ++ d2). rewrite E2, E1, app_assoc. split; [reflexivity|].
    apply Forall_app; auto.
  - apply (Hm w w'). rewrite E. exact Hw.
  - apply (Hm w w'). rewrite E. exact Hw.
  - discriminate.
Qed.

Lemma emits_deref {A} (o : option A) : emits Q (deref o).
Proof. destruct o; [apply emits_ret | apply emits_panic]. Qed.

Lemma emits_emit (e : event) : Q e -> emits Q (emit e).
Proof. intros He w w' [= <-]. exists [e]. simpl. auto. Qed.

Lemma emits_silent {A} (m : M A) :
  (forall w w', worldOf (m w) = Some w' -> trace w' = trace w) -> emits Q m.
Proof.
  intros H w w' Hw. exists []. rewrite app_nil_r. split; [eauto | constructor].
Qed.

Lemma emits_getTrace : emits Q getTrace.
Proof. apply emits_silent. intros w w' [= <-]. reflexivity. Qed.

Lemma emits_loadCtx p : emits Q (loadCtx p).
Proof. intros w. unfold loadCtx. apply emits_deref. Qed.
Lemma emits_loadServerConn p : emits Q (loadServerConn p).
Proof. intros w. unfold loadServerConn. apply emits_deref. Qed.
Lemma emits_loadClientWrap p : emits Q (loadClientWrap p).
Proof. intros w. unfold loadClientWrap. apply emits_deref. Qed.
Lemma emits_loadServerWrap p : emits Q (loadServerWrap p).
Proof. intros w. unfold loadServerWrap. apply emits_deref. Qed.

Lemma emits_storeCtx p c : emits Q (storeCtx p c).
Proof. apply emits_silent. intros w w' [= <-]. reflexivity. Qed.
Lemma emits_storeServerConn p c : emits Q (storeServerConn p c).
Proof. apply emits_silent. intros w w' [= <-]. reflexivity. Qed.
Lemma emits_storeClientWrap p c : emits Q (storeClientWrap p c).
Proof. apply emits_silent. intros w w' [= <-]. reflexivity. Qed.
Lemma emits_storeServerWrap p c : emits Q (storeServerWrap p c).
Proof. apply emits_silent. intros w w' [= <-]. reflexivity. Qed.

Lemma emits_updServerConn p f : emits Q (updServerConn p f).
Proof.
  apply emits_bind; [apply emits_loadServerConn | intros; apply emits_storeServerConn].
Qed.
Lemma emits_updCtx p f : emits Q (updCtx p f).
Proof. apply emits_bind; [apply emits_loadCtx | intros; apply emits_storeCtx]. Qed.
Lemma emits_updClientWrap p f : emits Q (updClientWrap p f).
Proof.
  apply emits_bind; [apply emits_loadClientWrap | intros; apply emits_storeClientWrap].
Qed.
Lemma emits_updServerWrap p f : emits Q (updServerWrap p f).
Proof.
  apply emits_bind; [apply emits_loadServerWrap | intros; apply emits_storeServerWrap].
Qed.

Lemma emits_serverConnOf k : emits Q (serverConnOf k).
Proof. apply emits_bind; [apply emits_loadCtx | intros; apply emits_deref]. Qed.

Lemma emits_recv c : emits Q (recv c).
Proof. destruct c; simpl; first [apply emits_ret | apply emits_block]. Qed.

Lemma emits_forEach {A} (l : list A) (body : A -> M unit) :
  (forall a, In a l -> emits Q (body a)) -> emits Q (forEach l body).
Proof.
  induction l as [|a l IH]; simpl; intros H.
  - apply emits_ret.
  - apply emits_bind; [apply H; auto | intros _; apply IH; auto].
Qed.

Lemma emits_closeHandshaked sc : Q (EvSignal sc) -> emits Q (closeHandshaked sc).
Proof.
  intros HQ. apply emits_bind; [apply emits_loadServerConn|]. intros s.
  destruct (ServerConn.tlsHandshaked s); try apply emits_panic.
  apply emits_bind; [apply emits_storeServerConn | intros; apply emits_emit, HQ].
Qed.

End Emits.

Lemma emits_GetCert (Q : event -> Prop) proxy ca name :
  Q (EvGetCert name) -> emits Q (GetCert proxy ca name).
Proof.
  intros HQ. unfold GetCert. destruct (interceptor proxy); [|apply emits_panic].
  apply emits_bind; [apply emits_getTrace | intros tr].
  apply emits_bind; [apply emits_emit, HQ | intros; apply emits_ret].
Qed.

Lemma emits_HandshakeContext (Q : event -> Prop) hs conn cfg :
  Q (EvHandshake conn cfg) -> emits Q (HandshakeContext hs conn cfg).
Proof.
  intros HQ. unfold HandshakeContext.
  apply emits_bind; [apply emits_getTrace | intros tr].
  apply emits_bind; [apply emits_emit, HQ | intros; apply emits_ret].
Qed.

Lemma emits_DialContext (Q : event -> Prop) dial network addr :
  Q (EvDial network addr) -> emits Q (DialContext dial network addr).
Proof.
  intros HQ. unfold DialContext.
  apply emits_bind; [apply emits_getTrace | intros tr].
  apply emits_bind; [apply emits_emit, HQ | intros; apply emits_ret].
Qed.

Lemma emits_netClose (Q : event -> Prop) cl self h :
  Q (EvNetClose self h) -> emits Q (netClose cl self h).
Proof.
  intros HQ. unfold netClose.
  apply emits_bind; [apply emits_getTrace | intros tr].
  apply emits_bind; [apply emits_emit, HQ | intros; apply emits_ret].
Qed.

(** Every handshake that [getCertificate] performs uses the configuration
    derived from the greeting. *)
Lemma getCertificate_handshake_config proxy klw hs ca k hello :
  emits (fun e => forall c cfg, e = EvHandshake c cfg ->
                                cfg = upstreamConfig proxy klw hello)
        (getCertificate proxy klw hs ca k hello).
Proof.
  unfold getCertificate.
  apply emits_bind; [apply emits_serverConnOf | intros sc].
  apply emits_bind; [apply emits_loadServerConn | intros s].
  apply emits_bind; [apply emits_HandshakeContext; congruence | intros [err|st]].
  - repeat (apply emits_bind;
            [first [apply emits_serverConnOf | apply emits_updServerConn
                   | apply emits_closeHandshaked; discriminate] | intros ?]).
    apply emits_ret.
  - repeat (apply emits_bind;
            [first [apply emits_serverConnOf | apply emits_updServerConn
                   | apply emits_closeHandshaked; discriminate] | intros ?]).
    apply emits_GetCert. discriminate.
Qed.

(** ** Symbolic execution *)

Ltac unfold_prims :=
  unfold serverConnOf, HandshakeContext, DialContext, netClose, GetCert,
    updServerConn, updCtx, updClientWrap, updServerWrap, closeHandshaked,
    newServerConn, newClientConn, NewV4, allocServerConn, allocServerWrap,
    allocClientWrap, allocCtx,
    loadCtx, loadServerConn, loadClientWrap, loadServerWrap,
    storeCtx, storeServerConn, storeClientWrap, storeServerWrap,
    getTrace, emit, recv, bind, ret, panic, block, deref.

Ltac use_eqs :=
  repeat (unfold_prims; simpl;
          match goal with
          | H : ?x = _ |- context [?x] => rewrite H
          end);
  unfold_prims; simpl.

(** ** [getCertificate] *)

Lemma getCertificate_failure_run proxy klw hs ca w k ctx sc s hello err :
  ctxs w !! k = Some ctx ->
  ConnContext.ServerConn ctx = Some sc ->
  sconns w !! sc = Some s ->
  ServerConn.tlsHandshaked s = chanOpen ->
  hs (ServerConn.Conn s) (upstreamConfig proxy klw hello) (trace w) = inl err ->
  getCertificate proxy klw hs ca k hello w =
  Ret (None, Some err)
      (mkWorld (ctxs w)
         (<[sc := setHandshaked chanClosed (setHandshakeErr (Some err) s)]> (sconns w))
         (cwraps w) (swraps w) (nextId w)
         (trace w ++ [EvHandshake (ServerConn.Conn s) (upstreamConfig proxy klw hello);
                      EvSignal sc])).
Proof.
  intros Hctx Hsc Hs Hopen Hhs.
  unfold getCertificate. unfold_prims. use_eqs.
  rewrite (lookup_insert_same _ _ _ _ Hs). simpl. rewrite Hopen. simpl.
  rewrite list_insert_insert_eq, <- app_assoc. reflexivity.
Qed.

Lemma getCertificate_success_run proxy klw hs ca w k ctx sc s hello st :
  interceptor proxy = middle ->
  ctxs w !! k = Some ctx ->
  ConnContext.ServerConn ctx = Some sc ->
  sconns w !! sc = Some s ->
  ServerConn.tlsHandshaked s = chanOpen ->
  hs (ServerConn.Conn s) (upstreamConfig proxy klw hello) (trace w) = inr st ->
  let cfg := upstreamConfig proxy klw hello in
  let before := trace w ++ [EvHandshake (ServerConn.Conn s) cfg; EvSignal sc] in
  getCertificate proxy klw hs ca k hello w =
  Ret (ca (hello_ServerName hello) before)
      (mkWorld (ctxs w)
         (<[sc := setHandshaked chanClosed
                    (setTlsState (Some st)
                       (setTlsConn (Some (mkTlsConn (ServerConn.Conn s) cfg)) s))]>
            (sconns w))
         (cwraps w) (swraps w) (nextId w)
         (before ++ [EvGetCert (hello_ServerName hello)])).
Proof.
  intros Hmid Hctx Hsc Hs Hopen Hhs cfg before. subst cfg before.
  unfold getCertificate. unfold_prims. use_eqs.
  rewrite (lookup_insert_same _ _ _ _ Hs). use_eqs.
  rewrite list_insert_insert_eq.
  rewrite (lookup_insert_same _ _ _ _ Hs). simpl. rewrite Hopen. simpl.
  rewrite list_insert_insert_eq, <- !app_assoc. reflexivity.
Qed.

(** C1: for a greeting with a non-empty supported-versions list, the
    upstream configuration built by [getCertificate] has [MinVersion] the
    least and [MaxVersion] the greatest element of the list, whatever the
    order of the list; the cipher suites and the server name are the
    client's; and this is the configuration of every handshake that
    [getCertificate] performs. *)
Theorem getCertificate_mirrors_client_versions
  proxy klw hs ca (hello : ClientHelloInfo) :
  hello_SupportedVersions hello <> [] ->
  let cfg := upstreamConfig proxy klw hello in
  In (MinVersion cfg) (hello_SupportedVersions hello) /\
  Forall (fun v => (MinVersion cfg <= v)%Z) (hello_SupportedVersions hello) /\
  In (MaxVersion cfg) (hello_SupportedVersions hello) /\
  Forall (fun v => (v <= MaxVersion cfg)%Z) (hello_SupportedVersions hello) /\
  CipherSuites cfg = hello_CipherSuites hello /\
  ServerName cfg = hello_ServerName hello /\
  forall k, emits (fun e => forall c cfg', e = EvHandshake c cfg' -> cfg' = cfg)
                  (getCertificate proxy klw hs ca k hello).
Proof.
  intros Hne cfg.
  destruct (versionRange_nonempty _ Hne) as (mn & mx & Hr).
  destruct (versionRange_spec _ _ _ Hr) as (Hmn & Hmx & Hall).
  assert (Hmin : MinVersion cfg = mn) by (subst cfg; unfold upstreamConfig; rewrite Hr; reflexivity).
  assert (Hmax : MaxVersion cfg = mx) by (subst cfg; unfold upstreamConfig; rewrite Hr; reflexivity).
  rewrite Hmin, Hmax.
  split; [exact Hmn|]. split; [eapply Forall_impl; [exact Hall | simpl; intros; lia]|].
  split; [exact Hmx|]. split; [eapply Forall_impl; [exact Hall | simpl; intros; lia]|].
  split; [subst cfg; unfold upstreamConfig; rewrite Hr; reflexivity|].
  split; [subst cfg; unfold upstreamConfig; rewrite Hr; reflexivity|].
  intros k. apply getCertificate_handshake_config.
Qed.

Lemma getCertificate_mirrors_client_versions_witness :
  hello_SupportedVersions sampleHello <> [] /\
  MinVersion (upstreamConfig sampleProxy None sampleHello) = 769%Z /\
  MaxVersion (upstreamConfig sampleProxy None sampleHello) = 772%Z /\
  In (MinVersion (upstreamConfig sampleProxy None sampleHello))
     (hello_SupportedVersions sampleHello).
Proof.
  split; [discriminate|]. split; [reflexivity|]. split; [reflexivity|].
  exact (proj1 (getCertificate_mirrors_client_versions sampleProxy None
                  handshakeSucceeds sampleCA sampleHello ltac:(discriminate))).
Defined.

(** C10: for a greeting whose supported-versions list is empty,
    [getCertificate] leaves [MinVersion] and [MaxVersion] of the upstream
    configuration at zero; a range is derived exactly when the list is not
    empty. *)
Theorem getCertificate_empty_versions_unset proxy klw name suites :
  MinVersion (upstreamConfig proxy klw (mkHello name suites [])) = 0%Z /\
  MaxVersion (upstreamConfig proxy klw (mkHello name suites [])) = 0%Z /\
  CipherSuites (upstreamConfig proxy klw (mkHello name suites [])) = suites /\
  ServerName (upstreamConfig proxy klw (mkHello name suites [])) = name /\
  forall versions, versionRange versions = None <-> versions = [].
Proof.
  repeat split; try reflexivity.
  - destruct versions; [reflexivity | discriminate].
  - intros ->. reflexivity.
Qed.

(** C2: when the upstream handshake inside [getCertificate] fails, the
    error is stored in [tlsHandshakeErr] of the ServerConn, the
    [tlsHandshaked] channel is closed by the one signal event of the call,
    the call returns the error and no certificate, and the certificate
    authority is not called. *)
Theorem getCertificate_handshake_failure
  proxy klw hs ca w k ctx sc s hello err :
  ctxs w !! k = Some ctx ->
  ConnContext.ServerConn ctx = Some sc ->
  sconns w !! sc = Some s ->
  ServerConn.tlsHandshaked s = chanOpen ->
  hs (ServerConn.Conn s) (upstreamConfig proxy klw hello) (trace w) = inl err ->
  exists w' s' d,
    getCertificate proxy klw hs ca k hello w = Ret (None, Some err) w' /\
    sconns w' !! sc = Some s' /\
    ServerConn.tlsHandshakeErr s' = Some err /\
    ServerConn.tlsHandshaked s' = chanClosed /\
    ServerConn.tlsState s' = ServerConn.tlsState s /\
    ServerConn.tlsConn s' = ServerConn.tlsConn s /\
    trace w' = trace w ++ d /\
    d = [EvHandshake (ServerConn.Conn s) (upstreamConfig proxy klw hello); EvSignal sc] /\
    count isSignal d = 1 /\
    count isGetCert d = 0.
Proof.
  intros Hctx Hsc Hs Hopen Hhs.
  eexists _, _, _. split.
  - eapply getCertificate_failure_run; eauto.
  - simpl. split; [eapply lookup_insert_same, Hs|].
    repeat split; reflexivity.
Qed.

Lemma getCertificate_handshake_failure_witness :
  exists w' s' d,
    getCertificate sampleProxy None handshakeFails sampleCA 0 sampleHello tlsSession
    = Ret (None, Some "remote error: tls: handshake failure"%string) w' /\
    sconns w' !! 0 = Some s' /\
    ServerConn.tlsHandshakeErr s' = Some "remote error: tls: handshake failure"%string /\
    ServerConn.tlsHandshaked s' = chanClosed /\
    ServerConn.tlsState s' = None /\
    ServerConn.tlsConn s' = None /\
    trace w' = trace tlsSession ++ d /\
    d = [EvHandshake (tcpConn 7) (upstreamConfig sampleProxy None sampleHello); EvSignal 0] /\
    count isSignal d = 1 /\
    count isGetCert d = 0.
Proof.
  exact (getCertificate_handshake_failure sampleProxy None handshakeFails sampleCA
           tlsSession 0 _ 0 sampleServerConn sampleHello _
           eq_refl eq_refl eq_refl eq_refl eq_refl).
Defined.

(** C3: when the upstream handshake inside [getCertificate] succeeds, the
    TLS connection and its connection state are stored on the ServerConn,
    the [tlsHandshaked] channel is closed by the one signal event of the
    call, and after that the certificate authority is called, once, with the
    server name of the greeting; what it answers is what the call returns. *)
Theorem getCertificate_handshake_success
  proxy klw hs ca w k ctx sc s hello st :
  interceptor proxy = middle ->
  ctxs w !! k = Some ctx ->
  ConnContext.ServerConn ctx = Some sc ->
  sconns w !! sc = Some s ->
  ServerConn.tlsHandshaked s = chanOpen ->
  hs (ServerConn.Conn s) (upstreamConfig proxy klw hello) (trace w) = inr st ->
  exists w' s' d,
    getCertificate proxy klw hs ca k hello w
    = Ret (ca (hello_ServerName hello) (trace w ++ d)) w' /\
    sconns w' !! sc = Some s' /\
    ServerConn.tlsConn s'
    = Some (mkTlsConn (ServerConn.Conn s) (upstreamConfig proxy klw hello)) /\
    ServerConn.tlsState s' = Some st /\
    ServerConn.tlsHandshaked s' = chanClosed /\
    ServerConn.tlsHandshakeErr s' = ServerConn.tlsHandshakeErr s /\
    d = [EvHandshake (ServerConn.Conn s) (upstreamConfig proxy klw hello); EvSignal sc] /\
    trace w' = trace w ++ d ++ [EvGetCert (hello_ServerName hello)] /\
    count isSignal (d ++ [EvGetCert (hello_ServerName hello)]) = 1 /\
    count isGetCert (d ++ [EvGetCert (hello_ServerName hello)]) = 1.
Proof.
  intros Hmid Hctx Hsc Hs Hopen Hhs.
  eexists _, _, _. split.
  - eapply getCertificate_success_run; eauto.
  - simpl. split; [eapply lookup_insert_same, Hs|].
    rewrite <- app_assoc. repeat split; reflexivity.
Qed.

Lemma getCertificate_handshake_success_witness :
  exists w' s' d,
    getCertificate sampleProxy None handshakeSucceeds sampleCA 0 sampleHello tlsSession
    = Ret (sampleCA "a.example"%string (trace tlsSession ++ d)) w' /\
    sconns w' !! 0 = Some s' /\
    ServerConn.tlsConn s'
    = Some (mkTlsConn (tcpConn 7) (upstreamConfig sampleProxy None sampleHello)) /\
    ServerConn.tlsState s' = Some sampleState /\
    ServerConn.tlsHandshaked s' = chanClosed /\
    ServerConn.tlsHandshakeErr s' = None /\
    d = [EvHandshake (tcpConn 7) (upstreamConfig sampleProxy None sampleHello); EvSignal 0] /\
    trace w' = trace tlsSession ++ d ++ [EvGetCert "a.example"%string] /\
    count isSignal (d ++ [EvGetCert "a.example"%string]) = 1 /\
    count isGetCert (d ++ [EvGetCert "a.example"%string]) = 1.
Proof.
  exact (getCertificate_handshake_success sampleProxy None handshakeSucceeds sampleCA
           tlsSession 0 _ 0 sampleServerConn sampleHello sampleState
           eq_refl eq_refl eq_refl eq_refl eq_refl eq_refl).
Defined.

(** ** The initialisers *)

Lemma forEach_emit_run {A} (l : list A) (f : A -> event) (w : World) :
  forEach l (fun a => emit (f a)) w =
  Ret tt (mkWorld (ctxs w) (sconns w) (cwraps w) (swraps w) (nextId w)
                  (trace w ++ map f l)).
Proof.
  revert w. induction l as [|a l IH]; intros w; simpl.
  - rewrite app_nil_r. destruct w; reflexivity.
  - unfold bind, emit. rewrite IH. simpl. rewrite <- app_assoc. reflexivity.
Qed.

Lemma lookup_snoc_new {A} (l : list A) (x : A) : (l ++ [x]) !! length l = Some x.
Proof. rewrite lookup_app_r by lia. rewrite Nat.sub_diag. reflexivity. Qed.

Lemma insert_snoc_new {A} (l : list A) (x y : A) :
  <[length l := y]> (l ++ [x]) = l ++ [y].
Proof.
  rewrite insert_app_r_alt by lia. rewrite Nat.sub_diag. reflexivity.
Qed.

(** The ServerConn that [initHttpServerConn] installs for context [k]. *)
Lemma initHttpServerConn_install_run proxy klw w k ctx :
  ctxs w !! k = Some ctx ->
  ConnContext.ServerConn ctx = None ->
  ClientConn.Tls (ConnContext.ClientConn ctx) = false ->
  initHttpServerConn proxy klw k w =
  Ret tt
    (mkWorld (<[k := setServerConn (Some (length (sconns w))) ctx]> (ctxs w))
       (sconns w ++
        [ServerConn.mk (nextId w) ""%string nilConn chanOpen None None None
           (Some (httpClientOf proxy klw k (length (sconns w))))])
       (cwraps w) (swraps w) (S (nextId w)) (trace w)).
Proof.
  intros Hctx Hnone Htls.
  unfold initHttpServerConn. unfold_prims. use_eqs.
  rewrite lookup_snoc_new. use_eqs. rewrite insert_snoc_new. reflexivity.
Qed.

(** C6: [initHttpServerConn] is idempotent.  With a ServerConn already
    present, or with the client's [Tls] flag set, the call changes nothing;
    otherwise it installs one new ServerConn, and a second call changes
    nothing more. *)
Theorem initHttpServerConn_idempotent proxy klw w k ctx :
  ctxs w !! k = Some ctx ->
  exists w1 ctx1,
    initHttpServerConn proxy klw k w = Ret tt w1 /\
    initHttpServerConn proxy klw k w1 = Ret tt w1 /\
    ctxs w1 !! k = Some ctx1 /\
    match ConnContext.ServerConn ctx, ClientConn.Tls (ConnContext.ClientConn ctx) with
    | Some sc, _ => w1 = w
    | None, true => w1 = w
    | None, false =>
        ConnContext.ServerConn ctx1 = Some (length (sconns w)) /\
        sconns w !! length (sconns w) = None /\
        (exists s, sconns w1 = sconns w ++ [s] /\
                   ServerConn.client s
                   = Some (httpClientOf proxy klw k (length (sconns w))) /\
                   ServerConn.Conn s = nilConn /\
                   ServerConn.tlsHandshaked s = chanOpen) /\
        ConnContext.ClientConn ctx1 = ConnContext.ClientConn ctx /\
        trace w1 = trace w
    end.
Proof.
  intros Hctx.
  destruct (ConnContext.ServerConn ctx) as [sc|] eqn:Hsc.
  - assert (Hrun : initHttpServerConn proxy klw k w = Ret tt w)
      by (unfold initHttpServerConn; unfold_prims; use_eqs; reflexivity).
    exists w, ctx. rewrite Hrun. auto.
  - destruct (ClientConn.Tls (ConnContext.ClientConn ctx)) eqn:Htls.
    + assert (Hrun : initHttpServerConn proxy klw k w = Ret tt w)
        by (unfold initHttpServerConn; unfold_prims; use_eqs; reflexivity).
      exists w, ctx. rewrite Hrun. auto.
    + rewrite (initHttpServerConn_install_run _ _ _ _ _ Hctx Hsc Htls).
      eexists _, _. split; [reflexivity|].
      split.
      { unfold initHttpServerConn. unfold_prims. simpl.
        rewrite (lookup_insert_same _ _ _ _ Hctx). reflexivity. }
      split; [simpl; eapply lookup_insert_same, Hctx|].
      simpl. split; [reflexivity|].
      split; [apply lookup_ge_None_2; lia|].
      split; [eexists; split; [reflexivity|]; simpl; auto|].
      auto.
Qed.

Lemma initHttpServerConn_idempotent_witness :
  exists w1 ctx1,
    initHttpServerConn sampleProxy None 0 plainSession = Ret tt w1 /\
    initHttpServerConn sampleProxy None 0 w1 = Ret tt w1 /\
    ctxs w1 !! 0 = Some ctx1 /\
    ConnContext.ServerConn ctx1 = Some 0 /\
    sconns plainSession !! 0 = None /\
    (exists s, sconns w1 = sconns plainSession ++ [s] /\
               ServerConn.client s = Some (httpClientOf sampleProxy None 0 0) /\
               ServerConn.Conn s = nilConn /\
               ServerConn.tlsHandshaked s = chanOpen) /\
    ConnContext.ClientConn ctx1 = ClientConn.mk 0 (clientWrapper 0) false /\
    trace w1 = [].
Proof.
  exact (initHttpServerConn_idempotent sampleProxy None plainSession 0 _ eq_refl).
Defined.

(** C9: [initHttpsServerConn] does nothing when the client's [Tls] flag is
    not set.  When the flag is set it stores the dispatch client through
    [connCtx.ServerConn] without a nil check: with a ServerConn present the
    client is installed, and with none the call panics. *)
Theorem initHttpsServerConn_needs_ServerConn w k ctx :
  ctxs w !! k = Some ctx ->
  match ClientConn.Tls (ConnContext.ClientConn ctx), ConnContext.ServerConn ctx with
  | false, _ => initHttpsServerConn k w = Ret tt w
  | true, None => initHttpsServerConn k w = Panic w
  | true, Some sc =>
      match sconns w !! sc with
      | Some s =>
          initHttpsServerConn k w =
          Ret tt (mkWorld (ctxs w)
                    (<[sc := setClient (Some (httpsClientOf k)) s]> (sconns w))
                    (cwraps w) (swraps w) (nextId w) (trace w))
      | None => initHttpsServerConn k w = Panic w
      end
  end.
Proof.
  intros Hctx. unfold initHttpsServerConn. unfold_prims. simpl. rewrite Hctx. simpl.
  destruct (ClientConn.Tls (ConnContext.ClientConn ctx)); simpl; [|reflexivity].
  destruct (ConnContext.ServerConn ctx) as [sc|]; simpl; [|reflexivity].
  destruct (sconns w !! sc); reflexivity.
Qed.

Lemma initHttpsServerConn_needs_ServerConn_witness :
  initHttpsServerConn 0 tlsSessionNoServer = Panic tlsSessionNoServer /\
  initHttpsServerConn 0 plainSession = Ret tt plainSession /\
  initHttpsServerConn 0 tlsSession =
  Ret tt (mkWorld (ctxs tlsSession)
            (<[0 := setClient (Some (httpsClientOf 0)) sampleServerConn]>
               (sconns tlsSession))
            (cwraps tlsSession) (swraps tlsSession) (nextId tlsSession)
            (trace tlsSession)).
Proof.
  split; [|split].
  - exact (initHttpsServerConn_needs_ServerConn tlsSessionNoServer 0 _ eq_refl).
  - exact (initHttpsServerConn_needs_ServerConn plainSession 0 _ eq_refl).
  - exact (initHttpsServerConn_needs_ServerConn tlsSession 0 _ eq_refl).
Defined.

Lemma initServerTcpConn_failure_run proxy dial w k ctx pipe err :
  ctxs w !! k = Some ctx ->
  ConnContext.pipeConn ctx = Some pipe ->
  dial "tcp"%string (host pipe) (trace w) = inl err ->
  initServerTcpConn proxy dial k w =
  Ret (Some err)
    (mkWorld (<[k := setServerConn (Some (length (sconns w))) ctx]> (ctxs w))
       (sconns w ++
        [ServerConn.mk (nextId w) (host pipe) nilConn chanOpen None None None None])
       (cwraps w) (swraps w) (S (nextId w))
       (trace w ++ [EvDial "tcp" (host pipe)])).
Proof.
  intros Hctx Hpipe Hdial.
  unfold initServerTcpConn. unfold_prims. use_eqs.
  rewrite (lookup_insert_same _ _ _ _ Hctx). use_eqs.
  rewrite lookup_snoc_new. use_eqs.
  rewrite insert_snoc_new, lookup_snoc_new. use_eqs. reflexivity.
Qed.

Lemma initServerTcpConn_success_run proxy dial w k ctx pipe plainConn :
  ctxs w !! k = Some ctx ->
  ConnContext.pipeConn ctx = Some pipe ->
  dial "tcp"%string (host pipe) (trace w) = inr plainConn ->
  initServerTcpConn proxy dial k w =
  Ret None
    (mkWorld (<[k := setServerConn (Some (length (sconns w))) ctx]> (ctxs w))
       (sconns w ++
        [ServerConn.mk (nextId w) (host pipe) (serverWrapper (length (swraps w)))
           chanOpen None None None None])
       (cwraps w)
       (swraps w ++ [wrapServerConn.mk plainConn (Some k) false None])
       (S (nextId w))
       (trace w ++ EvDial "tcp" (host pipe)
          :: map (fun addon => EvServerConnected addon k) (Addons proxy))).
Proof.
  intros Hctx Hpipe Hdial.
  unfold initServerTcpConn. unfold_prims. use_eqs.
  rewrite (lookup_insert_same _ _ _ _ Hctx). use_eqs.
  rewrite lookup_snoc_new. use_eqs.
  rewrite insert_snoc_new, lookup_snoc_new. use_eqs.
  rewrite lookup_snoc_new. use_eqs. rewrite insert_snoc_new.
  rewrite (forEach_emit_run (Addons proxy) (fun addon => EvServerConnected addon k)).
  simpl.
  rewrite <- app_assoc. reflexivity.
Qed.

(** C5: [initServerTcpConn] on a context with a tunnel descriptor.  When
    the dial fails, the call returns the dial error, no addon is told
    [ServerConnected], and the ServerConn left in the context has no
    connection.  When the dial succeeds, the context holds a ServerConn that
    did not exist before, whose [Address] is the descriptor's host and whose
    connection is a new server wrapper around the dialled connection, and
    every addon is told [ServerConnected] once, in order. *)
Theorem initServerTcpConn_dial_outcomes proxy dial w k ctx pipe :
  ctxs w !! k = Some ctx ->
  ConnContext.pipeConn ctx = Some pipe ->
  let fresh := length (sconns w) in
  exists w' ctx' s d,
    match dial "tcp"%string (host pipe) (trace w) with
    | inl err =>
        initServerTcpConn proxy dial k w = Ret (Some err) w' /\
        ServerConn.Conn s = nilConn /\
        swraps w' = swraps w /\
        d = [EvDial "tcp" (host pipe)] /\
        count isServerConnected d = 0
    | inr plainConn =>
        initServerTcpConn proxy dial k w = Ret None w' /\
        ServerConn.Conn s = serverWrapper (length (swraps w)) /\
        swraps w' = swraps w ++ [wrapServerConn.mk plainConn (Some k) false None] /\
        d = EvDial "tcp" (host pipe)
              :: map (fun addon => EvServerConnected addon k) (Addons proxy) /\
        count isServerConnected d = length (Addons proxy)
    end /\
    ctxs w' !! k = Some ctx' /\
    ConnContext.ServerConn ctx' = Some fresh /\
    sconns w !! fresh = None /\
    sconns w' !! fresh = Some s /\
    ServerConn.Address s = host pipe /\
    trace w' = trace w ++ d.
Proof.
  intros Hctx Hpipe fresh.
  destruct (dial "tcp"%string (host pipe) (trace w)) as [err|plainConn] eqn:Hdial.
  - rewrite (initServerTcpConn_failure_run _ _ _ _ _ _ _ Hctx Hpipe Hdial).
    eexists _, _, (ServerConn.mk _ _ _ _ _ _ _ _), _.
    split; [repeat split; reflexivity|]. simpl.
    split; [eapply lookup_insert_same, Hctx|].
    split; [reflexivity|].
    split; [apply lookup_ge_None_2; lia|].
    split; [apply lookup_snoc_new|].
    split; reflexivity.
  - rewrite (initServerTcpConn_success_run _ _ _ _ _ _ _ Hctx Hpipe Hdial).
    eexists _, _, (ServerConn.mk _ _ _ _ _ _ _ _), _.
    split.
    { split; [reflexivity|]. split; [reflexivity|]. split; [reflexivity|].
      split; [reflexivity|].
      rewrite count_cons, count_ServerConnected_round. reflexivity. }
    simpl.
    split; [eapply lookup_insert_same, Hctx|].
    split; [reflexivity|].
    split; [apply lookup_ge_None_2; lia|].
    split; [apply lookup_snoc_new|].
    split; reflexivity.
Qed.

Lemma initServerTcpConn_dial_outcomes_witness :
  (exists w' ctx' s d,
      (initServerTcpConn sampleProxy dialSucceeds 0 tunnelSession = Ret None w' /\
       ServerConn.Conn s = serverWrapper 0 /\
       swraps w' = [wrapServerConn.mk 7 (Some 0) false None] /\
       d = [EvDial "tcp" "b.example:9000"; EvServerConnected 1 0;
            EvServerConnected 2 0] /\
       count isServerConnected d = 2) /\
      ctxs w' !! 0 = Some ctx' /\
      ConnContext.ServerConn ctx' = Some 0 /\
      sconns tunnelSession !! 0 = None /\
      sconns w' !! 0 = Some s /\
      ServerConn.Address s = "b.example:9000"%string /\
      trace w' = trace tunnelSession ++ d) /\
  (exists w' ctx' s d,
      (initServerTcpConn sampleProxy dialFails 0 tunnelSession
       = Ret (Some "dial tcp: connection refused"%string) w' /\
       ServerConn.Conn s = nilConn /\
       swraps w' = [] /\
       d = [EvDial "tcp" "b.example:9000"] /\
       count isServerConnected d = 0) /\
      ctxs w' !! 0 = Some ctx' /\
      ConnContext.ServerConn ctx' = Some 0 /\
      sconns tunnelSession !! 0 = None /\
      sconns w' !! 0 = Some s /\
      ServerConn.Address s = "b.example:9000"%string /\
      trace w' = trace tunnelSession ++ d).
Proof.
  split.
  - exact (initServerTcpConn_dial_outcomes sampleProxy dialSucceeds tunnelSession 0 _ _
             eq_refl eq_refl).
  - exact (initServerTcpConn_dial_outcomes sampleProxy dialFails tunnelSession 0 _ _
             eq_refl eq_refl).
Defined.

(** ** The wrappers: one [Close] call, statement by statement *)

Lemma count_insert_flip {A} (f : A -> bool) (l : list A) i x y :
  l !! i = Some x -> f x = true -> f y = false ->
  S (count f (<[i := y]> l)) = count f l.
Proof.
  revert i. induction l as [|a l IH]; intros [|i] Hl Hx Hy; simpl in *; try discriminate.
  - injection Hl as ->. rewrite !count_cons, Hx, Hy. reflexivity.
  - rewrite !count_cons. rewrite <- (IH i Hl Hx Hy). lia.
Qed.

Section CloseRuns.
Variable proxy : Proxy.
Variable cl : handle -> list event -> error.

Lemma clientClosed_run w c x :
  cwraps w !! c = Some x -> clientClosed c w = Ret (wrapClientConn.closed x) w.
Proof. intros H. unfold clientClosed. unfold_prims. use_eqs. reflexivity. Qed.

Lemma clientCloseErr_run w c x :
  cwraps w !! c = Some x -> clientCloseErr c w = Ret (wrapClientConn.closeErr x) w.
Proof. intros H. unfold clientCloseErr. unfold_prims. use_eqs. reflexivity. Qed.

Lemma clientNotify_run w c x k ctx :
  cwraps w !! c = Some x ->
  wrapClientConn.connCtx x = Some k ->
  ctxs w !! k = Some ctx ->
  clientNotify proxy c w =
  Ret tt (mkWorld (ctxs w) (sconns w) (cwraps w) (swraps w) (nextId w)
            (trace w ++ map (fun addon => EvClientDisconnected c addon k) (Addons proxy))).
Proof.
  intros Hx Hk Hctx. unfold clientNotify.
  rewrite <- (forEach_emit_run (Addons proxy) (fun addon => EvClientDisconnected c addon k)).
  revert w Hx Hctx. induction (Addons proxy) as [|a l IH]; intros w Hx Hctx; [reflexivity|].
  simpl. unfold bind at 1 3. unfold_prims. use_eqs.
  apply IH; assumption.
Qed.

Lemma clientPaired_run w c x k ctx :
  cwraps w !! c = Some x ->
  wrapClientConn.connCtx x = Some k ->
  ctxs w !! k = Some ctx ->
  (forall sc, ConnContext.ServerConn ctx = Some sc -> sc < length (sconns w)) ->
  clientPaired c w = Ret (serverSideOf w ctx) w.
Proof.
  intros Hx Hk Hctx Hsc. unfold clientPaired, serverSideOf.
  destruct (ConnContext.ServerConn ctx) as [sc|] eqn:Hctxsc.
  - destruct (lookup_lt_is_Some_2 (sconns w) sc (Hsc sc eq_refl)) as [s Hs].
    unfold_prims. use_eqs. destruct (ServerConn.Conn s); reflexivity.
  - unfold_prims. use_eqs. reflexivity.
Qed.

(** Lines 219-224 of the first [Close] of a client wrapper. *)
Lemma client_own_run {B} (rest : M B) w c x k ctx :
  cwraps w !! c = Some x ->
  wrapClientConn.connCtx x = Some k ->
  ctxs w !! k = Some ctx ->
  (clientMarkClosed c ;;; clientRealClose cl c ;;; clientNotify proxy c ;;; rest) w =
  rest (afterClientOwn proxy cl w c x k).
Proof.
  intros Hx Hk Hctx.
  unfold bind at 1. unfold clientMarkClosed, updClientWrap, bind at 1.
  unfold loadClientWrap, storeClientWrap, deref. rewrite Hx. simpl.
  unfold bind at 1. unfold clientRealClose. unfold_prims. simpl.
  rewrite (lookup_insert_same _ _ _ _ Hx). simpl.
  rewrite (lookup_insert_same _ _ _ _ Hx). simpl.
  rewrite list_insert_insert_eq.
  erewrite clientNotify_run; simpl.
  - unfold afterClientOwn, clientOwnEvents. simpl. rewrite <- app_assoc. reflexivity.
  - eapply lookup_insert_same, Hx.
  - simpl. exact Hk.
  - exact Hctx.
Qed.

Lemma wrapClientConn_Close_closed Close w c x :
  cwraps w !! c = Some x ->
  wrapClientConn.closed x = true ->
  wrapClientConn_Close proxy cl Close c w = Ret (wrapClientConn.closeErr x) w.
Proof.
  intros Hx Hc. unfold wrapClientConn_Close, bind at 1.
  rewrite (clientClosed_run _ _ _ Hx), Hc. apply clientCloseErr_run, Hx.
Qed.

Lemma wrapClientConn_Close_open Close w c x k ctx :
  cwraps w !! c = Some x ->
  wrapClientConn.closed x = false ->
  wrapClientConn.connCtx x = Some k ->
  ctxs w !! k = Some ctx ->
  (forall sc, ConnContext.ServerConn ctx = Some sc -> sc < length (sconns w)) ->
  wrapClientConn_Close proxy cl Close c w =
  (match serverSideOf w ctx with
   | Some conn => Close conn ;;; ret tt
   | None => ret tt
   end ;;; clientCloseErr c) (afterClientOwn proxy cl w c x k).
Proof.
  intros Hx Hc Hk Hctx Hsc. unfold wrapClientConn_Close, bind at 1.
  rewrite (clientClosed_run _ _ _ Hx), Hc.
  rewrite (client_own_run _ w c x k ctx Hx Hk Hctx).
  unfold bind at 1.
  erewrite clientPaired_run.
  - reflexivity.
  - simpl. eapply lookup_insert_same, Hx.
  - simpl. exact Hk.
  - exact Hctx.
  - exact Hsc.
Qed.

Lemma serverClosed_run w c x :
  swraps w !! c = Some x -> serverClosed c w = Ret (wrapServerConn.closed x) w.
Proof. intros H. unfold serverClosed. unfold_prims. use_eqs. reflexivity. Qed.

Lemma serverCloseErr_run w c x :
  swraps w !! c = Some x -> serverCloseErr c w = Ret (wrapServerConn.closeErr x) w.
Proof. intros H. unfold serverCloseErr. unfold_prims. use_eqs. reflexivity. Qed.

Lemma serverNotify_run w c x :
  swraps w !! c = Some x ->
  serverNotify proxy c w =
  Ret tt (mkWorld (ctxs w) (sconns w) (cwraps w) (swraps w) (nextId w)
            (trace w ++ map (fun addon =>
                               EvServerDisconnected c addon (wrapServerConn.connCtx x))
                            (Addons proxy))).
Proof.
  intros Hx. unfold serverNotify.
  rewrite <- (forEach_emit_run (Addons proxy)
                (fun addon => EvServerDisconnected c addon (wrapServerConn.connCtx x))).
  revert w Hx. induction (Addons proxy) as [|a l IH]; intros w Hx; [reflexivity|].
  simpl. unfold bind at 1 3. unfold_prims. use_eqs.
  apply IH; assumption.
Qed.

Lemma serverPaired_run w c x k ctx :
  swraps w !! c = Some x ->
  wrapServerConn.connCtx x = Some k ->
  ctxs w !! k = Some ctx ->
  serverPaired c w = Ret (ClientConn.Conn (ConnContext.ClientConn ctx)) w.
Proof.
  intros Hx Hk Hctx. unfold serverPaired. unfold_prims. use_eqs. reflexivity.
Qed.

(** Lines 266-271 of the first [Close] of a server wrapper. *)
Lemma server_own_run {B} (rest : M B) w c x :
  swraps w !! c = Some x ->
  (serverMarkClosed c ;;; serverRealClose cl c ;;; serverNotify proxy c ;;; rest) w =
  rest (afterServerOwn proxy cl w c x).
Proof.
  intros Hx.
  unfold bind at 1. unfold serverMarkClosed, updServerWrap, bind at 1.
  unfold loadServerWrap, storeServerWrap, deref. rewrite Hx. simpl.
  unfold bind at 1. unfold serverRealClose. unfold_prims. simpl.
  rewrite (lookup_insert_same _ _ _ _ Hx). simpl.
  rewrite (lookup_insert_same _ _ _ _ Hx). simpl.
  rewrite list_insert_insert_eq.
  erewrite serverNotify_run by (simpl; eapply lookup_insert_same, Hx).
  simpl. unfold afterServerOwn, serverOwnEvents. simpl.
  rewrite <- app_assoc. reflexivity.
Qed.

Lemma wrapServerConn_Close_closed Close w c x :
  swraps w !! c = Some x ->
  wrapServerConn.closed x = true ->
  wrapServerConn_Close proxy cl Close c w = Ret (wrapServerConn.closeErr x) w.
Proof.
  intros Hx Hc. unfold wrapServerConn_Close, bind at 1.
  rewrite (serverClosed_run _ _ _ Hx), Hc. apply serverCloseErr_run, Hx.
Qed.

Lemma wrapServerConn_Close_open Close w c x k ctx :
  swraps w !! c = Some x ->
  wrapServerConn.closed x = false ->
  wrapServerConn.connCtx x = Some k ->
  ctxs w !! k = Some ctx ->
  wrapServerConn_Close proxy cl Close c w =
  (Close (ClientConn.Conn (ConnContext.ClientConn ctx)) ;;; serverCloseErr c)
    (afterServerOwn proxy cl w c x).
Proof.
  intros Hx Hc Hk Hctx. unfold wrapServerConn_Close, bind at 1.
  rewrite (serverClosed_run _ _ _ Hx), Hc.
  rewrite (server_own_run _ w c x Hx).
  unfold bind at 1.
  erewrite serverPaired_run.
  - reflexivity.
  - simpl. eapply lookup_insert_same, Hx.
  - simpl. exact Hk.
  - exact Hctx.
Qed.

(** A server wrapper whose context has no client connection: the first
    [Close] does its own work and then panics in the cascade. *)
Lemma wrapServerConn_Close_nil_client fuel w c x k ctx :
  swraps w !! c = Some x ->
  wrapServerConn.closed x = false ->
  wrapServerConn.connCtx x = Some k ->
  ctxs w !! k = Some ctx ->
  ClientConn.Conn (ConnContext.ClientConn ctx) = nilConn ->
  Conn_Close proxy cl (S (S fuel)) (serverWrapper c) w
  = Panic (afterServerOwn proxy cl w c x).
Proof.
  intros Hx Hc Hk Hctx Hnil. simpl Conn_Close at 1.
  rewrite (wrapServerConn_Close_open _ w c x k ctx Hx Hc Hk Hctx), Hnil.
  reflexivity.
Qed.

End CloseRuns.

(** ** The wrappers: what a [Close] call may change *)

Lemma evolves_refl w : evolves w w.
Proof.
  constructor; try reflexivity.
  - intros p x Hx. exists x. auto.
  - intros p x Hx. exists x. auto.
  - exists []. rewrite app_nil_r. auto.
Qed.

Lemma isOpenIn_evolves_back w w1 c : evolves w w1 -> isOpenIn w1 c -> isOpenIn w c.
Proof.
  intros Hev. destruct c as [|h|p|p]; simpl; auto.
  - intros (x1 & Hx1 & Hopen).
    assert (Hlt : p < length (cwraps w))
      by (rewrite <- (ev_cwraps_length _ _ Hev); eapply lookup_lt_Some, Hx1).
    destruct (lookup_lt_is_Some_2 _ _ Hlt) as [x Hx].
    destruct (ev_cwraps _ _ Hev p x Hx) as (x' & Hx' & _ & _ & Hsame).
    exists x. split; [exact Hx|].
    destruct (wrapClientConn.closed x) eqn:E; [|reflexivity].
    rewrite (Hsame eq_refl) in Hx'. congruence.
  - intros (x1 & Hx1 & Hopen).
    assert (Hlt : p < length (swraps w))
      by (rewrite <- (ev_swraps_length _ _ Hev); eapply lookup_lt_Some, Hx1).
    destruct (lookup_lt_is_Some_2 _ _ Hlt) as [x Hx].
    destruct (ev_swraps _ _ Hev p x Hx) as (x' & Hx' & _ & _ & Hsame).
    exists x. split; [exact Hx|].
    destruct (wrapServerConn.closed x) eqn:E; [|reflexivity].
    rewrite (Hsame eq_refl) in Hx'. congruence.
Qed.

Lemma evolves_trans w w1 w2 : evolves w w1 -> evolves w1 w2 -> evolves w w2.
Proof.
  intros H1 H2. constructor.
  - rewrite (ev_ctxs _ _ H2). apply (ev_ctxs _ _ H1).
  - rewrite (ev_sconns _ _ H2). apply (ev_sconns _ _ H1).
  - rewrite (ev_nextId _ _ H2). apply (ev_nextId _ _ H1).
  - intros p x Hx.
    destruct (ev_cwraps _ _ H1 p x Hx) as (x1 & Hx1 & Hc1 & Hk1 & Hs1).
    destruct (ev_cwraps _ _ H2 p x1 Hx1) as (x2 & Hx2 & Hc2 & Hk2 & Hs2).
    exists x2. repeat split; try congruence.
    intros Hcl. specialize (Hs1 Hcl). subst x1. auto.
  - rewrite (ev_cwraps_length _ _ H2). apply (ev_cwraps_length _ _ H1).
  - intros p x Hx.
    destruct (ev_swraps _ _ H1 p x Hx) as (x1 & Hx1 & Hc1 & Hk1 & Hs1).
    destruct (ev_swraps _ _ H2 p x1 Hx1) as (x2 & Hx2 & Hc2 & Hk2 & Hs2).
    exists x2. repeat split; try congruence.
    intros Hcl. specialize (Hs1 Hcl). subst x1. auto.
  - rewrite (ev_swraps_length _ _ H2). apply (ev_swraps_length _ _ H1).
  - destruct (ev_trace _ _ H1) as (d1 & E1 & F1).
    destruct (ev_trace _ _ H2) as (d2 & E2 & F2).
    exists (d1 ++ d2). split; [rewrite E2, E1, app_assoc; reflexivity|].
    apply Forall_app. split; [exact F1|].
    eapply Forall_impl; [exact F2|]. simpl.
    intros e (c & Ho & Hopen). exists c. split; [exact Ho|].
    eapply isOpenIn_evolves_back; eauto.
Qed.

Lemma evolves_afterClientOwn proxy cl w c x k :
  cwraps w !! c = Some x ->
  wrapClientConn.closed x = false ->
  evolves w (afterClientOwn proxy cl w c x k).
Proof.
  intros Hx Hopen. constructor; simpl; try reflexivity.
  - intros p y Hy. destruct (decide (c = p)) as [->|Hne].
    + exists (clientClosedRecord cl w x). rewrite (lookup_insert_same _ _ _ _ Hx).
      assert (y = x) by congruence. subst y.
      repeat split; auto. congruence.
    + exists y. rewrite list_lookup_insert_ne by exact Hne. auto.
  - apply length_insert.
  - intros p y Hy. exists y. auto.
  - eexists. split; [reflexivity|].
    unfold clientOwnEvents. constructor.
    + exists (clientWrapper c). split; [reflexivity|]. simpl. eauto.
    + apply Forall_map. apply Forall_forall. intros a _. simpl.
      exists (clientWrapper c). split; [reflexivity|]. simpl. eauto.
Qed.

Lemma evolves_afterServerOwn proxy cl w c x :
  swraps w !! c = Some x ->
  wrapServerConn.closed x = false ->
  evolves w (afterServerOwn proxy cl w c x).
Proof.
  intros Hx Hopen. constructor; simpl; try reflexivity.
  - intros p y Hy. exists y. auto.
  - intros p y Hy. destruct (decide (c = p)) as [->|Hne].
    + exists (serverClosedRecord cl w x). rewrite (lookup_insert_same _ _ _ _ Hx).
      assert (y = x) by congruence. subst y.
      repeat split; auto. congruence.
    + exists y. rewrite list_lookup_insert_ne by exact Hne. auto.
  - apply length_insert.
  - eexists. split; [reflexivity|].
    unfold serverOwnEvents. constructor.
    + exists (serverWrapper c). split; [reflexivity|]. simpl. eauto.
    + apply Forall_map. apply Forall_forall. intros a _. simpl.
      exists (serverWrapper c). split; [reflexivity|]. simpl. eauto.
Qed.

Lemma evolves_tcp_close w h :
  evolves w (mkWorld (ctxs w) (sconns w) (cwraps w) (swraps w) (nextId w)
                     (trace w ++ [EvNetClose (tcpConn h) h])).
Proof.
  constructor; simpl; try reflexivity.
  - intros p x Hx. exists x. auto.
  - intros p x Hx. exists x. auto.
  - eexists. split; [reflexivity|]. constructor; [|constructor].
    exists (tcpConn h). simpl. auto.
Qed.

Lemma liveConn_evolves w w' c : evolves w w' -> liveConn w c -> liveConn w' c.
Proof.
  intros Hev. destruct c; simpl; auto.
  - rewrite (ev_cwraps_length _ _ Hev). auto.
  - rewrite (ev_swraps_length _ _ Hev). auto.
Qed.

Lemma wf_evolves w w' : wf w -> evolves w w' -> wf w'.
Proof.
  intros Hwf Hev. constructor.
  - apply Forall_lookup. intros p x' Hx'.
    assert (Hlt : p < length (cwraps w))
      by (rewrite <- (ev_cwraps_length _ _ Hev); eapply lookup_lt_Some, Hx').
    destruct (lookup_lt_is_Some_2 _ _ Hlt) as [x Hx].
    destruct (ev_cwraps _ _ Hev p x Hx) as (x'' & Hx'' & _ & Hk & _).
    assert (x'' = x') by congruence. subst x''.
    destruct (Forall_lookup_1 _ _ _ _ (wf_cwraps _ Hwf) Hx) as (k & Hk' & Hlen).
    exists k. rewrite (ev_ctxs _ _ Hev). split; congruence.
  - apply Forall_lookup. intros p x' Hx'.
    assert (Hlt : p < length (swraps w))
      by (rewrite <- (ev_swraps_length _ _ Hev); eapply lookup_lt_Some, Hx').
    destruct (lookup_lt_is_Some_2 _ _ Hlt) as [x Hx].
    destruct (ev_swraps _ _ Hev p x Hx) as (x'' & Hx'' & _ & Hk & _).
    assert (x'' = x') by congruence. subst x''.
    destruct (Forall_lookup_1 _ _ _ _ (wf_swraps _ Hwf) Hx) as (k & Hk' & Hlen).
    exists k. rewrite (ev_ctxs _ _ Hev). split; congruence.
  - rewrite (ev_ctxs _ _ Hev), (ev_sconns _ _ Hev).
    eapply Forall_impl; [apply (wf_ctxs _ Hwf)|]. simpl.
    intros ctx [Hlive Hsc]. split; [eapply liveConn_evolves; eauto | exact Hsc].
  - rewrite (ev_sconns _ _ Hev).
    eapply Forall_impl; [apply (wf_sconns _ Hwf)|]. simpl.
    intros s [Hnil|Hlive]; [left; exact Hnil | right; eapply liveConn_evolves; eauto].
Qed.

Lemma openWrappers_afterClientOwn proxy cl w c x k :
  cwraps w !! c = Some x ->
  wrapClientConn.closed x = false ->
  S (openWrappers (afterClientOwn proxy cl w c x k)) = openWrappers w.
Proof.
  intros Hx Hopen. unfold openWrappers. simpl.
  rewrite <- (count_insert_flip _ (cwraps w) c x (clientClosedRecord cl w x) Hx).
  - reflexivity.
  - rewrite Hopen. reflexivity.
  - reflexivity.
Qed.

Lemma openWrappers_afterServerOwn proxy cl w c x :
  swraps w !! c = Some x ->
  wrapServerConn.closed x = false ->
  S (openWrappers (afterServerOwn proxy cl w c x)) = openWrappers w.
Proof.
  intros Hx Hopen. unfold openWrappers. simpl.
  rewrite <- (count_insert_flip _ (swraps w) c x (serverClosedRecord cl w x) Hx).
  - lia.
  - rewrite Hopen. reflexivity.
  - reflexivity.
Qed.

Lemma serverSideOf_live w ctx conn :
  wf w -> serverSideOf w ctx = Some conn -> liveConn w conn.
Proof.
  intros Hwf. unfold serverSideOf.
  destruct (ConnContext.ServerConn ctx) as [sc|]; [|discriminate].
  destruct (sconns w !! sc) as [s|] eqn:Hs; [|discriminate].
  destruct (Forall_lookup_1 _ _ _ _ (wf_sconns _ Hwf) Hs) as [Hnil|Hlive].
  - rewrite Hnil. discriminate.
  - destruct (ServerConn.Conn s); intros [= <-]; exact Hlive.
Qed.

(** ** The wrappers: a cascade ends, and ends with everything closed *)

Lemma Conn_Close_returns proxy cl fuel :
  forall conn w,
    wf w -> liveConn w conn -> openWrappers w < fuel ->
    exists e w' d,
      Conn_Close proxy cl fuel conn w = Ret e w' /\
      evolves w w' /\
      trace w' = trace w ++ d /\
      closedAfter w' d conn.
Proof.
  induction fuel as [|n IH]; intros conn w Hwf Hlive Hfuel; [lia|].
  destruct conn as [|h|p|p]; simpl in Hlive.
  - contradiction.
  - simpl. unfold netClose. unfold_prims. simpl.
    eexists _, _, _. split; [reflexivity|].
    split; [apply evolves_tcp_close|]. simpl.
    split; [reflexivity|]. left. reflexivity.
  - destruct (lookup_lt_is_Some_2 _ _ Hlive) as [x Hx].
    destruct (wrapClientConn.closed x) eqn:Hcl.
    + simpl. rewrite (wrapClientConn_Close_closed _ _ _ _ _ _ Hx Hcl).
      exists (wrapClientConn.closeErr x), w, []. rewrite app_nil_r.
      split; [reflexivity|]. split; [apply evolves_refl|].
      split; [reflexivity|]. simpl. eauto.
    + destruct (Forall_lookup_1 _ _ _ _ (wf_cwraps _ Hwf) Hx) as (k & Hk & Hklen).
      destruct (lookup_lt_is_Some_2 _ _ Hklen) as [ctx Hctx].
      destruct (Forall_lookup_1 _ _ _ _ (wf_ctxs _ Hwf) Hctx) as [_ Hsc].
      simpl. rewrite (wrapClientConn_Close_open _ _ _ _ _ _ _ _ Hx Hcl Hk Hctx Hsc).
      pose proof (evolves_afterClientOwn proxy cl w p x k Hx Hcl) as Hev1.
      pose proof (openWrappers_afterClientOwn proxy cl w p x k Hx Hcl) as Hmeasure.
      assert (Hx1 : cwraps (afterClientOwn proxy cl w p x k) !! p
                    = Some (clientClosedRecord cl w x))
        by (simpl; eapply lookup_insert_same, Hx).
      destruct (serverSideOf w ctx) as [conn|] eqn:Hside.
      * destruct (IH conn (afterClientOwn proxy cl w p x k)) as (e2 & w2 & d2 & Hrun & Hev2 & Htr & Hclosed).
        { eapply wf_evolves; eauto. }
        { eapply liveConn_evolves; [exact Hev1|]. eapply serverSideOf_live; eauto. }
        { lia. }
        destruct (ev_cwraps _ _ Hev2 p _ Hx1) as (x2 & Hx2 & _ & _ & Hsame).
        specialize (Hsame eq_refl). subst x2.
        unfold bind at 1. unfold bind at 1. rewrite Hrun. simpl.
        rewrite (clientCloseErr_run _ _ _ Hx2).
        eexists _, _, (clientOwnEvents proxy p x k ++ d2).
        split; [reflexivity|].
        split; [eapply evolves_trans; eauto|].
        split; [rewrite Htr; simpl; rewrite <- app_assoc; reflexivity|].
        simpl. eauto.
      * unfold bind at 1. simpl. rewrite (clientCloseErr_run _ _ _ Hx1).
        eexists _, _, (clientOwnEvents proxy p x k).
        split; [reflexivity|]. split; [exact Hev1|].
        split; [reflexivity|]. simpl. eauto.
  - destruct (lookup_lt_is_Some_2 _ _ Hlive) as [x Hx].
    destruct (wrapServerConn.closed x) eqn:Hcl.
    + simpl. rewrite (wrapServerConn_Close_closed _ _ _ _ _ _ Hx Hcl).
      exists (wrapServerConn.closeErr x), w, []. rewrite app_nil_r.
      split; [reflexivity|]. split; [apply evolves_refl|].
      split; [reflexivity|]. simpl. eauto.
    + destruct (Forall_lookup_1 _ _ _ _ (wf_swraps _ Hwf) Hx) as (k & Hk & Hklen).
      destruct (lookup_lt_is_Some_2 _ _ Hklen) as [ctx Hctx].
      destruct (Forall_lookup_1 _ _ _ _ (wf_ctxs _ Hwf) Hctx) as [Hclient _].
      simpl. rewrite (wrapServerConn_Close_open _ _ _ _ _ _ _ _ Hx Hcl Hk Hctx).
      pose proof (evolves_afterServerOwn proxy cl w p x Hx Hcl) as Hev1.
      pose proof (openWrappers_afterServerOwn proxy cl w p x Hx Hcl) as Hmeasure.
      assert (Hx1 : swraps (afterServerOwn proxy cl w p x) !! p
                    = Some (serverClosedRecord cl w x))
        by (simpl; eapply lookup_insert_same, Hx).
      destruct (IH (ClientConn.Conn (ConnContext.ClientConn ctx))
                   (afterServerOwn proxy cl w p x))
        as (e2 & w2 & d2 & Hrun & Hev2 & Htr & Hclosed).
      { eapply wf_evolves; eauto. }
      { eapply liveConn_evolves; eauto. }
      { lia. }
      destruct (ev_swraps _ _ Hev2 p _ Hx1) as (x2 & Hx2 & _ & _ & Hsame).
      specialize (Hsame eq_refl). subst x2.
      unfold bind at 1. rewrite Hrun.
      rewrite (serverCloseErr_run _ _ _ Hx2).
      eexists _, _, (serverOwnEvents proxy p x ++ d2).
      split; [reflexivity|].
      split; [eapply evolves_trans; eauto|].
      split; [rewrite Htr; simpl; rewrite <- app_assoc; reflexivity|].
      simpl. eauto.
Qed.

(** ** The wrappers: the first [Close] and the later ones *)

Lemma eventsOf_app c d1 d2 : eventsOf c (d1 ++ d2) = eventsOf c d1 ++ eventsOf c d2.
Proof. apply filter_app. Qed.

Lemma eventsOf_all c d : Forall (fun e => owner e = Some c) d -> eventsOf c d = d.
Proof.
  induction 1 as [|e d He Hd IH]; [reflexivity|].
  unfold eventsOf in *. rewrite filter_cons_True by exact He. f_equal. exact IH.
Qed.

Lemma eventsOf_none c d : Forall (fun e => owner e <> Some c) d -> eventsOf c d = [].
Proof.
  induction 1 as [|e d He Hd IH]; [reflexivity|].
  unfold eventsOf in *. rewrite filter_cons_False by exact He. exact IH.
Qed.

Lemma eventsOf_clientOwn proxy p x k :
  eventsOf (clientWrapper p) (clientOwnEvents proxy p x k) = clientOwnEvents proxy p x k.
Proof.
  apply eventsOf_all. unfold clientOwnEvents. constructor; [reflexivity|].
  apply Forall_map, Forall_forall. intros a _. reflexivity.
Qed.

Lemma eventsOf_serverOwn proxy p x :
  eventsOf (serverWrapper p) (serverOwnEvents proxy p x) = serverOwnEvents proxy p x.
Proof.
  apply eventsOf_all. unfold serverOwnEvents. constructor; [reflexivity|].
  apply Forall_map, Forall_forall. intros a _. reflexivity.
Qed.

(** A connection that is closed when a cascade starts produces no event in
    it. *)
Lemma evolves_silent_closed w w' d c :
  evolves w w' -> trace w' = trace w ++ d -> ~ isOpenIn w c -> eventsOf c d = [].
Proof.
  intros Hev Htr Hclosed.
  destruct (ev_trace _ _ Hev) as (d' & Htr' & Hall).
  rewrite Htr' in Htr. apply app_inv_head in Htr. subst d'.
  apply eventsOf_none. eapply Forall_impl; [exact Hall|]. simpl.
  intros e (c' & Ho & Hopen) Hc. rewrite Ho in Hc. injection Hc as ->. auto.
Qed.

Lemma clientWrapper_first_Close proxy cl fuel w p x k ctx :
  wf w -> openWrappers w < fuel ->
  cwraps w !! p = Some x ->
  wrapClientConn.closed x = false ->
  wrapClientConn.connCtx x = Some k ->
  ctxs w !! k = Some ctx ->
  exists w' d2,
    Conn_Close proxy cl fuel (clientWrapper p) w
    = Ret (cl (wrapClientConn.Conn x) (trace w)) w' /\
    trace w' = trace w ++ clientOwnEvents proxy p x k ++ d2 /\
    eventsOf (clientWrapper p) (clientOwnEvents proxy p x k ++ d2)
    = clientOwnEvents proxy p x k /\
    cwraps w' !! p = Some (clientClosedRecord cl w x) /\
    match serverSideOf w ctx with
    | None => d2 = []
    | Some conn => closedAfter w' d2 conn
    end.
Proof.
  intros Hwf Hfuel Hx Hcl Hk Hctx.
  destruct fuel as [|n]; [lia|].
  destruct (Forall_lookup_1 _ _ _ _ (wf_ctxs _ Hwf) Hctx) as [_ Hsc].
  cbn [Conn_Close]. rewrite (wrapClientConn_Close_open _ _ _ _ _ _ _ _ Hx Hcl Hk Hctx Hsc).
  pose proof (evolves_afterClientOwn proxy cl w p x k Hx Hcl) as Hev1.
  pose proof (openWrappers_afterClientOwn proxy cl w p x k Hx Hcl) as Hmeasure.
  assert (Hx1 : cwraps (afterClientOwn proxy cl w p x k) !! p
                = Some (clientClosedRecord cl w x))
    by (simpl; eapply lookup_insert_same, Hx).
  destruct (serverSideOf w ctx) as [conn|] eqn:Hside.
  - destruct (Conn_Close_returns proxy cl n conn (afterClientOwn proxy cl w p x k))
      as (e2 & w2 & d2 & Hrun & Hev2 & Htr & Hclosed).
    { eapply wf_evolves; eauto. }
    { eapply liveConn_evolves; [exact Hev1|]. eapply serverSideOf_live; eauto. }
    { lia. }
    destruct (ev_cwraps _ _ Hev2 p _ Hx1) as (x2 & Hx2 & _ & _ & Hsame).
    specialize (Hsame eq_refl). subst x2.
    unfold bind at 1. unfold bind at 1. rewrite Hrun. cbv beta iota. unfold ret at 1.
    rewrite (clientCloseErr_run _ _ _ Hx2).
    exists w2, d2. split; [reflexivity|].
    split; [rewrite Htr; simpl; rewrite <- app_assoc; reflexivity|].
    split; [|split; [exact Hx2 | exact Hclosed]].
    rewrite eventsOf_app, eventsOf_clientOwn.
    rewrite (evolves_silent_closed _ _ _ (clientWrapper p) Hev2 Htr), app_nil_r;
      [reflexivity|].
    simpl. intros (y & Hy & Hopen). rewrite (lookup_insert_same _ _ _ _ Hx) in Hy.
    injection Hy as <-. discriminate.
  - unfold bind at 1. unfold ret at 1. rewrite (clientCloseErr_run _ _ _ Hx1).
    exists (afterClientOwn proxy cl w p x k), []. rewrite app_nil_r.
    split; [reflexivity|]. split; [reflexivity|].
    split; [apply eventsOf_clientOwn|]. split; [exact Hx1 | reflexivity].
Qed.

Lemma serverWrapper_first_Close proxy cl fuel w p x k ctx :
  wf w -> openWrappers w < fuel ->
  swraps w !! p = Some x ->
  wrapServerConn.closed x = false ->
  wrapServerConn.connCtx x = Some k ->
  ctxs w !! k = Some ctx ->
  exists w' d2,
    Conn_Close proxy cl fuel (serverWrapper p) w
    = Ret (cl (wrapServerConn.Conn x) (trace w)) w' /\
    trace w' = trace w ++ serverOwnEvents proxy p x ++ d2 /\
    eventsOf (serverWrapper p) (serverOwnEvents proxy p x ++ d2)
    = serverOwnEvents proxy p x /\
    swraps w' !! p = Some (serverClosedRecord cl w x) /\
    closedAfter w' d2 (ClientConn.Conn (ConnContext.ClientConn ctx)).
Proof.
  intros Hwf Hfuel Hx Hcl Hk Hctx.
  destruct fuel as [|n]; [lia|].
  destruct (Forall_lookup_1 _ _ _ _ (wf_ctxs _ Hwf) Hctx) as [Hclient _].
  cbn [Conn_Close]. rewrite (wrapServerConn_Close_open _ _ _ _ _ _ _ _ Hx Hcl Hk Hctx).
  pose proof (evolves_afterServerOwn proxy cl w p x Hx Hcl) as Hev1.
  pose proof (openWrappers_afterServerOwn proxy cl w p x Hx Hcl) as Hmeasure.
  assert (Hx1 : swraps (afterServerOwn proxy cl w p x) !! p
                = Some (serverClosedRecord cl w x))
    by (simpl; eapply lookup_insert_same, Hx).
  destruct (Conn_Close_returns proxy cl n (ClientConn.Conn (ConnContext.ClientConn ctx))
              (afterServerOwn proxy cl w p x))
    as (e2 & w2 & d2 & Hrun & Hev2 & Htr & Hclosed).
  { eapply wf_evolves; eauto. }
  { eapply liveConn_evolves; eauto. }
  { lia. }
  destruct (ev_swraps _ _ Hev2 p _ Hx1) as (x2 & Hx2 & _ & _ & Hsame).
  specialize (Hsame eq_refl). subst x2.
  unfold bind at 1. rewrite Hrun.
  rewrite (serverCloseErr_run _ _ _ Hx2).
  exists w2, d2. split; [reflexivity|].
  split; [rewrite Htr; simpl; rewrite <- app_assoc; reflexivity|].
  split; [|split; [exact Hx2 | exact Hclosed]].
  rewrite eventsOf_app, eventsOf_serverOwn.
  rewrite (evolves_silent_closed _ _ _ (serverWrapper p) Hev2 Htr), app_nil_r;
    [reflexivity|].
  simpl. intros (y & Hy & Hopen). rewrite (lookup_insert_same _ _ _ _ Hx) in Hy.
  injection Hy as <-. discriminate.
Qed.

(** A later [Close] finds the flag set: it returns the cached error and
    changes nothing. *)
Lemma Close_again proxy cl n w :
  (forall p x, cwraps w !! p = Some x -> wrapClientConn.closed x = true ->
     Conn_Close proxy cl (S n) (clientWrapper p) w = Ret (wrapClientConn.closeErr x) w) /\
  (forall p x, swraps w !! p = Some x -> wrapServerConn.closed x = true ->
     Conn_Close proxy cl (S n) (serverWrapper p) w = Ret (wrapServerConn.closeErr x) w).
Proof.
  split; intros p x Hx Hcl; simpl.
  - apply wrapClientConn_Close_closed; assumption.
  - apply wrapServerConn_Close_closed; assumption.
Qed.

(** C4: the first [Close] of a wrapper closes its transport connection
    once, stores the result in [closeErr], tells every addon once
    ([ClientDisconnected] from the client wrapper, [ServerDisconnected] from
    the server wrapper), and then closes the other side: the client wrapper
    closes the connection of the ServerConn when the ServerConn exists and
    its connection is not nil, the server wrapper closes the client
    connection of the context.  The cascade produces no further event of
    the wrapper, and every later [Close] returns the stored error and
    changes nothing: no close, no notification, no cascade. *)
Theorem wrapper_Close_once proxy cl fuel w :
  wf w -> openWrappers w < fuel ->
  (forall p x k ctx,
      cwraps w !! p = Some x ->
      wrapClientConn.closed x = false ->
      wrapClientConn.connCtx x = Some k ->
      ctxs w !! k = Some ctx ->
      let own := EvNetClose (clientWrapper p) (wrapClientConn.Conn x)
                   :: map (fun addon => EvClientDisconnected p addon k) (Addons proxy) in
      exists e w' d2 x',
        Conn_Close proxy cl fuel (clientWrapper p) w = Ret e w' /\
        e = cl (wrapClientConn.Conn x) (trace w) /\
        trace w' = trace w ++ own ++ d2 /\
        eventsOf (clientWrapper p) (own ++ d2) = own /\
        cwraps w' !! p = Some x' /\
        wrapClientConn.closed x' = true /\
        wrapClientConn.closeErr x' = e /\
        match serverSideOf w ctx with
        | None => d2 = []
        | Some conn => closedAfter w' d2 conn
        end /\
        forall n, Conn_Close proxy cl (S n) (clientWrapper p) w' = Ret e w') /\
  (forall p x k ctx,
      swraps w !! p = Some x ->
      wrapServerConn.closed x = false ->
      wrapServerConn.connCtx x = Some k ->
      ctxs w !! k = Some ctx ->
      let own := EvNetClose (serverWrapper p) (wrapServerConn.Conn x)
                   :: map (fun addon => EvServerDisconnected p addon (Some k))
                          (Addons proxy) in
      exists e w' d2 x',
        Conn_Close proxy cl fuel (serverWrapper p) w = Ret e w' /\
        e = cl (wrapServerConn.Conn x) (trace w) /\
        trace w' = trace w ++ own ++ d2 /\
        eventsOf (serverWrapper p) (own ++ d2) = own /\
        swraps w' !! p = Some x' /\
        wrapServerConn.closed x' = true /\
        wrapServerConn.closeErr x' = e /\
        closedAfter w' d2 (ClientConn.Conn (ConnContext.ClientConn ctx)) /\
        forall n, Conn_Close proxy cl (S n) (serverWrapper p) w' = Ret e w').
Proof.
  intros Hwf Hfuel. split.
  - intros p x k ctx Hx Hcl Hk Hctx own.
    destruct (clientWrapper_first_Close proxy cl fuel w p x k ctx Hwf Hfuel Hx Hcl Hk Hctx)
      as (w' & d2 & Hrun & Htr & Hown & Hx' & Hcascade).
    exists (cl (wrapClientConn.Conn x) (trace w)), w', d2, (clientClosedRecord cl w x).
    split; [exact Hrun|]. split; [reflexivity|]. split; [exact Htr|].
    split; [exact Hown|]. split; [exact Hx'|]. split; [reflexivity|].
    split; [reflexivity|]. split; [exact Hcascade|].
    intros n. apply (proj1 (Close_again proxy cl n w') p _ Hx'). reflexivity.
  - intros p x k ctx Hx Hcl Hk Hctx own.
    destruct (serverWrapper_first_Close proxy cl fuel w p x k ctx Hwf Hfuel Hx Hcl Hk Hctx)
      as (w' & d2 & Hrun & Htr & Hown & Hx' & Hcascade).
    exists (cl (wrapServerConn.Conn x) (trace w)), w', d2, (serverClosedRecord cl w x).
    subst own. unfold serverOwnEvents in Htr, Hown. rewrite Hk in Htr, Hown.
    split; [exact Hrun|]. split; [reflexivity|]. split; [exact Htr|].
    split; [exact Hown|]. split; [exact Hx'|]. split; [reflexivity|].
    split; [reflexivity|]. split; [exact Hcascade|].
    intros n. apply (proj2 (Close_again proxy cl n w') p _ Hx'). reflexivity.
Qed.

Lemma pairedSession_wf : wf pairedSession.
Proof.
  constructor; simpl.
  - constructor; [|constructor]. exists 0. simpl. split; [reflexivity | lia].
  - constructor; [|constructor]. exists 0. simpl. split; [reflexivity | lia].
  - constructor; [|constructor]. split; [simpl; lia|]. intros ? [= <-]. simpl. lia.
  - constructor; [|constructor]. right. simpl. lia.
Qed.

Lemma wrapper_Close_once_witness :
  wf pairedSession /\ openWrappers pairedSession < 3 /\
  (exists e w' d2 x',
      Conn_Close sampleProxy sampleClose 3 (clientWrapper 0) pairedSession = Ret e w' /\
      e = Some "use of closed network connection"%string /\
      trace w' = [] ++ [EvNetClose (clientWrapper 0) 3; EvClientDisconnected 0 1 0;
                        EvClientDisconnected 0 2 0] ++ d2 /\
      eventsOf (clientWrapper 0)
        ([EvNetClose (clientWrapper 0) 3; EvClientDisconnected 0 1 0;
          EvClientDisconnected 0 2 0] ++ d2)
      = [EvNetClose (clientWrapper 0) 3; EvClientDisconnected 0 1 0;
         EvClientDisconnected 0 2 0] /\
      cwraps w' !! 0 = Some x' /\
      wrapClientConn.closed x' = true /\
      wrapClientConn.closeErr x' = e /\
      closedAfter w' d2 (serverWrapper 0) /\
      forall n, Conn_Close sampleProxy sampleClose (S n) (clientWrapper 0) w' = Ret e w') /\
  (exists e w' d2 x',
      Conn_Close sampleProxy sampleClose 3 (serverWrapper 0) pairedSession = Ret e w' /\
      e = None /\
      trace w' = [] ++ [EvNetClose (serverWrapper 0) 7; EvServerDisconnected 0 1 (Some 0);
                        EvServerDisconnected 0 2 (Some 0)] ++ d2 /\
      eventsOf (serverWrapper 0)
        ([EvNetClose (serverWrapper 0) 7; EvServerDisconnected 0 1 (Some 0);
          EvServerDisconnected 0 2 (Some 0)] ++ d2)
      = [EvNetClose (serverWrapper 0) 7; EvServerDisconnected 0 1 (Some 0);
         EvServerDisconnected 0 2 (Some 0)] /\
      swraps w' !! 0 = Some x' /\
      wrapServerConn.closed x' = true /\
      wrapServerConn.closeErr x' = e /\
      closedAfter w' d2 (clientWrapper 0) /\
      forall n, Conn_Close sampleProxy sampleClose (S n) (serverWrapper 0) w' = Ret e w').
Proof.
  assert (Hfuel : openWrappers pairedSession < 3) by (vm_compute; lia).
  split; [exact pairedSession_wf|]. split; [exact Hfuel|].
  destruct (wrapper_Close_once sampleProxy sampleClose 3 pairedSession
              pairedSession_wf Hfuel) as [Hclient Hserver].
  split.
  - exact (Hclient 0 _ 0 _ eq_refl eq_refl eq_refl eq_refl).
  - exact (Hserver 0 _ 0 _ eq_refl eq_refl eq_refl eq_refl).
Defined.

(** ** Interleaved executions: the handshake and its readers *)

Ltac split_outcome :=
  match goal with
  | |- context [serverConnOf ?k ?w] => destruct (serverConnOf k w) as [? ?| ? | ? |]
  | |- context [loadServerConn ?p ?w] => destruct (loadServerConn p w) as [? ?| ? | ? |]
  | |- context [updServerConn ?p ?f ?w] => destruct (updServerConn p f w) as [? ?| ? | ? |]
  | |- context [closeHandshaked ?p ?w] => destruct (closeHandshaked p w) as [? ?| ? | ? |]
  | |- context [HandshakeContext ?hs ?c ?cfg ?w] =>
      destruct (HandshakeContext hs c cfg w) as [[?|?] ?| ? | ? |]
  | |- context [GetCert ?px ?ca ?n ?w] => destruct (GetCert px ca n w) as [? ?| ? | ? |]
  end.

(** The statements of [stepCert], run in sequence, are [getCertificate]. *)
Lemma getCertificate_is_runCert proxy klw hs ca k hello w :
  getCertificate proxy klw hs ca k hello w
  = runCert proxy klw hs ca 5 k hello GcHandshake w.
Proof.
  unfold getCertificate. cbn [runCert stepCert]. unfold bind, ret.
  repeat (split_outcome; cbn [runCert stepCert]; unfold bind, ret; try reflexivity).
Qed.

Lemma bind_Ret {A B} (m : M A) (k : A -> M B) w a w1 :
  m w = Ret a w1 -> bind m k w = k a w1.
Proof. intros H. unfold bind. rewrite H. reflexivity. Qed.

Lemma stepAt_Ret {T} (step : T -> M T) i ths t t' w w1 :
  ths !! i = Some t -> step t w = Ret t' w1 ->
  stepAt step i ths w = Ret (<[i := t']> ths) w1.
Proof.
  intros Hi Hstep. unfold stepAt. rewrite Hi. rewrite (bind_Ret _ _ _ _ _ Hstep).
  reflexivity.
Qed.

Lemma stepAt_absent {T} (step : T -> M T) i (ths : list T) w :
  ths !! i = None -> stepAt step i ths w = Ret ths w.
Proof. intros Hi. unfold stepAt. rewrite Hi. reflexivity. Qed.

Lemma stepH_access proxy klw hs ca c pc pc' w w1 :
  stepAccess c pc w = Ret pc' w1 ->
  stepH proxy klw hs ca (AccessThread c pc) w = Ret (AccessThread c pc') w1.
Proof. intros H. simpl. rewrite (bind_Ret _ _ _ _ _ H). reflexivity. Qed.

Lemma stepH_cert proxy klw hs ca k hello pc pc' w w1 :
  stepCert proxy klw hs ca k hello pc w = Ret pc' w1 ->
  stepH proxy klw hs ca (CertThread k hello pc) w = Ret (CertThread k hello pc') w1.
Proof. intros H. simpl. rewrite (bind_Ret _ _ _ _ _ H). reflexivity. Qed.

Section Handshake.
Variable proxy : Proxy.
Variable klw : option nat.
Variable hs : netConn -> tlsConfig -> list event -> string + ConnectionState.
Variable ca : string -> list event -> option Certificate * error.
Variable w : World.
Variables (k sc : nat) (ctx : ConnContext.t) (s : ServerConn.t).
Variable hello : ClientHelloInfo.

Hypothesis Hmiddle : interceptor proxy = middle.
Hypothesis Hctx : ctxs w !! k = Some ctx.
Hypothesis Hsc : ConnContext.ServerConn ctx = Some sc.
Hypothesis Hs : sconns w !! sc = Some s.
Hypothesis Hopen : ServerConn.tlsHandshaked s = chanOpen.

Variable answer : string + ConnectionState.
Hypothesis Hanswer :
  hs (ServerConn.Conn s) (upstreamConfig proxy klw hello) (trace w) = answer.

Abbreviation cfg := (upstreamConfig proxy klw hello).
Abbreviation cert :=
  (ca (hello_ServerName hello)
      (trace w ++ [EvHandshake (ServerConn.Conn s) cfg; EvSignal sc])).
Abbreviation at_pc := (certAt s cfg sc (hello_ServerName hello) answer cert).

Lemma withServerConn_lookup s1 d : sconns (withServerConn w sc s1 d) !! sc = Some s1.
Proof. simpl. eapply lookup_insert_same, Hs. Qed.

Lemma withServerConn_start : withServerConn w sc s [] = w.
Proof.
  unfold withServerConn. rewrite (list_insert_id _ _ _ Hs), app_nil_r.
  destruct w; reflexivity.
Qed.

Lemma stepCert_at pc s1 d :
  at_pc pc s1 d ->
  exists pc' s2 d',
    stepCert proxy klw hs ca k hello pc (withServerConn w sc s1 d)
    = Ret pc' (withServerConn w sc s2 d') /\
    at_pc pc' s2 d' /\
    (ServerConn.tlsHandshaked s1 = chanClosed -> s2 = s1).
Proof.
  intros Hat.
  pose proof (withServerConn_lookup s1 d) as Hl.
  destruct Hat; unfold stepCert, withServerConn in *; simpl in Hl;
    try rewrite app_nil_r; use_eqs;
    rewrite ?list_insert_insert_eq, <- ?app_assoc; simpl.
  all: try (destruct answer as [err|st]).
  all: eexists _, _, _; (split; [reflexivity|]).
  all: split; [econstructor; solve [reflexivity | eassumption] | ].
  all: simpl; try rewrite Hopen; try discriminate; try reflexivity.
Qed.

Lemma accessOk_later s1 s2 apc :
  accessOk s1 apc ->
  (ServerConn.tlsHandshaked s1 = chanClosed -> s2 = s1) ->
  accessOk s2 apc.
Proof.
  destruct apc as [| |v]; simpl; auto.
  - intros Hc Hsame. rewrite (Hsame Hc). exact Hc.
  - intros [Hc Hv] Hsame. rewrite (Hsame Hc). auto.
Qed.

Lemma stepAccess_at apc s1 d :
  accessOk s1 apc ->
  exists apc',
    stepAccess sc apc (withServerConn w sc s1 d) = Ret apc' (withServerConn w sc s1 d) /\
    accessOk s1 apc' /\
    apc' = match apc with
           | TsRecv =>
               match ServerConn.tlsHandshaked s1 with
               | chanClosed => TsRead
               | _ => TsRecv
               end
           | TsRead => TsDone (ServerConn.tlsState s1)
           | TsDone v => TsDone v
           end.
Proof.
  intros Hok. pose proof (withServerConn_lookup s1 d) as Hl.
  destruct apc as [| |v]; unfold stepAccess; unfold_prims; simpl in *; rewrite ?Hl; simpl.
  - destruct (ServerConn.tlsHandshaked s1) eqn:Hch;
      eexists; (split; [reflexivity|]); simpl; auto.
  - eexists. split; [reflexivity|]. simpl. auto.
  - eexists. split; [reflexivity|]. simpl. auto.
Qed.

Abbreviation inv := (handshakeInv w k sc hello s cfg answer cert).

Lemma handshakeInv_start n : inv (handshakeThreads k hello sc n) w.
Proof.
  exists GcHandshake, s, [], (replicate n TsRecv).
  split; [symmetry; apply withServerConn_start|].
  split; [constructor|].
  split.
  - unfold handshakeThreads. f_equal. induction n; simpl; congruence.
  - apply Forall_replicate. exact I.
Qed.

Lemma handshakeInv_step i ths w1 :
  inv ths w1 ->
  exists ths' w2,
    stepAt (stepH proxy klw hs ca) i ths w1 = Ret ths' w2 /\ inv ths' w2.
Proof.
  intros (pc & s1 & d & accs & -> & Hat & -> & Hacc).
  destruct i as [|j].
  - destruct (stepCert_at pc s1 d Hat) as (pc' & s2 & d' & Hrun & Hat' & Hsame).
    eexists _, _. split.
    { eapply stepAt_Ret; [reflexivity | apply stepH_cert, Hrun]. }
    exists pc', s2, d', accs. repeat split; auto.
    eapply Forall_impl; [exact Hacc|]. intros apc Hok.
    eapply accessOk_later; eauto.
  - destruct (accs !! j) as [apc|] eqn:Hj.
    + destruct (stepAccess_at apc s1 d) as (apc' & Hrun & Hok' & _).
      { eapply Forall_lookup_1; eauto. }
      eexists _, _. split.
      { eapply stepAt_Ret; [|apply stepH_access, Hrun].
        simpl. rewrite list_lookup_fmap, Hj. reflexivity. }
      exists pc, s1, d, (<[j := apc']> accs).
      split; [reflexivity|]. split; [exact Hat|].
      split; [simpl; rewrite list_fmap_insert; reflexivity|].
      apply Forall_insert; assumption.
    + eexists _, _. split.
      { apply stepAt_absent. simpl. rewrite list_lookup_fmap, Hj. reflexivity. }
      exists pc, s1, d, accs. auto.
Qed.

Lemma handshakeInv_run sched : forall ths w1,
  inv ths w1 ->
  exists ths' w2,
    runSchedule (stepH proxy klw hs ca) sched ths w1 = Ret ths' w2 /\ inv ths' w2.
Proof.
  induction sched as [|i sched IH]; intros ths w1 Hinv; simpl.
  - eexists _, _. split; [reflexivity | exact Hinv].
  - destruct (handshakeInv_step i ths w1 Hinv) as (ths1 & w2 & Hstep & Hinv1).
    unfold bind. rewrite Hstep. apply IH, Hinv1.
Qed.

Lemma certAt_events pc s1 d :
  at_pc pc s1 d -> count isHandshake d <= 1 /\ count isSignal d <= 1.
Proof.
  intros Hat. destruct Hat; rewrite ?count_cons; simpl; split; auto.
Qed.

Lemma certAt_closed pc s1 d :
  ServerConn.tlsState s = None ->
  at_pc pc s1 d ->
  ServerConn.tlsHandshaked s1 = chanClosed ->
  ServerConn.tlsState s1 = cachedState answer.
Proof.
  intros Hnone Hat. destruct Hat; simpl; intros Hcl;
    try (rewrite Hopen in Hcl; discriminate);
    match goal with H : answer = _ |- _ => rewrite H end; simpl; auto.
Qed.

Local Arguments withServerConn : simpl never.

(** Once the channel is closed, a reader scheduled twice has returned. *)
Lemma reader_returns pc s1 d accs j apc :
  Forall (accessOk s1) accs ->
  accs !! j = Some apc ->
  ServerConn.tlsHandshaked s1 = chanClosed ->
  runSchedule (stepH proxy klw hs ca) [S j; S j]
    (CertThread k hello pc :: map (AccessThread sc) accs) (withServerConn w sc s1 d)
  = Ret (CertThread k hello pc
           :: map (AccessThread sc) (<[j := TsDone (ServerConn.tlsState s1)]> accs))
        (withServerConn w sc s1 d).
Proof.
  intros Hacc Hj Hcl.
  assert (Hok : accessOk s1 apc) by (eapply Forall_lookup_1; eauto).
  destruct (stepAccess_at apc s1 d Hok) as (apc1 & Hrun1 & Hok1 & Heq1).
  destruct (stepAccess_at apc1 s1 d Hok1) as (apc2 & Hrun2 & Hok2 & Heq2).
  assert (Hfinal : apc2 = TsDone (ServerConn.tlsState s1)).
  { subst apc2 apc1. rewrite Hcl. destruct apc as [| |v]; simpl in *; auto.
    destruct Hok as [_ ->]. reflexivity. }
  cbn [runSchedule].
  erewrite bind_Ret; cycle 1.
  { eapply stepAt_Ret; [|apply stepH_access, Hrun1].
    simpl. rewrite list_lookup_fmap, Hj. reflexivity. }
  erewrite bind_Ret; cycle 1.
  { eapply stepAt_Ret; [|apply stepH_access, Hrun2].
    simpl. apply list_lookup_insert_eq. rewrite length_fmap.
    eapply lookup_lt_Some, Hj. }
  simpl. rewrite list_insert_insert_eq, list_fmap_insert, Hfinal. reflexivity.
Qed.

End Handshake.

(** [TlsState] itself, in a store where the ServerConn stands at [s1]. *)
Lemma TlsState_run w c s1 :
  sconns w !! c = Some s1 ->
  TlsState c w =
  match ServerConn.tlsHandshaked s1 with
  | chanClosed => Ret (ServerConn.tlsState s1) w
  | _ => Block w
  end.
Proof.
  intros Hs. unfold TlsState. unfold_prims. use_eqs.
  destruct (ServerConn.tlsHandshaked s1); simpl; try reflexivity.
  rewrite Hs. reflexivity.
Qed.

Lemma signalled_withServerConn w sc s s1 d :
  sconns w !! sc = Some s ->
  signalled (withServerConn w sc s1 d) sc <-> ServerConn.tlsHandshaked s1 = chanClosed.
Proof.
  intros Hs. unfold signalled. simpl. rewrite (lookup_insert_same _ _ _ _ Hs).
  split.
  - intros (s' & [= <-] & Hcl). exact Hcl.
  - intros Hcl. eauto.
Qed.

(** C7: one handshake and any number of [TlsState] callers, under any
    schedule.  The run neither panics nor needs more than one handshake and
    one signal.  A caller that has returned has done so after the signal
    and holds the state the handshake left: the connection state on success,
    nil on failure.  While the signal has not fired no caller is past its
    receive and [TlsState] does not return.  Once it has fired, [TlsState]
    returns the cached state and leaves the store as it is, and every
    caller, scheduled twice, has returned that state. *)
Theorem TlsState_waits_for_the_handshake
  proxy klw hs ca w k sc ctx s hello n sched :
  interceptor proxy = middle ->
  ctxs w !! k = Some ctx ->
  ConnContext.ServerConn ctx = Some sc ->
  sconns w !! sc = Some s ->
  ServerConn.tlsHandshaked s = chanOpen ->
  ServerConn.tlsState s = None ->
  let cached :=
    cachedState (hs (ServerConn.Conn s) (upstreamConfig proxy klw hello) (trace w)) in
  exists ths' w' d,
    runSchedule (stepH proxy klw hs ca) sched (handshakeThreads k hello sc n) w
    = Ret ths' w' /\
    trace w' = trace w ++ d /\
    count isHandshake d <= 1 /\
    count isSignal d <= 1 /\
    (forall i v, ths' !! i = Some (AccessThread sc (TsDone v)) ->
                 signalled w' sc /\ v = cached) /\
    (~ signalled w' sc ->
     TlsState sc w' = Block w' /\
     forall i c pc, ths' !! i = Some (AccessThread c pc) -> pc = TsRecv) /\
    (signalled w' sc ->
     TlsState sc w' = Ret cached w' /\
     forall i c pc, ths' !! i = Some (AccessThread c pc) ->
       exists ths'',
         runSchedule (stepH proxy klw hs ca) [i; i] ths' w' = Ret ths'' w' /\
         ths'' !! i = Some (AccessThread sc (TsDone cached))).
Proof.
  intros Hmid Hctx Hsc Hs Hopen Hnone cached.
  destruct (handshakeInv_run proxy klw hs ca w k sc ctx s hello Hmid Hctx Hsc Hs Hopen
              _ eq_refl sched _ _
              (handshakeInv_start proxy klw hs ca w k sc ctx s hello Hctx Hs _ eq_refl n))
    as (ths' & w' & Hrun & (pc & s1 & d & accs & -> & Hat & -> & Hacc)).
  pose proof (certAt_events _ _ _ _ _ _ _ _ _ _ _ Hat) as [Hh Hsig].
  pose proof (certAt_closed _ _ _ _ _ _ _ Hopen _ _ _ _ Hnone Hat) as Hcached.
  pose proof (signalled_withServerConn w sc s s1 d Hs) as Hsg.
  assert (Hl : sconns (withServerConn w sc s1 d) !! sc = Some s1)
    by (simpl; eapply lookup_insert_same, Hs).
  exists (CertThread k hello pc :: map (AccessThread sc) accs), (withServerConn w sc s1 d), d.
  split; [exact Hrun|]. split; [reflexivity|]. split; [exact Hh|]. split; [exact Hsig|].
  split; [|split].
  - intros [|j] v; simpl; [discriminate|].
    rewrite list_lookup_fmap. destruct (accs !! j) as [apc|] eqn:Hj; simpl; [|discriminate].
    intros [= ->].
    destruct (Forall_lookup_1 _ _ _ _ Hacc Hj) as [Hcl ->].
    split; [apply Hsg, Hcl | apply Hcached, Hcl].
  - intros Hno. split.
    + rewrite (TlsState_run _ _ _ Hl).
      destruct (ServerConn.tlsHandshaked s1) eqn:Hch; try reflexivity.
      exfalso. apply Hno, Hsg. reflexivity.
    + intros [|j] c apc; simpl; [discriminate|].
      rewrite list_lookup_fmap. destruct (accs !! j) as [apc'|] eqn:Hj; simpl; [|discriminate].
      intros [= <- <-].
      pose proof (Forall_lookup_1 _ _ _ _ Hacc Hj) as Hok.
      destruct apc' as [| |v]; simpl in Hok; [reflexivity| |].
      * exfalso. apply Hno, Hsg, Hok.
      * exfalso. apply Hno, Hsg, Hok.
  - intros Hyes. apply Hsg in Hyes. split.
    + rewrite (TlsState_run _ _ _ Hl), Hyes. rewrite (Hcached Hyes). reflexivity.
    + intros [|j] c apc; simpl; [discriminate|].
      rewrite list_lookup_fmap. destruct (accs !! j) as [apc'|] eqn:Hj; simpl; [|discriminate].
      intros [= <- <-].
      eexists. split.
      * eapply reader_returns; eauto.
      * simpl. rewrite list_lookup_fmap.
        rewrite (lookup_insert_same _ _ _ _ Hj). simpl.
        rewrite (Hcached Hyes). reflexivity.
Qed.

Lemma TlsState_waits_for_the_handshake_witness :
  exists ths' w' d,
    runSchedule (stepH sampleProxy None handshakeSucceeds sampleCA)
      [1; 0; 2; 0; 0; 1; 0; 1; 1; 2] (handshakeThreads 0 sampleHello 0 2) tlsSession
    = Ret ths' w' /\
    trace w' = trace tlsSession ++ d /\
    count isHandshake d <= 1 /\
    count isSignal d <= 1 /\
    (forall i v, ths' !! i = Some (AccessThread 0 (TsDone v)) ->
                 signalled w' 0 /\ v = Some sampleState) /\
    (~ signalled w' 0 ->
     TlsState 0 w' = Block w' /\
     forall i c pc, ths' !! i = Some (AccessThread c pc) -> pc = TsRecv) /\
    (signalled w' 0 ->
     TlsState 0 w' = Ret (Some sampleState) w' /\
     forall i c pc, ths' !! i = Some (AccessThread c pc) ->
       exists ths'',
         runSchedule (stepH sampleProxy None handshakeSucceeds sampleCA) [i; i] ths' w'
         = Ret ths'' w' /\
         ths'' !! i = Some (AccessThread 0 (TsDone (Some sampleState)))).
Proof.
  exact (TlsState_waits_for_the_handshake sampleProxy None handshakeSucceeds sampleCA
           tlsSession 0 0 _ sampleServerConn sampleHello 2 [1; 0; 2; 0; 0; 1; 0; 1; 1; 2]
           eq_refl eq_refl eq_refl eq_refl eq_refl eq_refl).
Defined.

(** A sample run: the first reader has returned the state of the
    handshake, the second is past its receive. *)
Example handshake_run_sample :
  exists w',
    runSchedule (stepH sampleProxy None handshakeSucceeds sampleCA)
      [1; 0; 2; 0; 0; 1; 0; 1; 1; 2] (handshakeThreads 0 sampleHello 0 2) tlsSession
    = Ret [CertThread 0 sampleHello GcGetCert;
           AccessThread 0 (TsDone (Some sampleState));
           AccessThread 0 TsRead] w' /\
    trace w' = [EvHandshake (tcpConn 7) (upstreamConfig sampleProxy None sampleHello);
                EvSignal 0].
Proof. eexists. split; reflexivity. Qed.

(** ** Interleaved executions: concurrent [Close] calls *)

Lemma load_insert wt c (ths : list (list frame)) i t t' :
  ths !! i = Some t ->
  load wt c (<[i := t']> ths) + stackLoad wt c t
  = load wt c ths + stackLoad wt c t'.
Proof.
  revert i. induction ths as [|t0 ths IH]; intros [|i] Hi; simpl in *; try discriminate.
  - injection Hi as ->. unfold load. simpl. lia.
  - specialize (IH i Hi). unfold load in *. simpl. lia.
Qed.

Lemma stackLoad_cons wt c f t :
  stackLoad wt c (f :: t) = frameWeight wt c f + stackLoad wt c t.
Proof. reflexivity. Qed.

Lemma stackLoad_zero wt c t :
  Forall (fun f => wt (f_pc f) = 0) t -> stackLoad wt c t = 0.
Proof.
  induction 1 as [|f t Hf Ht IH]; [reflexivity|].
  rewrite stackLoad_cons, IH. unfold frameWeight. rewrite Hf.
  destruct (bool_decide (f_self f = c)); reflexivity.
Qed.

Lemma load_zero wt c ths :
  Forall (fun t => Forall (fun f => wt (f_pc f) = 0) t) ths -> load wt c ths = 0.
Proof.
  induction 1 as [|t ths Ht Hths IH]; [reflexivity|].
  unfold load in *. simpl. rewrite IH, (stackLoad_zero _ _ _ Ht). reflexivity.
Qed.

Lemma stackLoad_le wt wt1 wt2 c t :
  (forall pc, wt pc <= wt1 pc + wt2 pc) ->
  stackLoad wt c t <= stackLoad wt1 c t + stackLoad wt2 c t.
Proof.
  intros Hle. induction t as [|f t IH]; [reflexivity|].
  rewrite !stackLoad_cons. unfold frameWeight.
  destruct (bool_decide (f_self f = c)); [specialize (Hle (f_pc f))|]; lia.
Qed.

Lemma load_le wt wt1 wt2 c ths :
  (forall pc, wt pc <= wt1 pc + wt2 pc) ->
  load wt c ths <= load wt1 c ths + load wt2 c ths.
Proof.
  intros Hle. induction ths as [|t ths IH]; [reflexivity|].
  unfold load in *. simpl. pose proof (stackLoad_le wt wt1 wt2 c t Hle). lia.
Qed.

Lemma othersNotAtMark_all i ths t :
  othersNotAtMark i ths = true ->
  ths !! i = Some t -> atMark t = false ->
  Forall (fun t => atMark t = false) ths.
Proof.
  revert i. induction ths as [|t0 ths IH]; intros [|i] Hothers Hi Ht;
    simpl in *; try discriminate.
  - injection Hi as ->. constructor; [exact Ht|].
    apply Forall_forall. intros t1 Hin.
    rewrite forallb_forall in Hothers.
    specialize (Hothers t1 (proj1 (list_elem_of_In _ _) Hin)).
    destruct (atMark t1); [discriminate | reflexivity].
  - apply andb_prop in Hothers as [H0 Hrest].
    constructor; [destruct (atMark t0); [discriminate | reflexivity]|].
    eapply IH; eauto.
Qed.

(** With every caller at [AtReturn] and no goroutine at [AtMark], no call
    stands between the test and the update of a flag. *)
Lemma load_markW_zero c ths :
  Forall (fun t => Forall (fun f => f_pc f = AtReturn) (tail t)) ths ->
  Forall (fun t => atMark t = false) ths ->
  load markW c ths = 0.
Proof.
  intros Hcallers Htops. apply load_zero.
  apply Forall_forall. intros t Hin.
  rewrite Forall_forall in Hcallers, Htops.
  specialize (Hcallers t Hin). specialize (Htops t Hin).
  destruct t as [|f rest]; constructor.
  - simpl in Htops. destruct (f_pc f); try reflexivity.
    rewrite bool_decide_eq_true_2 in Htops by reflexivity. discriminate.
  - simpl in Hcallers. eapply Forall_impl; [exact Hcallers|].
    simpl. intros f0 ->. reflexivity.
Qed.

Lemma stackLoad_le_load wt c (ths : list (list frame)) i t :
  ths !! i = Some t -> stackLoad wt c t <= load wt c ths.
Proof.
  revert i. induction ths as [|t0 ths IH]; intros [|i] Hi; simpl in *; try discriminate.
  - injection Hi as ->. unfold load. simpl. lia.
  - specialize (IH i Hi). unfold load in *. simpl. lia.
Qed.

Lemma count_nil {A} (f : A -> bool) : count f [] = 0.
Proof. reflexivity. Qed.

Lemma wrapper_not_tcp c h : isWrapper c = true -> tcpConn h <> c.
Proof. intros Hw <-. discriminate. Qed.

Ltac subst_conns :=
  repeat match goal with
         | H : ?a = ?b |- _ =>
             lazymatch type of a with
             | netConn => first [subst a | subst b]
             end
         end.

Lemma closeStep_callers rounds w t w' t' es :
  closeStep rounds w t w' t' es ->
  Forall (fun f => f_pc f = AtReturn) (tail t) ->
  Forall (fun f => f_pc f = AtReturn) (tail t').
Proof.
  intros Hstep. destruct Hstep; simpl; intros Hrest; auto;
    try (destruct rest; simpl; [constructor | inversion Hrest; assumption]).
Qed.

Section Preserve.
Variables (rounds : nat) (ths : list (list frame)) (w : World) (d : list event).
Variables (i : nat) (t : list frame).
Hypothesis Hinv : closeInv rounds ths w d.
Hypothesis Hi : ths !! i = Some t.
Hypothesis Hothers : othersNotAtMark i ths = true.

Lemma load_step wt c0 t' :
  load wt c0 (<[i := t']> ths) + stackLoad wt c0 t = load wt c0 ths + stackLoad wt c0 t'.
Proof. apply load_insert, Hi. Qed.

Lemma closeStep_open w' t' es c0 :
  closeStep rounds w t w' t' es ->
  isWrapper c0 = true -> isOpenIn w' c0 ->
  load pastW c0 (<[i := t']> ths) = 0 /\
  count (isCloseBy c0) (d ++ es) = 0 /\ count (isNotifyBy c0) (d ++ es) = 0.
Proof.
  intros Hstep Hw Hopen'.
  pose proof (load_step pastW c0 t') as Hp.
  pose proof (stackLoad_le_load pastW c0 ths i t Hi) as Hle.
  rewrite !count_app.
  destruct Hstep;
    try (assert (Hopen : isOpenIn w c0) by auto);
    destruct (ci_open _ _ _ _ Hinv c0 Hw Hopen) as (Hp0 & Hc0 & Hn0);
    rewrite ?stackLoad_cons in *; unfold frameWeight in *; simpl in *;
    rewrite ?count_cons, ?count_nil; simpl;
    repeat case_bool_decide; subst_conns; try contradiction; try discriminate;
    try lia.
  rewrite (H2 c0), (H3 c0) by congruence. lia.
Qed.

Lemma check_open_idle c rest :
  t = mkFrame c AtCheck :: rest ->
  isWrapper c = true -> isOpenIn w c ->
  load closeW c ths = 0 /\ load notifyW c ths = 0 /\
  count (isCloseBy c) d = 0 /\ count (isNotifyBy c) d = 0.
Proof.
  intros Ht Hw Hopen.
  destruct (ci_open _ _ _ _ Hinv c Hw Hopen) as (Hp0 & Hc0 & Hn0).
  assert (Hm : load markW c ths = 0).
  { apply load_markW_zero; [apply (ci_callers _ _ _ _ Hinv)|].
    eapply othersNotAtMark_all; eauto. subst t. reflexivity. }
  assert (Hc : load closeW c ths <= load markW c ths + load pastW c ths)
    by (apply load_le; intros []; simpl; lia).
  assert (Hn : load notifyW c ths <= load markW c ths + load pastW c ths)
    by (apply load_le; intros []; simpl; lia).
  repeat split; lia.
Qed.

Lemma closeStep_close w' t' es c0 :
  closeStep rounds w t w' t' es ->
  isWrapper c0 = true ->
  load closeW c0 (<[i := t']> ths) + count (isCloseBy c0) (d ++ es) <= 1.
Proof.
  intros Hstep Hw.
  pose proof (load_step closeW c0 t') as Hp.
  pose proof (ci_close _ _ _ _ Hinv c0 Hw) as Hold.
  rewrite !count_app.
  pose proof check_open_idle as Hidle.
  destruct Hstep;
    try (match goal with
         | Ho : isOpenIn w ?c |- _ =>
             destruct (Hidle c _ eq_refl ltac:(assumption) Ho)
               as (Hz1 & Hz2 & Hz3 & Hz4)
         end);
    rewrite ?stackLoad_cons in *; unfold frameWeight in *; simpl in *;
    rewrite ?count_cons, ?count_nil; simpl;
    repeat case_bool_decide; subst_conns; try contradiction; try discriminate;
    try lia.
  all: rewrite (H2 c0); lia.
Qed.

Lemma closeStep_notify w' t' es c0 :
  closeStep rounds w t w' t' es ->
  isWrapper c0 = true ->
  load notifyW c0 (<[i := t']> ths) * rounds + count (isNotifyBy c0) (d ++ es)
  <= rounds.
Proof.
  intros Hstep Hw.
  pose proof (load_step notifyW c0 t') as Hp.
  pose proof (ci_notify _ _ _ _ Hinv c0 Hw) as Hold.
  rewrite !count_app.
  pose proof check_open_idle as Hidle.
  destruct Hstep;
    try (match goal with
         | Ho : isOpenIn w ?c |- _ =>
             destruct (Hidle c _ eq_refl ltac:(assumption) Ho)
               as (Hz1 & Hz2 & Hz3 & Hz4)
         end);
    rewrite ?stackLoad_cons in *; unfold frameWeight in *; simpl in *;
    rewrite ?count_cons, ?count_nil; simpl;
    repeat case_bool_decide; subst_conns; try contradiction; try discriminate;
    try nia.
  all: try (rewrite (H3 c0) by congruence; nia).
Qed.

End Preserve.

(** The invariant survives a step of goroutine [i] when no other goroutine
    stands between the test and the update of a flag. *)
Lemma closeStep_preserves rounds ths w d i t w' t' es :
  closeInv rounds ths w d ->
  ths !! i = Some t ->
  othersNotAtMark i ths = true ->
  closeStep rounds w t w' t' es ->
  closeInv rounds (<[i := t']> ths) w' (d ++ es).
Proof.
  intros Hinv Hi Hothers Hstep. constructor.
  - apply Forall_insert; [apply (ci_callers _ _ _ _ Hinv)|].
    eapply closeStep_callers; [exact Hstep|].
    eapply (Forall_lookup_1 _ _ _ _ (ci_callers _ _ _ _ Hinv) Hi).
  - intros c0 Hw Hopen. eapply closeStep_open; eauto.
  - intros c0 Hw. eapply closeStep_close; eauto.
  - intros c0 Hw. eapply closeStep_notify; eauto.
Qed.

(** ** The statements of [Close] as steps *)

Section StepRuns.
Variable proxy : Proxy.
Variable cl : nat -> list event -> error.

Lemma world_eta w :
  mkWorld (ctxs w) (sconns w) (cwraps w) (swraps w) (nextId w) (trace w ++ []) = w.
Proof. rewrite app_nil_r. destruct w; reflexivity. Qed.

Lemma clientMarkClosed_run w p x :
  cwraps w !! p = Some x ->
  clientMarkClosed p w =
  Ret tt (mkWorld (ctxs w) (sconns w) (<[p := markClientClosed x]> (cwraps w))
            (swraps w) (nextId w) (trace w)).
Proof. intros Hx. unfold clientMarkClosed. unfold_prims. use_eqs. reflexivity. Qed.

Lemma serverMarkClosed_run w p x :
  swraps w !! p = Some x ->
  serverMarkClosed p w =
  Ret tt (mkWorld (ctxs w) (sconns w) (cwraps w)
            (<[p := markServerClosed x]> (swraps w)) (nextId w) (trace w)).
Proof. intros Hx. unfold serverMarkClosed. unfold_prims. use_eqs. reflexivity. Qed.

Lemma clientRealClose_run w p x :
  cwraps w !! p = Some x ->
  clientRealClose cl p w =
  Ret tt (mkWorld (ctxs w) (sconns w)
            (<[p := setClientCloseErr (cl (wrapClientConn.Conn x) (trace w)) x]>
               (cwraps w))
            (swraps w) (nextId w)
            (trace w ++ [EvNetClose (clientWrapper p) (wrapClientConn.Conn x)])).
Proof. intros Hx. unfold clientRealClose. unfold_prims. use_eqs. reflexivity. Qed.

Lemma serverRealClose_run w p x :
  swraps w !! p = Some x ->
  serverRealClose cl p w =
  Ret tt (mkWorld (ctxs w) (sconns w) (cwraps w)
            (<[p := setServerCloseErr (cl (wrapServerConn.Conn x) (trace w)) x]>
               (swraps w))
            (nextId w)
            (trace w ++ [EvNetClose (serverWrapper p) (wrapServerConn.Conn x)])).
Proof. intros Hx. unfold serverRealClose. unfold_prims. use_eqs. reflexivity. Qed.

(** The loop over the addons either tells every addon or panics before the
    first. *)
Lemma clientNotify_cases w p :
  (exists k,
      clientNotify proxy p w =
      Ret tt (mkWorld (ctxs w) (sconns w) (cwraps w) (swraps w) (nextId w)
                (trace w ++ map (fun addon => EvClientDisconnected p addon k)
                              (Addons proxy)))) \/
  clientNotify proxy p w = Panic w.
Proof.
  destruct (Addons proxy) as [|a l] eqn:Hl.
  - left. exists 0. unfold clientNotify. rewrite Hl. simpl.
    rewrite world_eta. reflexivity.
  - destruct (cwraps w !! p) as [x|] eqn:Hx.
    + destruct (wrapClientConn.connCtx x) as [k|] eqn:Hk.
      * destruct (ctxs w !! k) as [ctx|] eqn:Hctx.
        -- left. exists k. rewrite <- Hl. eapply clientNotify_run; eauto.
        -- right. unfold clientNotify. rewrite Hl. simpl. unfold_prims. use_eqs.
           reflexivity.
      * right. unfold clientNotify. rewrite Hl. simpl. unfold_prims. use_eqs.
        reflexivity.
    + right. unfold clientNotify. rewrite Hl. simpl. unfold_prims. use_eqs.
      reflexivity.
Qed.

Lemma serverNotify_cases w p :
  (exists k,
      serverNotify proxy p w =
      Ret tt (mkWorld (ctxs w) (sconns w) (cwraps w) (swraps w) (nextId w)
                (trace w ++ map (fun addon => EvServerDisconnected p addon k)
                              (Addons proxy)))) \/
  serverNotify proxy p w = Panic w.
Proof.
  destruct (swraps w !! p) as [x|] eqn:Hx.
  - left. exists (wrapServerConn.connCtx x). eapply serverNotify_run; eauto.
  - destruct (Addons proxy) as [|a l] eqn:Hl.
    + left. exists None. unfold serverNotify. rewrite Hl. simpl.
      rewrite world_eta. reflexivity.
    + right. unfold serverNotify. rewrite Hl. simpl. unfold_prims. use_eqs.
      reflexivity.
Qed.

Lemma clientPaired_cases w p :
  (exists o, clientPaired p w = Ret o w) \/ clientPaired p w = Panic w.
Proof.
  unfold clientPaired. unfold_prims. simpl.
  destruct (cwraps w !! p) as [x|]; simpl; [|auto].
  destruct (wrapClientConn.connCtx x) as [k|]; simpl; [|auto].
  destruct (ctxs w !! k) as [ctx|]; simpl; [|auto].
  destruct (ConnContext.ServerConn ctx) as [sc|]; simpl; [|eauto].
  destruct (sconns w !! sc) as [s|]; simpl; [|auto].
  destruct (ServerConn.Conn s); simpl; eauto.
Qed.

Lemma serverPaired_cases w p :
  (exists c, serverPaired p w = Ret c w) \/ serverPaired p w = Panic w.
Proof.
  unfold serverPaired. unfold_prims. simpl.
  destruct (swraps w !! p) as [x|]; simpl; [|auto].
  destruct (wrapServerConn.connCtx x) as [k|]; simpl; [|auto].
  destruct (ctxs w !! k) as [ctx|]; simpl; eauto.
Qed.

End StepRuns.

Lemma isOpenIn_same_wraps w w' c :
  cwraps w' = cwraps w -> swraps w' = swraps w -> isOpenIn w' c -> isOpenIn w c.
Proof. intros Hc Hs. destruct c; simpl; rewrite ?Hc, ?Hs; auto. Qed.

Lemma isOpenIn_client_update w w' p x y c :
  cwraps w !! p = Some x ->
  cwraps w' = <[p := y]> (cwraps w) -> swraps w' = swraps w ->
  (wrapClientConn.closed y = false -> wrapClientConn.closed x = false) ->
  isOpenIn w' c -> isOpenIn w c.
Proof.
  intros Hx Hc Hs Hflag. destruct c as [| |q|q]; simpl; rewrite ?Hc, ?Hs; auto.
  destruct (decide (p = q)) as [->|Hne].
  - rewrite (lookup_insert_same _ _ _ _ Hx). intros (z & [= <-] & Hz). eauto.
  - rewrite list_lookup_insert_ne by exact Hne. auto.
Qed.

Lemma isOpenIn_server_update w w' p x y c :
  swraps w !! p = Some x ->
  cwraps w' = cwraps w -> swraps w' = <[p := y]> (swraps w) ->
  (wrapServerConn.closed y = false -> wrapServerConn.closed x = false) ->
  isOpenIn w' c -> isOpenIn w c.
Proof.
  intros Hx Hc Hs Hflag. destruct c as [| |q|q]; simpl; rewrite ?Hc, ?Hs; auto.
  destruct (decide (p = q)) as [->|Hne].
  - rewrite (lookup_insert_same _ _ _ _ Hx). intros (z & [= <-] & Hz). eauto.
  - rewrite list_lookup_insert_ne by exact Hne. auto.
Qed.

Lemma count_client_round p k (l : list nat) c :
  count (isNotifyBy c) (map (fun addon => EvClientDisconnected p addon k) l)
  = (if bool_decide (clientWrapper p = c) then length l else 0) /\
  count (isCloseBy c) (map (fun addon => EvClientDisconnected p addon k) l) = 0.
Proof.
  induction l as [|a l [IH1 IH2]]; simpl.
  - split; [destruct (bool_decide _)|]; reflexivity.
  - rewrite !count_cons, IH1, IH2. simpl. split; [|reflexivity].
    destruct (bool_decide (clientWrapper p = c)); reflexivity.
Qed.

Lemma count_server_round p k (l : list nat) c :
  count (isNotifyBy c) (map (fun addon => EvServerDisconnected p addon k) l)
  = (if bool_decide (serverWrapper p = c) then length l else 0) /\
  count (isCloseBy c) (map (fun addon => EvServerDisconnected p addon k) l) = 0.
Proof.
  induction l as [|a l [IH1 IH2]]; simpl.
  - split; [destruct (bool_decide _)|]; reflexivity.
  - rewrite !count_cons, IH1, IH2. simpl. split; [|reflexivity].
    destruct (bool_decide (serverWrapper p = c)); reflexivity.
Qed.

Lemma cs_notify_round rounds w w' c rest es :
  isWrapper c = true ->
  (forall c', isOpenIn w' c' -> isOpenIn w c') ->
  (forall c', count (isNotifyBy c') es = if bool_decide (c = c') then rounds else 0) ->
  (forall c', count (isCloseBy c') es = 0) ->
  closeStep rounds w (mkFrame c AtNotify :: rest) w' (mkFrame c AtCascade :: rest) es.
Proof.
  intros Hw Hopen Hn Hc. apply cs_notify; auto.
  - rewrite Hn, bool_decide_eq_true_2; reflexivity.
  - intros c' Hne. rewrite Hn, bool_decide_eq_false_2; [reflexivity|congruence].
Qed.

(** Every step of the machine is a step of [closeStep]; a step that panics
    has changed nothing. *)
Lemma stepStack_closeStep proxy cl t w :
  match stepStack proxy cl t w with
  | Ret t' w' =>
      exists es, trace w' = trace w ++ es /\
                 closeStep (length (Addons proxy)) w t w' t' es
  | Panic w' => w' = w
  | Block _ => False
  | OutOfFuel => False
  end.
Proof.
  destruct t as [|[c pc] rest]; simpl.
  { exists []. rewrite app_nil_r. split; [reflexivity | constructor]. }
  unfold bind at 1. unfold stepFrame. simpl f_self. simpl f_pc.
  destruct c as [|h|p|p].
  - reflexivity.
  - unfold netClose. unfold_prims. simpl.
    eexists. split; [reflexivity|]. apply cs_tcp.
    intros c'. apply isOpenIn_same_wraps; reflexivity.
  - destruct (cwraps w !! p) as [x|] eqn:Hx.
    + destruct pc; simpl.
      * unfold bind. rewrite (clientClosed_run _ _ _ Hx). simpl.
        destruct (wrapClientConn.closed x) eqn:Hcl; simpl;
          exists []; rewrite app_nil_r; (split; [reflexivity|]).
        -- apply cs_check_closed.
        -- apply cs_check_open; [reflexivity | simpl; eauto].
      * unfold bind. rewrite (clientMarkClosed_run _ _ _ Hx). simpl.
        exists []. rewrite app_nil_r. split; [reflexivity|].
        apply cs_mark; [reflexivity | |].
        -- simpl. rewrite (lookup_insert_same _ _ _ _ Hx).
           intros (z & [= <-] & Hz). discriminate.
        -- intros c'. eapply isOpenIn_client_update; eauto. discriminate.
      * unfold bind. rewrite (clientRealClose_run _ _ _ _ Hx). simpl.
        eexists. split; [reflexivity|]. apply cs_real; [reflexivity|].
        intros c'. eapply isOpenIn_client_update; eauto.
      * unfold bind.
        destruct (clientNotify_cases proxy w p) as [[k ->] | ->]; [|reflexivity].
        simpl. eexists. split; [reflexivity|].
        apply cs_notify_round; [reflexivity | | |].
        -- intros c'. apply isOpenIn_same_wraps; reflexivity.
        -- intros c'. apply (count_client_round p k (Addons proxy) c').
        -- intros c'. apply (count_client_round p k (Addons proxy) c').
      * unfold bind.
        destruct (clientPaired_cases w p) as [[[conn|] ->] | ->]; simpl;
          [| |reflexivity];
          exists []; rewrite app_nil_r; (split; [reflexivity|]); constructor.
      * unfold bind. rewrite (clientCloseErr_run _ _ _ Hx). simpl.
        exists []. rewrite app_nil_r. split; [reflexivity | constructor].
    + destruct pc; simpl; unfold bind;
        try (unfold clientClosed, clientMarkClosed, clientRealClose, clientCloseErr;
             unfold_prims; simpl; rewrite Hx; reflexivity).
      * destruct (clientNotify_cases proxy w p) as [[k ->] | ->]; [|reflexivity].
        simpl. eexists. split; [reflexivity|].
        apply cs_notify_round; [reflexivity | | |].
        -- intros c'. apply isOpenIn_same_wraps; reflexivity.
        -- intros c'. apply (count_client_round p k (Addons proxy) c').
        -- intros c'. apply (count_client_round p k (Addons proxy) c').
      * destruct (clientPaired_cases w p) as [[[conn|] ->] | ->]; simpl;
          [| |reflexivity];
          exists []; rewrite app_nil_r; (split; [reflexivity|]); constructor.
  - destruct (swraps w !! p) as [x|] eqn:Hx.
    + destruct pc; simpl.
      * unfold bind. rewrite (serverClosed_run _ _ _ Hx). simpl.
        destruct (wrapServerConn.closed x) eqn:Hcl; simpl;
          exists []; rewrite app_nil_r; (split; [reflexivity|]).
        -- apply cs_check_closed.
        -- apply cs_check_open; [reflexivity | simpl; eauto].
      * unfold bind. rewrite (serverMarkClosed_run _ _ _ Hx). simpl.
        exists []. rewrite app_nil_r. split; [reflexivity|].
        apply cs_mark; [reflexivity | |].
        -- simpl. rewrite (lookup_insert_same _ _ _ _ Hx).
           intros (z & [= <-] & Hz). discriminate.
        -- intros c'. eapply isOpenIn_server_update; eauto. discriminate.
      * unfold bind. rewrite (serverRealClose_run _ _ _ _ Hx). simpl.
        eexists. split; [reflexivity|]. apply cs_real; [reflexivity|].
        intros c'. eapply isOpenIn_server_update; eauto.
      * unfold bind.
        destruct (serverNotify_cases proxy w p) as [[k ->] | ->]; [|reflexivity].
        simpl. eexists. split; [reflexivity|].
        apply cs_notify_round; [reflexivity | | |].
        -- intros c'. apply isOpenIn_same_wraps; reflexivity.
        -- intros c'. apply (count_server_round p k (Addons proxy) c').
        -- intros c'. apply (count_server_round p k (Addons proxy) c').
      * unfold bind.
        destruct (serverPaired_cases w p) as [[conn ->] | ->]; simpl; [|reflexivity].
        exists []. rewrite app_nil_r. split; [reflexivity|]. constructor.
      * unfold bind. rewrite (serverCloseErr_run _ _ _ Hx). simpl.
        exists []. rewrite app_nil_r. split; [reflexivity | constructor].
    + destruct pc; simpl; unfold bind;
        try (unfold serverClosed, serverMarkClosed, serverRealClose, serverCloseErr;
             unfold_prims; simpl; rewrite Hx; reflexivity).
      * destruct (serverNotify_cases proxy w p) as [[k ->] | ->]; [|reflexivity].
        simpl. eexists. split; [reflexivity|].
        apply cs_notify_round; [reflexivity | | |].
        -- intros c'. apply isOpenIn_same_wraps; reflexivity.
        -- intros c'. apply (count_server_round p k (Addons proxy) c').
        -- intros c'. apply (count_server_round p k (Addons proxy) c').
      * destruct (serverPaired_cases w p) as [[conn ->] | ->]; simpl; [|reflexivity].
        exists []. rewrite app_nil_r. split; [reflexivity|]. constructor.
Qed.

(** ** Concurrent [Close] calls under a schedule *)

Lemma closeInv_start rounds conns w : closeInv rounds (closeThreads conns) w [].
Proof.
  assert (Hall : forall wt, wt AtCheck = 0 ->
            Forall (fun t => Forall (fun f => wt (f_pc f) = 0) t) (closeThreads conns)).
  { intros wt Hwt. unfold closeThreads. apply Forall_map, Forall_forall.
    intros c _. constructor; [exact Hwt | constructor]. }
  constructor.
  - unfold closeThreads. apply Forall_map, Forall_forall. intros c _. constructor.
  - intros c _ _. rewrite (load_zero pastW c _ (Hall pastW eq_refl)). auto.
  - intros c _. rewrite (load_zero closeW c _ (Hall closeW eq_refl)).
    rewrite count_nil. lia.
  - intros c _. rewrite (load_zero notifyW c _ (Hall notifyW eq_refl)).
    rewrite count_nil. lia.
Qed.

Lemma closeInv_run proxy cl sched : forall ths w d,
  closeInv (length (Addons proxy)) ths w d ->
  flagAtomic (stepStack proxy cl) sched ths w = true ->
  exists w' ths' es,
    worldOf (runSchedule (stepStack proxy cl) sched ths w) = Some w' /\
    trace w' = trace w ++ es /\
    closeInv (length (Addons proxy)) ths' w' (d ++ es).
Proof.
  induction sched as [|i sched IH]; intros ths w d Hinv Hatomic.
  - exists w, ths, []. rewrite !app_nil_r. simpl. auto.
  - simpl in Hatomic. apply andb_prop in Hatomic as [Hothers Hrest].
    cbn [runSchedule]. unfold bind at 1.
    destruct (ths !! i) as [t|] eqn:Hi.
    + pose proof (stepStack_closeStep proxy cl t w) as Hstep.
      unfold stepAt in *. rewrite Hi in *. unfold bind at 1. unfold bind at 1 in Hrest.
      destruct (stepStack proxy cl t w) as [t' w1|w1| |]; try contradiction.
      * destruct Hstep as (es1 & Htr1 & Hcs). simpl in Hrest. simpl.
        destruct (IH (<[i := t']> ths) w1 (d ++ es1)) as (w' & ths' & es & Hrun & Htr & Hinv').
        { eapply closeStep_preserves; eauto. }
        { exact Hrest. }
        exists w', ths', (es1 ++ es). split; [exact Hrun|].
        split; [rewrite Htr, Htr1, app_assoc; reflexivity|].
        rewrite app_assoc. exact Hinv'.
      * subst w1. exists w, ths, []. rewrite !app_nil_r. simpl. auto.
    + unfold stepAt in *. rewrite Hi in *. simpl in Hrest. simpl.
      apply IH; assumption.
Qed.

(** C8, as the code has it: [Close] tests and sets [closed] by a plain read
    and a plain write, with no lock.  In every run in which a goroutine that
    has read a flag as false sets it before any other goroutine runs, each
    wrapper does at most one real close and tells each addon at most once,
    however the rest of the calls interleave; and every such run ends
    without running out of steps. *)
Theorem Close_at_most_once_when_flag_atomic proxy cl conns sched w :
  flagAtomic (stepStack proxy cl) sched (closeThreads conns) w = true ->
  exists w' d,
    worldOf (runSchedule (stepStack proxy cl) sched (closeThreads conns) w) = Some w' /\
    trace w' = trace w ++ d /\
    forall c, isWrapper c = true ->
      count (isCloseBy c) d <= 1 /\
      count (isNotifyBy c) d <= length (Addons proxy).
Proof.
  intros Hatomic.
  destruct (closeInv_run proxy cl sched _ w [] (closeInv_start _ conns w) Hatomic)
    as (w' & ths' & es & Hrun & Htr & Hinv).
  exists w', es. split; [exact Hrun|]. split; [exact Htr|].
  intros c Hw. simpl in Hinv.
  pose proof (ci_close _ _ _ _ Hinv c Hw).
  pose proof (ci_notify _ _ _ _ Hinv c Hw).
  split; lia.
Qed.

Lemma Close_at_most_once_when_flag_atomic_witness :
  flagAtomic (stepStack sampleProxy sampleClose) [0; 0; 1; 1; 0; 1; 0; 0; 0]
    (closeThreads [clientWrapper 0; clientWrapper 0]) plainSession = true /\
  exists w' d,
    worldOf (runSchedule (stepStack sampleProxy sampleClose) [0; 0; 1; 1; 0; 1; 0; 0; 0]
               (closeThreads [clientWrapper 0; clientWrapper 0]) plainSession)
    = Some w' /\
    trace w' = trace plainSession ++ d /\
    forall c, isWrapper c = true ->
      count (isCloseBy c) d <= 1 /\
      count (isNotifyBy c) d <= length (Addons sampleProxy).
Proof.
  assert (Hatomic :
            flagAtomic (stepStack sampleProxy sampleClose) [0; 0; 1; 1; 0; 1; 0; 0; 0]
              (closeThreads [clientWrapper 0; clientWrapper 0]) plainSession = true)
    by (vm_compute; reflexivity).
  split; [exact Hatomic|].
  exact (Close_at_most_once_when_flag_atomic sampleProxy sampleClose
           [clientWrapper 0; clientWrapper 0] [0; 0; 1; 1; 0; 1; 0; 0; 0] plainSession
           Hatomic).
Defined.

(** Two goroutines close the same client wrapper and both read [closed]
    before either sets it: the transport connection is closed twice and
    every addon is told twice. *)
Example Close_interleaved_run :
  runSchedule (stepStack sampleProxy sampleClose) [0; 1; 0; 1; 0; 1; 0; 1; 0; 1; 0; 1]
    (closeThreads [clientWrapper 0; clientWrapper 0]) plainSession
  = Ret [[]; []] doubleClosedSession.
Proof. vm_compute. reflexivity. Qed.

(** C8 as stated fails: without a condition on the schedule, concurrent
    [Close] calls on one wrapper are not limited to one real close and one
    notification per addon. *)
Lemma Close_concurrent_not_exclusive :
  ~ (forall sched w',
        worldOf (runSchedule (stepStack sampleProxy sampleClose) sched
                   (closeThreads [clientWrapper 0; clientWrapper 0]) plainSession)
        = Some w' ->
        exists d,
          trace w' = trace plainSession ++ d /\
          forall c, isWrapper c = true ->
            count (isCloseBy c) d <= 1 /\
            count (isNotifyBy c) d <= length (Addons sampleProxy)).
Proof.
  intros Hbound.
  assert (Hrun :
            worldOf (runSchedule (stepStack sampleProxy sampleClose)
                       [0; 1; 0; 1; 0; 1; 0; 1; 0; 1; 0; 1]
                       (closeThreads [clientWrapper 0; clientWrapper 0]) plainSession)
            = Some doubleClosedSession)
    by (vm_compute; reflexivity).
  destruct (Hbound _ _ Hrun) as (d & Htr & Hd).
  simpl in Htr. subst d.
  destruct (Hd (clientWrapper 0) eq_refl) as [Hclose _].
  vm_compute in Hclose. lia.
Qed.

(** ** A goroutine running alone performs [Conn_Close] *)

Lemma runSchedule_app {T} (step : T -> M T) s1 s2 ths w :
  runSchedule step (s1 ++ s2) ths w
  = (ths' <~ runSchedule step s1 ths ;; runSchedule step s2 ths') w.
Proof.
  revert ths w. induction s1 as [|i s1 IH]; intros ths w; simpl; [reflexivity|].
  unfold bind.
  destruct (stepAt step i ths w) as [ths1 w1| | |]; try reflexivity.
  rewrite IH. reflexivity.
Qed.

Lemma runsTo_refl step t w : runsTo step t w t w.
Proof. exists 0. reflexivity. Qed.

Lemma runsTo_step step t w t1 w1 t' w' :
  step t w = Ret t1 w1 -> runsTo step t1 w1 t' w' -> runsTo step t w t' w'.
Proof.
  intros Hstep [n Hrun]. exists (S n). simpl.
  unfold bind, stepAt. simpl. unfold bind. rewrite Hstep. simpl. exact Hrun.
Qed.

Lemma runsTo_trans step t w t1 w1 t' w' :
  runsTo step t w t1 w1 -> runsTo step t1 w1 t' w' -> runsTo step t w t' w'.
Proof.
  intros [n Hn] [m Hm]. exists (n + m).
  rewrite replicate_add, runSchedule_app. unfold bind. rewrite Hn. exact Hm.
Qed.

Lemma stepStack_goto proxy cl f rest w pc w1 :
  stepFrame proxy cl f w = Ret (Goto pc) w1 ->
  stepStack proxy cl (f :: rest) w = Ret (mkFrame (f_self f) pc :: rest) w1.
Proof. intros H. simpl. unfold bind. rewrite H. reflexivity. Qed.

Lemma stepStack_call proxy cl f rest w conn pc w1 :
  stepFrame proxy cl f w = Ret (Call conn pc) w1 ->
  stepStack proxy cl (f :: rest) w
  = Ret (mkFrame conn AtCheck :: mkFrame (f_self f) pc :: rest) w1.
Proof. intros H. simpl. unfold bind. rewrite H. reflexivity. Qed.

Lemma stepStack_return proxy cl f rest w e w1 :
  stepFrame proxy cl f w = Ret (Return e) w1 ->
  stepStack proxy cl (f :: rest) w = Ret rest w1.
Proof. intros H. simpl. unfold bind. rewrite H. reflexivity. Qed.

(** Whatever [Conn_Close] returns, the goroutine that starts the same call
    reaches the end of it in the same store, and goes on with its caller. *)
Lemma Conn_Close_as_steps proxy cl fuel :
  forall conn w e w' rest,
    Conn_Close proxy cl fuel conn w = Ret e w' ->
    runsTo (stepStack proxy cl) (mkFrame conn AtCheck :: rest) w rest w'.
Proof.
  induction fuel as [|n IH]; intros conn w e w' rest Hrun; [discriminate|].
  destruct conn as [|h|p|p]; simpl in Hrun.
  - discriminate.
  - eapply runsTo_step; [|apply runsTo_refl].
    apply (stepStack_return _ _ _ _ _ e). unfold stepFrame. simpl.
    unfold bind. rewrite Hrun. reflexivity.
  - unfold wrapClientConn_Close, bind in Hrun.
    destruct (clientClosed p w) as [closed w1| | |] eqn:E1; try discriminate.
    destruct closed;
      (eapply runsTo_step;
       [apply stepStack_goto; unfold stepFrame; simpl; unfold bind; rewrite E1;
        reflexivity|]);
      simpl f_self.
    + eapply runsTo_step; [|apply runsTo_refl].
      apply (stepStack_return _ _ _ _ _ e). unfold stepFrame. simpl.
      unfold bind. rewrite Hrun. reflexivity.
    + destruct (clientMarkClosed p w1) as [[] w2| | |] eqn:E2; try discriminate.
      destruct (clientRealClose cl p w2) as [[] w3| | |] eqn:E3; try discriminate.
      destruct (clientNotify proxy p w3) as [[] w4| | |] eqn:E4; try discriminate.
      destruct (clientPaired p w4) as [paired w5| | |] eqn:E5; try discriminate.
      eapply runsTo_step.
      { apply stepStack_goto. unfold stepFrame. simpl. unfold bind. rewrite E2.
        reflexivity. }
      eapply runsTo_step.
      { apply stepStack_goto. unfold stepFrame. simpl. unfold bind. rewrite E3.
        reflexivity. }
      eapply runsTo_step.
      { apply stepStack_goto. unfold stepFrame. simpl. unfold bind. rewrite E4.
        reflexivity. }
      simpl f_self. destruct paired as [conn|].
      * destruct (Conn_Close proxy cl n conn w5) as [e6 w6| | |] eqn:E6;
          try discriminate.
        simpl in Hrun.
        eapply runsTo_step.
        { apply stepStack_call. unfold stepFrame. simpl. unfold bind. rewrite E5.
          reflexivity. }
        eapply runsTo_trans; [eapply IH; exact E6|].
        eapply runsTo_step; [|apply runsTo_refl].
        apply (stepStack_return _ _ _ _ _ e). unfold stepFrame. simpl.
        unfold bind. rewrite Hrun. reflexivity.
      * simpl in Hrun.
        eapply runsTo_step.
        { apply stepStack_goto. unfold stepFrame. simpl. unfold bind. rewrite E5.
          reflexivity. }
        eapply runsTo_step; [|apply runsTo_refl].
        apply (stepStack_return _ _ _ _ _ e). unfold stepFrame. simpl.
        unfold bind. rewrite Hrun. reflexivity.
  - unfold wrapServerConn_Close, bind in Hrun.
    destruct (serverClosed p w) as [closed w1| | |] eqn:E1; try discriminate.
    destruct closed;
      (eapply runsTo_step;
       [apply stepStack_goto; unfold stepFrame; simpl; unfold bind; rewrite E1;
        reflexivity|]);
      simpl f_self.
    + eapply runsTo_step; [|apply runsTo_refl].
      apply (stepStack_return _ _ _ _ _ e). unfold stepFrame. simpl.
      unfold bind. rewrite Hrun. reflexivity.
    + destruct (serverMarkClosed p w1) as [[] w2| | |] eqn:E2; try discriminate.
      destruct (serverRealClose cl p w2) as [[] w3| | |] eqn:E3; try discriminate.
      destruct (serverNotify proxy p w3) as [[] w4| | |] eqn:E4; try discriminate.
      destruct (serverPaired p w4) as [paired w5| | |] eqn:E5; try discriminate.
      destruct (Conn_Close proxy cl n paired w5) as [e6 w6| | |] eqn:E6;
        try discriminate.
      eapply runsTo_step.
      { apply stepStack_goto. unfold stepFrame. simpl. unfold bind. rewrite E2.
        reflexivity. }
      eapply runsTo_step.
      { apply stepStack_goto. unfold stepFrame. simpl. unfold bind. rewrite E3.
        reflexivity. }
      eapply runsTo_step.
      { apply stepStack_goto. unfold stepFrame. simpl. unfold bind. rewrite E4.
        reflexivity. }
      eapply runsTo_step.
      { apply stepStack_call. unfold stepFrame. simpl. unfold bind. rewrite E5.
        reflexivity. }
      simpl f_self.
      eapply runsTo_trans; [eapply IH; exact E6|].
      eapply runsTo_step; [|apply runsTo_refl].
      apply (stepStack_return _ _ _ _ _ e). unfold stepFrame. simpl.
      unfold bind. rewrite Hrun. reflexivity.
Qed.

(** * Further properties *)

(** ** The version range *)

(** X1: the range that [getCertificate] derives depends only on which
    versions the client offers, not on their order or repetition, and its
    lower end is never above its upper end. *)
Theorem versionRange_order_independent (vs vs' : list Z) :
  vs <> [] ->
  (forall v, In v vs <-> In v vs') ->
  exists mn mx,
    versionRange vs = Some (mn, mx) /\
    versionRange vs' = Some (mn, mx) /\
    (mn <= mx)%Z.
Proof.
  intros Hne Hsame.
  assert (Hne' : vs' <> []).
  { destruct vs as [|v vs]; [congruence|].
    intros ->. apply (proj1 (Hsame v)). left. reflexivity. }
  destruct (versionRange_nonempty _ Hne) as (mn & mx & Hr).
  destruct (versionRange_nonempty _ Hne') as (mn' & mx' & Hr').
  destruct (versionRange_spec _ _ _ Hr) as (Hmn & Hmx & Hall).
  destruct (versionRange_spec _ _ _ Hr') as (Hmn' & Hmx' & Hall').
  rewrite Forall_forall in Hall, Hall'.
  pose proof (Hall mn' (proj2 (list_elem_of_In _ _) (proj2 (Hsame mn') Hmn'))) as H1.
  pose proof (Hall mx' (proj2 (list_elem_of_In _ _) (proj2 (Hsame mx') Hmx'))) as H2.
  pose proof (Hall' mn (proj2 (list_elem_of_In _ _) (proj1 (Hsame mn) Hmn))) as H3.
  pose proof (Hall' mx (proj2 (list_elem_of_In _ _) (proj1 (Hsame mx) Hmx))) as H4.
  assert (mn' = mn) by lia. assert (mx' = mx) by lia. subst mn' mx'.
  exists mn, mx. repeat split; auto. lia.
Qed.

Lemma versionRange_order_independent_witness :
  exists mn mx,
    versionRange [772; 769; 771]%Z = Some (mn, mx) /\
    versionRange [769; 771; 771; 772; 769]%Z = Some (mn, mx) /\
    (mn <= mx)%Z.
Proof.
  apply (versionRange_order_independent [772; 769; 771]%Z [769; 771; 771; 772; 769]%Z).
  - discriminate.
  - intros v. simpl. intuition.
Defined.

(** ** [getCertificate] outside its one intended call *)

Lemma dialTLSContextHttps_run w k ctx sc s :
  ctxs w !! k = Some ctx ->
  ConnContext.ServerConn ctx = Some sc ->
  sconns w !! sc = Some s ->
  dialTLSContextHttps k w =
  match ServerConn.tlsHandshaked s with
  | chanClosed => Ret (ServerConn.tlsConn s, ServerConn.tlsHandshakeErr s) w
  | _ => Block w
  end.
Proof.
  intros Hctx Hsc Hs. unfold dialTLSContextHttps. unfold_prims. use_eqs.
  destruct (ServerConn.tlsHandshaked s); simpl; try reflexivity.
  rewrite Hctx. simpl. rewrite Hsc. simpl. rewrite Hs. reflexivity.
Qed.

(** X2: the TLS dial of the dispatch client never handshakes.  Before
    [getCertificate] has run it does not return; after it, whatever the
    handshake answered, it returns the connection and the error cached on
    the ServerConn (the negotiated connection on success, the handshake
    error on failure) and leaves the store, trace included, as it is. *)
Theorem dialTLSContextHttps_replays_handshake
  proxy klw hs ca w k ctx sc s hello :
  interceptor proxy = middle ->
  ctxs w !! k = Some ctx ->
  ConnContext.ServerConn ctx = Some sc ->
  sconns w !! sc = Some s ->
  ServerConn.tlsHandshaked s = chanOpen ->
  dialTLSContextHttps k w = Block w /\
  exists r w1,
    getCertificate proxy klw hs ca k hello w = Ret r w1 /\
    dialTLSContextHttps k w1 =
    Ret (match hs (ServerConn.Conn s) (upstreamConfig proxy klw hello) (trace w) with
         | inl err => (ServerConn.tlsConn s, Some err)
         | inr _ =>
             (Some (mkTlsConn (ServerConn.Conn s) (upstreamConfig proxy klw hello)),
              ServerConn.tlsHandshakeErr s)
         end) w1.
Proof.
  intros Hmid Hctx Hsc Hs Hopen. split.
  - rewrite (dialTLSContextHttps_run _ _ _ _ _ Hctx Hsc Hs), Hopen. reflexivity.
  - destruct (hs (ServerConn.Conn s) (upstreamConfig proxy klw hello) (trace w))
      as [err|st] eqn:Hhs.
    + eexists _, _. split.
      * eapply getCertificate_failure_run; eauto.
      * erewrite dialTLSContextHttps_run; [| exact Hctx | exact Hsc |].
        2: { simpl. eapply lookup_insert_same, Hs. }
        reflexivity.
    + eexists _, _. split.
      * eapply getCertificate_success_run; eauto.
      * erewrite dialTLSContextHttps_run; [| exact Hctx | exact Hsc |].
        2: { simpl. eapply lookup_insert_same, Hs. }
        reflexivity.
Qed.

Lemma dialTLSContextHttps_replays_handshake_witness :
  dialTLSContextHttps 0 tlsSession = Block tlsSession /\
  exists r w1,
    getCertificate sampleProxy None handshakeFails sampleCA 0 sampleHello tlsSession
    = Ret r w1 /\
    dialTLSContextHttps 0 w1 =
    Ret (None, Some "remote error: tls: handshake failure"%string) w1.
Proof.
  exact (dialTLSContextHttps_replays_handshake sampleProxy None handshakeFails sampleCA
           tlsSession 0 _ 0 sampleServerConn sampleHello
           eq_refl eq_refl eq_refl eq_refl eq_refl).
Defined.

(** X3: [getCertificate] on a ServerConn whose channel is no longer open (a
    second call, or a ServerConn with a nil channel) still performs a
    handshake and overwrites the cached outcome, and then panics on
    [close]: no signal is sent, no certificate is asked for, and nothing is
    returned. *)
Theorem getCertificate_again_panics
  proxy klw hs ca w k ctx sc s hello :
  ctxs w !! k = Some ctx ->
  ConnContext.ServerConn ctx = Some sc ->
  sconns w !! sc = Some s ->
  ServerConn.tlsHandshaked s <> chanOpen ->
  exists w' s',
    getCertificate proxy klw hs ca k hello w = Panic w' /\
    trace w' = trace w ++ [EvHandshake (ServerConn.Conn s) (upstreamConfig proxy klw hello)] /\
    sconns w' !! sc = Some s' /\
    ServerConn.tlsHandshaked s' = ServerConn.tlsHandshaked s /\
    match hs (ServerConn.Conn s) (upstreamConfig proxy klw hello) (trace w) with
    | inl err =>
        ServerConn.tlsHandshakeErr s' = Some err /\
        ServerConn.tlsState s' = ServerConn.tlsState s
    | inr st =>
        ServerConn.tlsState s' = Some st /\
        ServerConn.tlsConn s'
        = Some (mkTlsConn (ServerConn.Conn s) (upstreamConfig proxy klw hello)) /\
        ServerConn.tlsHandshakeErr s' = ServerConn.tlsHandshakeErr s
    end.
Proof.
  intros Hctx Hsc Hs Hclosed.
  unfold getCertificate. unfold_prims. use_eqs.
  destruct (hs (ServerConn.Conn s) (upstreamConfig proxy klw hello) (trace w))
    as [err|st]; use_eqs.
  - rewrite (lookup_insert_same _ _ _ _ Hs). simpl.
    destruct (ServerConn.tlsHandshaked s) eqn:Hch; [| congruence |];
      eexists _, _; (split; [reflexivity|]); simpl;
      (split; [reflexivity|]);
      (split; [eapply lookup_insert_same, Hs|]); simpl; auto.
  - rewrite (lookup_insert_same _ _ _ _ Hs). use_eqs.
    rewrite list_insert_insert_eq.
    rewrite (lookup_insert_same _ _ _ _ Hs). simpl.
    destruct (ServerConn.tlsHandshaked s) eqn:Hch; [| congruence |];
      eexists _, _; (split; [reflexivity|]); simpl;
      (split; [reflexivity|]);
      (split; [eapply lookup_insert_same, Hs|]); simpl; auto.
Qed.

Lemma getCertificate_again_panics_witness :
  exists w' s',
    getCertificate sampleProxy None handshakeFails sampleCA 0 sampleHello handshakenSession
    = Panic w' /\
    trace w' = trace handshakenSession
               ++ [EvHandshake (tcpConn 7) (upstreamConfig sampleProxy None sampleHello)] /\
    sconns w' !! 0 = Some s' /\
    ServerConn.tlsHandshaked s' = chanClosed /\
    ServerConn.tlsHandshakeErr s' = Some "remote error: tls: handshake failure"%string /\
    ServerConn.tlsState s' = Some sampleState.
Proof.
  refine (getCertificate_again_panics sampleProxy None handshakeFails sampleCA
            handshakenSession 0 _ 0 _ sampleHello eq_refl eq_refl eq_refl _).
  discriminate.
Defined.

(** X4: when the interceptor of the proxy is not the man-in-the-middle one,
    [getCertificate] panics at the type assertion, but only after a
    successful handshake has been cached and the channel closed: the
    handshake and the signal are the only events, no certificate is asked
    for, and [TlsState] on the ServerConn returns the negotiated state from
    then on. *)
Theorem getCertificate_other_interceptor
  proxy klw hs ca w k ctx sc s hello st :
  interceptor proxy = otherInterceptor ->
  ctxs w !! k = Some ctx ->
  ConnContext.ServerConn ctx = Some sc ->
  sconns w !! sc = Some s ->
  ServerConn.tlsHandshaked s = chanOpen ->
  hs (ServerConn.Conn s) (upstreamConfig proxy klw hello) (trace w) = inr st ->
  exists w',
    getCertificate proxy klw hs ca k hello w = Panic w' /\
    trace w' = trace w ++ [EvHandshake (ServerConn.Conn s) (upstreamConfig proxy klw hello);
                           EvSignal sc] /\
    TlsState sc w' = Ret (Some st) w'.
Proof.
  intros Hother Hctx Hsc Hs Hopen Hhs.
  unfold getCertificate. unfold_prims. use_eqs.
  rewrite (lookup_insert_same _ _ _ _ Hs). use_eqs.
  rewrite list_insert_insert_eq.
  rewrite (lookup_insert_same _ _ _ _ Hs). simpl. rewrite Hopen. simpl.
  rewrite list_insert_insert_eq.
  eexists. split; [reflexivity|]. simpl.
  split; [rewrite <- app_assoc; reflexivity|].
  unfold TlsState. unfold_prims. simpl.
  rewrite (lookup_insert_same _ _ _ _ Hs). simpl.
  rewrite (lookup_insert_same _ _ _ _ Hs). reflexivity.
Qed.

Lemma getCertificate_other_interceptor_witness :
  exists w',
    getCertificate forwardingProxy None handshakeSucceeds sampleCA 0 sampleHello tlsSession
    = Panic w' /\
    trace w' = [] ++ [EvHandshake (tcpConn 7) (upstreamConfig forwardingProxy None sampleHello);
                      EvSignal 0] /\
    TlsState 0 w' = Ret (Some sampleState) w'.
Proof.
  exact (getCertificate_other_interceptor forwardingProxy None handshakeSucceeds sampleCA
           tlsSession 0 _ 0 sampleServerConn sampleHello sampleState
           eq_refl eq_refl eq_refl eq_refl eq_refl eq_refl).
Defined.

(** ** The dial closure of the plain-HTTP client *)

Lemma dialContextHttp_failure_run proxy dial w k sc network addr err :
  dial network addr (trace w) = inl err ->
  dialContextHttp proxy dial k sc network addr w =
  Ret (nilConn, Some err)
    (mkWorld (ctxs w) (sconns w) (cwraps w) (swraps w) (nextId w)
       (trace w ++ [EvDial network addr])).
Proof.
  intros Hdial. unfold dialContextHttp. unfold_prims. use_eqs. reflexivity.
Qed.

Lemma dialContextHttp_success_run proxy dial w k sc s network addr c :
  sconns w !! sc = Some s ->
  dial network addr (trace w) = inr c ->
  dialContextHttp proxy dial k sc network addr w =
  Ret (serverWrapper (length (swraps w)), None)
    (mkWorld (ctxs w)
       (<[sc := setAddress addr (setConn (serverWrapper (length (swraps w))) s)]> (sconns w))
       (cwraps w)
       (swraps w ++ [wrapServerConn.mk c (Some k) false None])
       (nextId w)
       (trace w ++ EvDial network addr
          :: map (fun addon => EvServerConnected addon k) (Addons proxy))).
Proof.
  intros Hs Hdial. unfold dialContextHttp. unfold_prims. use_eqs.
  rewrite (lookup_insert_same _ _ _ _ Hs). simpl.
  rewrite list_insert_insert_eq.
  rewrite (forEach_emit_run (Addons proxy) (fun addon => EvServerConnected addon k)).
  simpl. rewrite <- app_assoc. reflexivity.
Qed.

(** X5: the client that [initHttpServerConn] installs dials through a
    closure bound to the new ServerConn.  A dial that fails returns a nil
    connection and the dial error and leaves the session as
    [initHttpServerConn] left it: no connection on the ServerConn, no
    wrapper, no [ServerConnected].  A dial that succeeds returns a new open
    server wrapper around the dialled connection, bound to the context;
    the ServerConn has it as its connection and the dialled address as its
    [Address]; every addon is told [ServerConnected] once, after the dial;
    and the client side's [Close] will find the wrapper. *)
Theorem initHttpServerConn_then_dial proxy klw dial w k ctx network addr :
  ctxs w !! k = Some ctx ->
  ConnContext.ServerConn ctx = None ->
  ClientConn.Tls (ConnContext.ClientConn ctx) = false ->
  let sc := length (sconns w) in
  let q := length (swraps w) in
  exists w1 s1 cl1 r w2 ctx2 s2,
    initHttpServerConn proxy klw k w = Ret tt w1 /\
    sconns w1 !! sc = Some s1 /\
    ServerConn.client s1 = Some cl1 /\
    client_dial cl1 = DialContextHttp k sc /\
    dialContextHttp proxy dial k sc network addr w1 = Ret r w2 /\
    ctxs w2 !! k = Some ctx2 /\
    ConnContext.ServerConn ctx2 = Some sc /\
    sconns w2 !! sc = Some s2 /\
    cwraps w2 = cwraps w /\
    match dial network addr (trace w) with
    | inl err =>
        r = (nilConn, Some err) /\
        s2 = s1 /\ ServerConn.Conn s2 = nilConn /\
        swraps w2 = swraps w /\
        trace w2 = trace w ++ [EvDial network addr] /\
        serverSideOf w2 ctx2 = None
    | inr c =>
        r = (serverWrapper q, None) /\
        ServerConn.Conn s2 = serverWrapper q /\
        ServerConn.Address s2 = addr /\
        ServerConn.tlsHandshaked s2 = chanOpen /\
        swraps w2 = swraps w ++ [wrapServerConn.mk c (Some k) false None] /\
        trace w2 = trace w ++ EvDial network addr
                     :: map (fun addon => EvServerConnected addon k) (Addons proxy) /\
        serverSideOf w2 ctx2 = Some (serverWrapper q)
    end.
Proof.
  intros Hctx Hnone Htls sc q. subst sc q.
  pose proof (initHttpServerConn_install_run proxy klw _ _ _ Hctx Hnone Htls) as Hrun.
  set (s1 := ServerConn.mk (nextId w) ""%string nilConn chanOpen None None None
               (Some (httpClientOf proxy klw k (length (sconns w))))) in Hrun.
  set (w1 := mkWorld _ _ _ _ _ _) in Hrun.
  assert (Hs1 : sconns w1 !! length (sconns w) = Some s1) by apply lookup_snoc_new.
  exists w1, s1, (httpClientOf proxy klw k (length (sconns w))).
  destruct (dial network addr (trace w)) as [err|c] eqn:Hdial.
  - eexists _, _, _, s1.
    split; [exact Hrun|]. split; [exact Hs1|].
    split; [reflexivity|]. split; [reflexivity|].
    split; [exact (dialContextHttp_failure_run proxy dial w1 k _ network addr err Hdial)|].
    simpl.
    split; [eapply lookup_insert_same, Hctx|].
    split; [reflexivity|]. split; [exact Hs1|]. split; [reflexivity|].
    repeat (split; [reflexivity|]).
    unfold serverSideOf. simpl. rewrite lookup_snoc_new. reflexivity.
  - eexists _, _, _, _.
    split; [exact Hrun|]. split; [exact Hs1|].
    split; [reflexivity|]. split; [reflexivity|].
    split; [exact (dialContextHttp_success_run proxy dial w1 k _ s1 network addr c Hs1 Hdial)|].
    simpl.
    split; [eapply lookup_insert_same, Hctx|].
    split; [reflexivity|].
    split; [rewrite insert_snoc_new; apply lookup_snoc_new|].
    split; [reflexivity|].
    repeat (split; [reflexivity|]).
    unfold serverSideOf. simpl. rewrite insert_snoc_new, lookup_snoc_new. reflexivity.
Qed.

Lemma initHttpServerConn_then_dial_witness :
  exists w1 s1 cl1 r w2 ctx2 s2,
    initHttpServerConn sampleProxy None 0 plainSession = Ret tt w1 /\
    sconns w1 !! 0 = Some s1 /\
    ServerConn.client s1 = Some cl1 /\
    client_dial cl1 = DialContextHttp 0 0 /\
    dialContextHttp sampleProxy dialSucceeds 0 0 "tcp" "a.example:80" w1 = Ret r w2 /\
    ctxs w2 !! 0 = Some ctx2 /\
    ConnContext.ServerConn ctx2 = Some 0 /\
    sconns w2 !! 0 = Some s2 /\
    cwraps w2 = cwraps plainSession /\
    r = (serverWrapper 0, None) /\
    ServerConn.Conn s2 = serverWrapper 0 /\
    ServerConn.Address s2 = "a.example:80"%string /\
    ServerConn.tlsHandshaked s2 = chanOpen /\
    swraps w2 = [] ++ [wrapServerConn.mk 7 (Some 0) false None] /\
    trace w2 = [] ++ EvDial "tcp" "a.example:80"
                 :: map (fun addon => EvServerConnected addon 0) [1; 2] /\
    serverSideOf w2 ctx2 = Some (serverWrapper 0).
Proof.
  exact (initHttpServerConn_then_dial sampleProxy None dialSucceeds plainSession 0 _
           "tcp" "a.example:80" eq_refl eq_refl eq_refl).
Defined.

(** ** The cascade of a paired session, statement by statement *)

Section PairedCascade.
Variable proxy : Proxy.
Variable cl : handle -> list event -> error.
Variable w : World.
Variables (p q k sc : nat).
Variable x : wrapClientConn.t.
Variable y : wrapServerConn.t.
Variable ctx : ConnContext.t.
Variable s : ServerConn.t.

Hypothesis Hx : cwraps w !! p = Some x.
Hypothesis Hxk : wrapClientConn.connCtx x = Some k.
Hypothesis Hctx : ctxs w !! k = Some ctx.
Hypothesis Hclient : ClientConn.Conn (ConnContext.ClientConn ctx) = clientWrapper p.
Hypothesis Hsc : ConnContext.ServerConn ctx = Some sc.
Hypothesis Hs : sconns w !! sc = Some s.
Hypothesis Hserver : ServerConn.Conn s = serverWrapper q.
Hypothesis Hy : swraps w !! q = Some y.
Hypothesis Hyk : wrapServerConn.connCtx y = Some k.

Lemma paired_serverSideOf : serverSideOf w ctx = Some (serverWrapper q).
Proof. unfold serverSideOf. rewrite Hsc, Hs, Hserver. reflexivity. Qed.

Lemma paired_sc_bound :
  forall sc', ConnContext.ServerConn ctx = Some sc' -> sc' < length (sconns w).
Proof.
  intros sc' Hsc'. rewrite Hsc in Hsc'. injection Hsc' as <-.
  eapply lookup_lt_Some, Hs.
Qed.

Lemma client_first_cascade n :
  wrapClientConn.closed x = false ->
  wrapServerConn.closed y = false ->
  Conn_Close proxy cl (S (S (S n))) (clientWrapper p) w =
  Ret (cl (wrapClientConn.Conn x) (trace w))
      (afterServerOwn proxy cl (afterClientOwn proxy cl w p x k) q y).
Proof.
  intros Hxo Hyo. cbn [Conn_Close].
  rewrite (wrapClientConn_Close_open proxy cl _ w p x k ctx Hx Hxo Hxk Hctx paired_sc_bound).
  rewrite paired_serverSideOf.
  set (w1 := afterClientOwn proxy cl w p x k).
  unfold bind at 1. unfold bind at 1.
  rewrite (wrapServerConn_Close_open proxy cl _ w1 q y k ctx Hy Hyo Hyk Hctx).
  rewrite Hclient.
  set (w2 := afterServerOwn proxy cl w1 q y).
  assert (Hx2 : cwraps w2 !! p = Some (clientClosedRecord cl w x))
    by (simpl; eapply lookup_insert_same, Hx).
  assert (Hy2 : swraps w2 !! q = Some (serverClosedRecord cl w1 y))
    by (simpl; eapply lookup_insert_same, Hy).
  unfold bind at 1.
  rewrite (wrapClientConn_Close_closed proxy cl _ w2 p _ Hx2 eq_refl).
  rewrite (serverCloseErr_run _ _ _ Hy2). unfold ret at 1.
  rewrite (clientCloseErr_run _ _ _ Hx2). reflexivity.
Qed.

Lemma server_first_cascade n :
  wrapClientConn.closed x = false ->
  wrapServerConn.closed y = false ->
  Conn_Close proxy cl (S (S (S n))) (serverWrapper q) w =
  Ret (cl (wrapServerConn.Conn y) (trace w))
      (afterClientOwn proxy cl (afterServerOwn proxy cl w q y) p x k).
Proof.
  intros Hxo Hyo. cbn [Conn_Close].
  rewrite (wrapServerConn_Close_open proxy cl _ w q y k ctx Hy Hyo Hyk Hctx).
  rewrite Hclient.
  set (w1 := afterServerOwn proxy cl w q y).
  assert (Hy1 : swraps w1 !! q = Some (serverClosedRecord cl w y))
    by (simpl; eapply lookup_insert_same, Hy).
  unfold bind at 1.
  rewrite (wrapClientConn_Close_open proxy cl _ w1 p x k ctx Hx Hxo Hxk Hctx paired_sc_bound).
  assert (Hside : serverSideOf w1 ctx = Some (serverWrapper q)) by exact paired_serverSideOf.
  rewrite Hside.
  set (w2 := afterClientOwn proxy cl w1 p x k).
  assert (Hx2 : cwraps w2 !! p = Some (clientClosedRecord cl w1 x))
    by (simpl; eapply lookup_insert_same, Hx).
  unfold bind at 1. unfold bind at 1.
  rewrite (wrapServerConn_Close_closed proxy cl _ w2 q _ Hy1 eq_refl).
  unfold ret at 1.
  rewrite (clientCloseErr_run _ _ _ Hx2).
  rewrite (serverCloseErr_run w2 q _ Hy1). reflexivity.
Qed.

End PairedCascade.

(** X6: closing the client side of a session whose two wrappers are open.
    The call closes the client's transport connection, tells every addon
    [ClientDisconnected], then closes the server's transport connection and
    tells every addon [ServerDisconnected], in this order and each once; it
    returns the error of the client's transport close.  The error of the
    server's transport close is kept on the server wrapper and not
    returned.  Contexts and ServerConns are not touched: the ServerConn
    keeps pointing to the closed wrapper. *)
Theorem Close_client_side_closes_both proxy cl n w p q k sc x y ctx s :
  cwraps w !! p = Some x ->
  wrapClientConn.connCtx x = Some k ->
  ctxs w !! k = Some ctx ->
  ClientConn.Conn (ConnContext.ClientConn ctx) = clientWrapper p ->
  ConnContext.ServerConn ctx = Some sc ->
  sconns w !! sc = Some s ->
  ServerConn.Conn s = serverWrapper q ->
  swraps w !! q = Some y ->
  wrapServerConn.connCtx y = Some k ->
  wrapClientConn.closed x = false ->
  wrapServerConn.closed y = false ->
  let hx := wrapClientConn.Conn x in
  let hy := wrapServerConn.Conn y in
  let clientPart :=
    EvNetClose (clientWrapper p) hx
      :: map (fun addon => EvClientDisconnected p addon k) (Addons proxy) in
  let serverPart :=
    EvNetClose (serverWrapper q) hy
      :: map (fun addon => EvServerDisconnected q addon (Some k)) (Addons proxy) in
  exists w',
    Conn_Close proxy cl (S (S (S n))) (clientWrapper p) w = Ret (cl hx (trace w)) w' /\
    trace w' = trace w ++ clientPart ++ serverPart /\
    cwraps w' = <[p := wrapClientConn.mk hx (Some k) true (cl hx (trace w))]> (cwraps w) /\
    swraps w'
    = <[q := wrapServerConn.mk hy (Some k) true (cl hy (trace w ++ clientPart))]> (swraps w) /\
    ctxs w' = ctxs w /\ sconns w' = sconns w.
Proof.
  intros Hx Hxk Hctx Hclient Hsc Hs Hserver Hy Hyk Hxo Hyo hx hy clientPart serverPart.
  eexists. split.
  - exact (client_first_cascade proxy cl w p q k sc x y ctx s
             Hx Hxk Hctx Hclient Hsc Hs Hserver Hy Hyk n Hxo Hyo).
  - simpl. unfold clientClosedRecord, serverClosedRecord, serverOwnEvents, clientOwnEvents.
    simpl. rewrite <- app_assoc.
    repeat split; unfold serverOwnEvents, clientOwnEvents; rewrite ?Hxk, ?Hyk; reflexivity.
Qed.

Lemma Close_client_side_closes_both_witness :
  exists w',
    Conn_Close sampleProxy sampleClose 3 (clientWrapper 0) pairedSession
    = Ret (Some "use of closed network connection"%string) w' /\
    trace w' = [] ++ [EvNetClose (clientWrapper 0) 3; EvClientDisconnected 0 1 0;
                      EvClientDisconnected 0 2 0]
                  ++ [EvNetClose (serverWrapper 0) 7; EvServerDisconnected 0 1 (Some 0);
                      EvServerDisconnected 0 2 (Some 0)] /\
    cwraps w' = <[0 := wrapClientConn.mk 3 (Some 0) true
                         (Some "use of closed network connection"%string)]>
                  (cwraps pairedSession) /\
    swraps w' = <[0 := wrapServerConn.mk 7 (Some 0) true None]> (swraps pairedSession) /\
    ctxs w' = ctxs pairedSession /\ sconns w' = sconns pairedSession.
Proof.
  exact (Close_client_side_closes_both sampleProxy sampleClose 0 pairedSession
           0 0 0 0 _ _ _ _ eq_refl eq_refl eq_refl eq_refl eq_refl eq_refl eq_refl
           eq_refl eq_refl eq_refl eq_refl).
Defined.

(** X7: closing the server side of a session whose two wrappers are open
    runs the mirror image of closing the client side: the server's
    transport connection and [ServerDisconnected] first, then the client's
    transport connection and [ClientDisconnected]; the call returns the
    error of the server's transport close, and the client's is kept on the
    client wrapper.  The nested [Close] of the client wrapper comes back to
    the server wrapper, finds it closed and stops. *)
Theorem Close_server_side_closes_both proxy cl n w p q k sc x y ctx s :
  cwraps w !! p = Some x ->
  wrapClientConn.connCtx x = Some k ->
  ctxs w !! k = Some ctx ->
  ClientConn.Conn (ConnContext.ClientConn ctx) = clientWrapper p ->
  ConnContext.ServerConn ctx = Some sc ->
  sconns w !! sc = Some s ->
  ServerConn.Conn s = serverWrapper q ->
  swraps w !! q = Some y ->
  wrapServerConn.connCtx y = Some k ->
  wrapClientConn.closed x = false ->
  wrapServerConn.closed y = false ->
  let hx := wrapClientConn.Conn x in
  let hy := wrapServerConn.Conn y in
  let clientPart :=
    EvNetClose (clientWrapper p) hx
      :: map (fun addon => EvClientDisconnected p addon k) (Addons proxy) in
  let serverPart :=
    EvNetClose (serverWrapper q) hy
      :: map (fun addon => EvServerDisconnected q addon (Some k)) (Addons proxy) in
  exists w',
    Conn_Close proxy cl (S (S (S n))) (serverWrapper q) w = Ret (cl hy (trace w)) w' /\
    trace w' = trace w ++ serverPart ++ clientPart /\
    swraps w' = <[q := wrapServerConn.mk hy (Some k) true (cl hy (trace w))]> (swraps w) /\
    cwraps w'
    = <[p := wrapClientConn.mk hx (Some k) true (cl hx (trace w ++ serverPart))]> (cwraps w) /\
    ctxs w' = ctxs w /\ sconns w' = sconns w.
Proof.
  intros Hx Hxk Hctx Hclient Hsc Hs Hserver Hy Hyk Hxo Hyo hx hy clientPart serverPart.
  eexists. split.
  - exact (server_first_cascade proxy cl w p q k sc x y ctx s
             Hx Hxk Hctx Hclient Hsc Hs Hserver Hy Hyk n Hxo Hyo).
  - simpl. unfold clientClosedRecord, serverClosedRecord, serverOwnEvents, clientOwnEvents.
    simpl. rewrite <- app_assoc.
    repeat split; unfold serverOwnEvents, clientOwnEvents; rewrite ?Hxk, ?Hyk; reflexivity.
Qed.

Lemma Close_server_side_closes_both_witness :
  exists w',
    Conn_Close sampleProxy sampleClose 3 (serverWrapper 0) pairedSession = Ret None w' /\
    trace w' = [] ++ [EvNetClose (serverWrapper 0) 7; EvServerDisconnected 0 1 (Some 0);
                      EvServerDisconnected 0 2 (Some 0)]
                  ++ [EvNetClose (clientWrapper 0) 3; EvClientDisconnected 0 1 0;
                      EvClientDisconnected 0 2 0] /\
    swraps w' = <[0 := wrapServerConn.mk 7 (Some 0) true None]> (swraps pairedSession) /\
    cwraps w' = <[0 := wrapClientConn.mk 3 (Some 0) true
                         (Some "use of closed network connection"%string)]>
                  (cwraps pairedSession) /\
    ctxs w' = ctxs pairedSession /\ sconns w' = sconns pairedSession.
Proof.
  exact (Close_server_side_closes_both sampleProxy sampleClose 0 pairedSession
           0 0 0 0 _ _ _ _ eq_refl eq_refl eq_refl eq_refl eq_refl eq_refl eq_refl
           eq_refl eq_refl eq_refl eq_refl).
Defined.

(** ** Sessions from the first request to the close *)

(** X8: a plain-HTTP session from [initHttpServerConn] to the close of the
    client connection.  When the dial of the installed client succeeds, the
    close of the client side also closes the dialled connection, after the
    client's own events; when the dial fails, the ServerConn exists but has
    no connection, and the close stops after the client's own events
    instead of calling [Close] on a nil connection. *)
Theorem plain_session_lifecycle proxy klw dial cl n w p k x ctx network addr :
  cwraps w !! p = Some x ->
  wrapClientConn.closed x = false ->
  wrapClientConn.connCtx x = Some k ->
  ctxs w !! k = Some ctx ->
  ClientConn.Conn (ConnContext.ClientConn ctx) = clientWrapper p ->
  ConnContext.ServerConn ctx = None ->
  ClientConn.Tls (ConnContext.ClientConn ctx) = false ->
  let hx := wrapClientConn.Conn x in
  let q := length (swraps w) in
  let clientPart :=
    EvNetClose (clientWrapper p) hx
      :: map (fun addon => EvClientDisconnected p addon k) (Addons proxy) in
  exists w1 r w2 w3,
    initHttpServerConn proxy klw k w = Ret tt w1 /\
    dialContextHttp proxy dial k (length (sconns w)) network addr w1 = Ret r w2 /\
    Conn_Close proxy cl (S (S (S n))) (clientWrapper p) w2 = Ret (cl hx (trace w2)) w3 /\
    match dial network addr (trace w) with
    | inl err =>
        r = (nilConn, Some err) /\
        trace w3 = trace w ++ EvDial network addr :: clientPart
    | inr c =>
        r = (serverWrapper q, None) /\
        trace w3 = trace w
                   ++ EvDial network addr
                   :: map (fun addon => EvServerConnected addon k) (Addons proxy)
                   ++ clientPart
                   ++ EvNetClose (serverWrapper q) c
                   :: map (fun addon => EvServerDisconnected q addon (Some k)) (Addons proxy)
    end.
Proof.
  intros Hx Hxo Hxk Hctx Hclient Hnone Htls hx q clientPart.
  pose proof (initHttpServerConn_install_run proxy klw _ _ _ Hctx Hnone Htls) as Hrun.
  set (s1 := ServerConn.mk (nextId w) ""%string nilConn chanOpen None None None
               (Some (httpClientOf proxy klw k (length (sconns w))))) in Hrun.
  set (w1 := mkWorld _ _ _ _ _ _) in Hrun.
  assert (Hs1 : sconns w1 !! length (sconns w) = Some s1) by apply lookup_snoc_new.
  set (ctx1 := setServerConn (Some (length (sconns w))) ctx).
  assert (Hctx1 : ctxs w1 !! k = Some ctx1) by (simpl; eapply lookup_insert_same, Hctx).
  exists w1.
  destruct (dial network addr (trace w)) as [err|c] eqn:Hdial.
  - pose proof (dialContextHttp_failure_run proxy dial w1 k (length (sconns w))
                  network addr err Hdial) as Hd.
    set (w2 := mkWorld _ _ _ _ _ _) in Hd.
    eexists _, w2, _. split; [exact Hrun|]. split; [exact Hd|].
    split.
    + cbn [Conn_Close].
      rewrite (wrapClientConn_Close_open proxy cl _ w2 p x k ctx1 Hx Hxo Hxk Hctx1).
      2: { intros sc [= <-]. simpl. rewrite length_app. simpl. lia. }
      assert (Hside : serverSideOf w2 ctx1 = None).
      { unfold serverSideOf. simpl. rewrite lookup_snoc_new. reflexivity. }
      rewrite Hside. unfold bind at 1. unfold ret at 1.
      erewrite clientCloseErr_run by (simpl; eapply lookup_insert_same, Hx).
      reflexivity.
    + split; [reflexivity|]. simpl. rewrite <- app_assoc. reflexivity.
  - pose proof (dialContextHttp_success_run proxy dial w1 k (length (sconns w)) s1
                  network addr c Hs1 Hdial) as Hd.
    set (w2 := mkWorld _ _ _ _ _ _) in Hd.
    eexists _, w2, _. split; [exact Hrun|]. split; [exact Hd|].
    split.
    + eapply (client_first_cascade proxy cl w2 p q k (length (sconns w)) x
                (wrapServerConn.mk c (Some k) false None) ctx1); try reflexivity;
        try eassumption.
      * simpl. rewrite insert_snoc_new. apply lookup_snoc_new.
      * reflexivity.
      * simpl. apply lookup_snoc_new.
    + split; [reflexivity|]. simpl. unfold clientOwnEvents, serverOwnEvents. simpl.
      rewrite <- !app_assoc. simpl. rewrite <- ?app_assoc. reflexivity.
Qed.

Lemma plain_session_lifecycle_witness :
  exists w1 r w2 w3,
    initHttpServerConn sampleProxy None 0 plainSession = Ret tt w1 /\
    dialContextHttp sampleProxy dialSucceeds 0 0 "tcp" "a.example:80" w1 = Ret r w2 /\
    Conn_Close sampleProxy sampleClose 3 (clientWrapper 0) w2
    = Ret (Some "use of closed network connection"%string) w3 /\
    r = (serverWrapper 0, None) /\
    trace w3 = [EvDial "tcp" "a.example:80"; EvServerConnected 1 0; EvServerConnected 2 0;
                EvNetClose (clientWrapper 0) 3;
                EvClientDisconnected 0 1 0; EvClientDisconnected 0 2 0;
                EvNetClose (serverWrapper 0) 7;
                EvServerDisconnected 0 1 (Some 0); EvServerDisconnected 0 2 (Some 0)].
Proof.
  exact (plain_session_lifecycle sampleProxy None dialSucceeds sampleClose 0 plainSession
           0 0 _ _ "tcp" "a.example:80"
           eq_refl eq_refl eq_refl eq_refl eq_refl eq_refl eq_refl).
Defined.

(** X9: a context whose client has dialled twice.  The ServerConn points to
    the wrapper of the latest dial only, so the close of the client side
    closes that one and leaves the earlier server wrapper open, its
    transport connection not closed.  The close of the earlier wrapper, on
    the other hand, takes the whole session down: its own transport
    connection, then the client's, then the latest server connection. *)
Theorem Close_with_stale_server_wrapper proxy cl n w p q q0 k sc x y y0 ctx s :
  cwraps w !! p = Some x ->
  wrapClientConn.connCtx x = Some k ->
  ctxs w !! k = Some ctx ->
  ClientConn.Conn (ConnContext.ClientConn ctx) = clientWrapper p ->
  ConnContext.ServerConn ctx = Some sc ->
  sconns w !! sc = Some s ->
  ServerConn.Conn s = serverWrapper q ->
  swraps w !! q = Some y ->
  wrapServerConn.connCtx y = Some k ->
  swraps w !! q0 = Some y0 ->
  wrapServerConn.connCtx y0 = Some k ->
  q0 <> q ->
  wrapClientConn.closed x = false ->
  wrapServerConn.closed y = false ->
  wrapServerConn.closed y0 = false ->
  let hx := wrapClientConn.Conn x in
  let clientPart :=
    EvNetClose (clientWrapper p) hx
      :: map (fun addon => EvClientDisconnected p addon k) (Addons proxy) in
  let serverPart r z :=
    EvNetClose (serverWrapper r) (wrapServerConn.Conn z)
      :: map (fun addon => EvServerDisconnected r addon (Some k)) (Addons proxy) in
  (exists w',
      Conn_Close proxy cl (S (S (S n))) (clientWrapper p) w = Ret (cl hx (trace w)) w' /\
      trace w' = trace w ++ clientPart ++ serverPart q y /\
      swraps w' !! q0 = Some y0) /\
  (exists w' x' y' y0',
      Conn_Close proxy cl (S (S (S (S n)))) (serverWrapper q0) w
      = Ret (cl (wrapServerConn.Conn y0) (trace w)) w' /\
      trace w' = trace w ++ serverPart q0 y0 ++ clientPart ++ serverPart q y /\
      cwraps w' !! p = Some x' /\ wrapClientConn.closed x' = true /\
      swraps w' !! q = Some y' /\ wrapServerConn.closed y' = true /\
      swraps w' !! q0 = Some y0' /\ wrapServerConn.closed y0' = true).
Proof.
  intros Hx Hxk Hctx Hclient Hsc Hs Hserver Hy Hyk Hy0 Hy0k Hne Hxo Hyo Hy0o
         hx clientPart serverPart.
  split.
  - eexists. split.
    + exact (client_first_cascade proxy cl w p q k sc x y ctx s
               Hx Hxk Hctx Hclient Hsc Hs Hserver Hy Hyk n Hxo Hyo).
    + simpl. rewrite <- app_assoc. split.
      * unfold clientOwnEvents, serverOwnEvents. rewrite Hyk. reflexivity.
      * rewrite list_lookup_insert_ne by congruence. exact Hy0.
  - cbn [Conn_Close].
    rewrite (wrapServerConn_Close_open proxy cl _ w q0 y0 k ctx Hy0 Hy0o Hy0k Hctx).
    rewrite Hclient.
    set (w1 := afterServerOwn proxy cl w q0 y0).
    assert (Hy1 : swraps w1 !! q = Some y)
      by (simpl; rewrite list_lookup_insert_ne by congruence; exact Hy).
    unfold bind at 1.
    pose proof (client_first_cascade proxy cl w1 p q k sc x y ctx s
                  Hx Hxk Hctx Hclient Hsc Hs Hserver Hy1 Hyk n Hxo Hyo) as Hinner.
    cbn [Conn_Close] in Hinner. rewrite Hinner.
    set (w3 := afterServerOwn proxy cl (afterClientOwn proxy cl w1 p x k) q y).
    assert (Hy03 : swraps w3 !! q0 = Some (serverClosedRecord cl w y0)).
    { simpl. rewrite list_lookup_insert_ne by congruence.
      eapply lookup_insert_same, Hy0. }
    rewrite (serverCloseErr_run _ _ _ Hy03).
    eexists w3, _, _, _. split; [reflexivity|].
    split.
    { simpl. unfold clientOwnEvents, serverOwnEvents. rewrite Hyk, Hy0k.
      rewrite <- !app_assoc. simpl. rewrite <- ?app_assoc. reflexivity. }
    split; [simpl; eapply lookup_insert_same, Hx|]. split; [reflexivity|].
    split; [simpl; eapply lookup_insert_same, Hy1|]. split; [reflexivity|].
    split; [exact Hy03 | reflexivity].
Qed.

Lemma Close_with_stale_server_wrapper_witness :
  (exists w',
      Conn_Close sampleProxy sampleClose 3 (clientWrapper 0) redialledSession
      = Ret (Some "use of closed network connection"%string) w' /\
      trace w' = trace redialledSession
                 ++ [EvNetClose (clientWrapper 0) 3;
                     EvClientDisconnected 0 1 0; EvClientDisconnected 0 2 0]
                 ++ [EvNetClose (serverWrapper 1) 13;
                     EvServerDisconnected 1 1 (Some 0); EvServerDisconnected 1 2 (Some 0)] /\
      swraps w' !! 0 = Some (wrapServerConn.mk 10 (Some 0) false None)) /\
  (exists w' x' y' y0',
      Conn_Close sampleProxy sampleClose 4 (serverWrapper 0) redialledSession
      = Ret None w' /\
      trace w' = trace redialledSession
                 ++ [EvNetClose (serverWrapper 0) 10;
                     EvServerDisconnected 0 1 (Some 0); EvServerDisconnected 0 2 (Some 0)]
                 ++ [EvNetClose (clientWrapper 0) 3;
                     EvClientDisconnected 0 1 0; EvClientDisconnected 0 2 0]
                 ++ [EvNetClose (serverWrapper 1) 13;
                     EvServerDisconnected 1 1 (Some 0); EvServerDisconnected 1 2 (Some 0)] /\
      cwraps w' !! 0 = Some x' /\ wrapClientConn.closed x' = true /\
      swraps w' !! 1 = Some y' /\ wrapServerConn.closed y' = true /\
      swraps w' !! 0 = Some y0' /\ wrapServerConn.closed y0' = true).
Proof.
  refine (Close_with_stale_server_wrapper sampleProxy sampleClose 0 redialledSession
            0 1 0 0 0 _ _ _ _ _ eq_refl eq_refl eq_refl eq_refl eq_refl eq_refl eq_refl
            eq_refl eq_refl eq_refl eq_refl _ eq_refl eq_refl eq_refl).
  discriminate.
Defined.

(** ** Wrappers that are not bound to a complete context *)

Lemma wrapClientConn_Close_nil_ctx proxy cl Close w p x :
  cwraps w !! p = Some x ->
  wrapClientConn.closed x = false ->
  wrapClientConn.connCtx x = None ->
  wrapClientConn_Close proxy cl Close p w =
  Panic (mkWorld (ctxs w) (sconns w) (<[p := clientClosedRecord cl w x]> (cwraps w))
           (swraps w) (nextId w)
           (trace w ++ [EvNetClose (clientWrapper p) (wrapClientConn.Conn x)])).
Proof.
  intros Hx Hxo Hnil.
  unfold wrapClientConn_Close, clientClosed, clientMarkClosed, clientRealClose.
  unfold_prims. use_eqs.
  rewrite (lookup_insert_same _ _ _ _ Hx). simpl.
  rewrite (lookup_insert_same _ _ _ _ Hx). simpl.
  rewrite !list_insert_insert_eq.
  unfold clientNotify, clientPaired.
  destruct (Addons proxy) as [|a l]; simpl; unfold_prims; simpl;
    rewrite (lookup_insert_same _ _ _ _ Hx); simpl; rewrite Hnil; reflexivity.
Qed.

(** X10: [Accept] hands out a client wrapper that has no context yet.  When
    the listener fails, the error is passed on and nothing is allocated.
    Otherwise the new wrapper is open and unbound, and a [Close] that comes
    before the context is attached closes the transport connection, stores
    the result, and then panics on the nil context, with or without addons;
    the wrapper stays marked as closed, so a later [Close] returns the
    stored error and does nothing else. *)
Theorem Accept_then_Close_without_context acc proxy cl n w :
  match acc (trace w) with
  | inl err => Accept acc w = Ret (nilConn, Some err) w
  | inr c =>
      let p := length (cwraps w) in
      exists w1 w2,
        Accept acc w = Ret (clientWrapper p, None) w1 /\
        cwraps w1 = cwraps w ++ [wrapClientConn.mk c None false None] /\
        trace w1 = trace w /\
        Conn_Close proxy cl (S n) (clientWrapper p) w1 = Panic w2 /\
        trace w2 = trace w ++ [EvNetClose (clientWrapper p) c] /\
        cwraps w2 = cwraps w ++ [wrapClientConn.mk c None true (cl c (trace w))] /\
        forall m, Conn_Close proxy cl (S m) (clientWrapper p) w2 = Ret (cl c (trace w)) w2
  end.
Proof.
  destruct (acc (trace w)) as [err|c] eqn:Hacc.
  - unfold Accept. unfold_prims. rewrite Hacc. reflexivity.
  - intros p.
    assert (Hrun : Accept acc w
                   = Ret (clientWrapper p, None)
                       (mkWorld (ctxs w) (sconns w)
                          (cwraps w ++ [wrapClientConn.mk c None false None])
                          (swraps w) (nextId w) (trace w))).
    { unfold Accept. unfold_prims. rewrite Hacc. reflexivity. }
    rewrite Hrun. set (w1 := mkWorld _ _ _ _ _ _).
    assert (Hx : cwraps w1 !! p = Some (wrapClientConn.mk c None false None))
      by apply lookup_snoc_new.
    eexists w1, _. split; [reflexivity|]. split; [reflexivity|]. split; [reflexivity|].
    assert (Hclose : Conn_Close proxy cl (S n) (clientWrapper p) w1
                     = Panic (mkWorld (ctxs w) (sconns w)
                                (cwraps w ++ [wrapClientConn.mk c None true (cl c (trace w))])
                                (swraps w) (nextId w)
                                (trace w ++ [EvNetClose (clientWrapper p) c]))).
    { cbn [Conn_Close].
      rewrite (wrapClientConn_Close_nil_ctx proxy cl _ w1 p _ Hx eq_refl eq_refl).
      simpl. subst p. rewrite insert_snoc_new. reflexivity. }
    rewrite Hclose. split; [reflexivity|]. split; [reflexivity|]. split; [reflexivity|].
    intros m. cbn [Conn_Close].
    apply (wrapClientConn_Close_closed proxy cl _ _ p
             (wrapClientConn.mk c None true (cl c (trace w)))); [|reflexivity].
    apply lookup_snoc_new.
Qed.

Lemma wrapServerConn_Close_nil_ctx proxy cl Close w q y :
  swraps w !! q = Some y ->
  wrapServerConn.closed y = false ->
  wrapServerConn.connCtx y = None ->
  wrapServerConn_Close proxy cl Close q w = Panic (afterServerOwn proxy cl w q y).
Proof.
  intros Hy Hyo Hnil. unfold wrapServerConn_Close, bind at 1.
  rewrite (serverClosed_run _ _ _ Hy), Hyo.
  rewrite (server_own_run proxy cl _ w q y Hy).
  unfold bind at 1. unfold serverPaired. unfold_prims. simpl.
  rewrite (lookup_insert_same _ _ _ _ Hy). simpl. rewrite Hnil. reflexivity.
Qed.

(** X11: the server wrapper closes the client side without a guard.  When
    its context is nil, or the context has no client connection, the first
    [Close] still closes the transport connection, stores the result and
    tells every addon [ServerDisconnected] (with the context it has, nil or
    not), and then panics; the wrapper stays marked as closed, and a later
    [Close] returns the stored error. *)
Theorem wrapServerConn_Close_without_client proxy cl n w q y :
  swraps w !! q = Some y ->
  wrapServerConn.closed y = false ->
  (wrapServerConn.connCtx y = None \/
   exists k ctx,
     wrapServerConn.connCtx y = Some k /\ ctxs w !! k = Some ctx /\
     ClientConn.Conn (ConnContext.ClientConn ctx) = nilConn) ->
  let hy := wrapServerConn.Conn y in
  exists w',
    Conn_Close proxy cl (S (S n)) (serverWrapper q) w = Panic w' /\
    trace w' = trace w
               ++ EvNetClose (serverWrapper q) hy
               :: map (fun addon => EvServerDisconnected q addon (wrapServerConn.connCtx y))
                      (Addons proxy) /\
    swraps w'
    = <[q := wrapServerConn.mk hy (wrapServerConn.connCtx y) true (cl hy (trace w))]>
        (swraps w) /\
    forall m, Conn_Close proxy cl (S m) (serverWrapper q) w' = Ret (cl hy (trace w)) w'.
Proof.
  intros Hy Hyo Hcase hy.
  exists (afterServerOwn proxy cl w q y). split.
  - destruct Hcase as [Hnil | (k & ctx & Hk & Hctx & Hclient)].
    + cbn [Conn_Close]. apply wrapServerConn_Close_nil_ctx; assumption.
    + exact (wrapServerConn_Close_nil_client proxy cl n w q y k ctx Hy Hyo Hk Hctx Hclient).
  - split; [reflexivity|]. split; [reflexivity|].
    intros m. cbn [Conn_Close].
    apply (wrapServerConn_Close_closed proxy cl _ _ q (serverClosedRecord cl w y));
      [|reflexivity].
    simpl. eapply lookup_insert_same, Hy.
Qed.

Lemma wrapServerConn_Close_without_client_witness :
  exists w',
    Conn_Close sampleProxy sampleClose 2 (serverWrapper 0) clientlessSession = Panic w' /\
    trace w' = trace clientlessSession
               ++ [EvNetClose (serverWrapper 0) 7;
                   EvServerDisconnected 0 1 (Some 0); EvServerDisconnected 0 2 (Some 0)] /\
    swraps w' = <[0 := wrapServerConn.mk 7 (Some 0) true None]> (swraps clientlessSession) /\
    forall m, Conn_Close sampleProxy sampleClose (S m) (serverWrapper 0) w' = Ret None w'.
Proof.
  refine (wrapServerConn_Close_without_client sampleProxy sampleClose 0 clientlessSession
            0 _ eq_refl eq_refl _).
  right. eexists 0, _. split; [reflexivity|]. split; reflexivity.
Defined.

(** ** What a [Close] call leaves alone, whatever its outcome *)

Lemma evolves_client_own w p x x' d :
  cwraps w !! p = Some x ->
  wrapClientConn.closed x = false ->
  wrapClientConn.Conn x' = wrapClientConn.Conn x ->
  wrapClientConn.connCtx x' = wrapClientConn.connCtx x ->
  Forall (fun e => owner e = Some (clientWrapper p)) d ->
  evolves w (mkWorld (ctxs w) (sconns w) (<[p := x']> (cwraps w)) (swraps w) (nextId w)
               (trace w ++ d)).
Proof.
  intros Hx Hopen Hconn Hk Hd. constructor; simpl; try reflexivity.
  - intros c y Hy. destruct (decide (p = c)) as [->|Hne].
    + exists x'. rewrite (lookup_insert_same _ _ _ _ Hx).
      assert (y = x) by congruence. subst y.
      repeat split; auto. congruence.
    + exists y. rewrite list_lookup_insert_ne by exact Hne. auto.
  - apply length_insert.
  - intros c y Hy. exists y. auto.
  - eexists. split; [reflexivity|].
    eapply Forall_impl; [exact Hd|]. simpl. intros e He.
    exists (clientWrapper p). split; [exact He|]. simpl. eauto.
Qed.

Lemma evolves_server_own w p x x' d :
  swraps w !! p = Some x ->
  wrapServerConn.closed x = false ->
  wrapServerConn.Conn x' = wrapServerConn.Conn x ->
  wrapServerConn.connCtx x' = wrapServerConn.connCtx x ->
  Forall (fun e => owner e = Some (serverWrapper p)) d ->
  evolves w (mkWorld (ctxs w) (sconns w) (cwraps w) (<[p := x']> (swraps w)) (nextId w)
               (trace w ++ d)).
Proof.
  intros Hx Hopen Hconn Hk Hd. constructor; simpl; try reflexivity.
  - intros c y Hy. exists y. auto.
  - intros c y Hy. destruct (decide (p = c)) as [->|Hne].
    + exists x'. rewrite (lookup_insert_same _ _ _ _ Hx).
      assert (y = x) by congruence. subst y.
      repeat split; auto. congruence.
    + exists y. rewrite list_lookup_insert_ne by exact Hne. auto.
  - apply length_insert.
  - eexists. split; [reflexivity|].
    eapply Forall_impl; [exact Hd|]. simpl. intros e He.
    exists (serverWrapper p). split; [exact He|]. simpl. eauto.
Qed.

Lemma worldOf_clientCloseErr p w : worldOf (clientCloseErr p w) = Some w.
Proof.
  unfold clientCloseErr. unfold_prims. destruct (cwraps w !! p); reflexivity.
Qed.

Lemma worldOf_serverCloseErr p w : worldOf (serverCloseErr p w) = Some w.
Proof.
  unfold serverCloseErr. unfold_prims. destruct (swraps w !! p); reflexivity.
Qed.

Lemma clientClosed_absent p w : cwraps w !! p = None -> clientClosed p w = Panic w.
Proof. intros H. unfold clientClosed. unfold_prims. rewrite H. reflexivity. Qed.

Lemma serverClosed_absent p w : swraps w !! p = None -> serverClosed p w = Panic w.
Proof. intros H. unfold serverClosed. unfold_prims. rewrite H. reflexivity. Qed.

Lemma Conn_Close_evolves proxy cl fuel :
  forall conn w w',
    worldOf (Conn_Close proxy cl fuel conn w) = Some w' -> evolves w w'.
Proof.
  induction fuel as [|n IH]; intros conn w w' Hrun; [discriminate|].
  destruct conn as [|h|p|p]; cbn [Conn_Close] in Hrun.
  - injection Hrun as <-. apply evolves_refl.
  - unfold netClose, getTrace, emit, bind, ret in Hrun. simpl in Hrun.
    injection Hrun as <-.
    apply evolves_tcp_close.
  - unfold wrapClientConn_Close, bind in Hrun.
    destruct (cwraps w !! p) as [x|] eqn:Hx.
    2: { rewrite (clientClosed_absent _ _ Hx) in Hrun.
         injection Hrun as <-. apply evolves_refl. }
    rewrite (clientClosed_run _ _ _ Hx) in Hrun.
    destruct (wrapClientConn.closed x) eqn:Hopen.
    { rewrite worldOf_clientCloseErr in Hrun. injection Hrun as <-. apply evolves_refl. }
    rewrite (clientMarkClosed_run _ _ _ Hx) in Hrun.
    erewrite clientRealClose_run in Hrun by (simpl; eapply lookup_insert_same, Hx).
    simpl in Hrun. rewrite list_insert_insert_eq in Hrun.
    match type of Hrun with
    | context [clientNotify proxy p ?w0] =>
        set (w3 := w0) in *;
        assert (Hev3 : evolves w w3)
          by (apply evolves_client_own with (x := x); auto)
    end.
    destruct (clientNotify_cases proxy w3 p) as [[k Hn]|Hn]; rewrite Hn in Hrun.
    2: { injection Hrun as <-. exact Hev3. }
    match type of Hrun with
    | context [clientPaired p ?w0] =>
        set (w4 := w0) in *;
        assert (Hev4 : evolves w w4)
    end.
    { subst w4 w3. simpl. rewrite <- app_assoc.
      apply evolves_client_own with (x := x); auto.
      constructor; [reflexivity|].
      apply Forall_map, Forall_forall. intros a _. reflexivity. }
    destruct (clientPaired_cases w4 p) as [[o Ho]|Ho]; rewrite Ho in Hrun.
    2: { injection Hrun as <-. exact Hev4. }
    destruct o as [conn|].
    + destruct (Conn_Close proxy cl n conn w4) as [e5 w5|w5|w5|] eqn:E5;
        try discriminate;
        assert (Hev5 : evolves w4 w5) by (apply (IH conn); rewrite E5; reflexivity);
        [ unfold ret in Hrun; rewrite worldOf_clientCloseErr in Hrun | |];
        injection Hrun as <-; eapply evolves_trans; eauto.
    + unfold ret in Hrun. rewrite worldOf_clientCloseErr in Hrun.
      injection Hrun as <-. exact Hev4.
  - unfold wrapServerConn_Close, bind in Hrun.
    destruct (swraps w !! p) as [x|] eqn:Hx.
    2: { rewrite (serverClosed_absent _ _ Hx) in Hrun.
         injection Hrun as <-. apply evolves_refl. }
    rewrite (serverClosed_run _ _ _ Hx) in Hrun.
    destruct (wrapServerConn.closed x) eqn:Hopen.
    { rewrite worldOf_serverCloseErr in Hrun. injection Hrun as <-. apply evolves_refl. }
    rewrite (serverMarkClosed_run _ _ _ Hx) in Hrun.
    erewrite serverRealClose_run in Hrun by (simpl; eapply lookup_insert_same, Hx).
    simpl in Hrun. rewrite list_insert_insert_eq in Hrun.
    match type of Hrun with
    | context [serverNotify proxy p ?w0] =>
        set (w3 := w0) in *;
        assert (Hev3 : evolves w w3)
          by (apply evolves_server_own with (x := x); auto)
    end.
    destruct (serverNotify_cases proxy w3 p) as [[k Hn]|Hn]; rewrite Hn in Hrun.
    2: { injection Hrun as <-. exact Hev3. }
    match type of Hrun with
    | context [serverPaired p ?w0] =>
        set (w4 := w0) in *;
        assert (Hev4 : evolves w w4)
    end.
    { subst w4 w3. simpl. rewrite <- app_assoc.
      apply evolves_server_own with (x := x); auto.
      constructor; [reflexivity|].
      apply Forall_map, Forall_forall. intros a _. reflexivity. }
    destruct (serverPaired_cases w4 p) as [[conn Ho]|Ho]; rewrite Ho in Hrun.
    2: { injection Hrun as <-. exact Hev4. }
    destruct (Conn_Close proxy cl n conn w4) as [e5 w5|w5|w5|] eqn:E5;
      try discriminate;
      assert (Hev5 : evolves w4 w5) by (apply (IH conn); rewrite E5; reflexivity);
      [ rewrite worldOf_serverCloseErr in Hrun | |];
      injection Hrun as <-; eapply evolves_trans; eauto.
Qed.

(** X12: whatever a [Close] call does, and however it ends (it returns,
    or it panics half-way), it leaves the contexts, the ServerConns and the
    identifier counter as they are, keeps every wrapper's transport
    connection and context, changes no wrapper that was closed already, and
    adds only events of connections that were open when it started.  A
    store that was well formed stays well formed. *)
Theorem Conn_Close_frame proxy cl fuel conn w w' :
  worldOf (Conn_Close proxy cl fuel conn w) = Some w' ->
  evolves w w' /\ (wf w -> wf w').
Proof.
  intros Hrun. pose proof (Conn_Close_evolves proxy cl fuel conn w w' Hrun) as Hev.
  split; [exact Hev|]. intros Hwf. eapply wf_evolves; eauto.
Qed.

Lemma Conn_Close_frame_witness :
  exists w',
    Conn_Close sampleProxy sampleClose 2 (serverWrapper 0) clientlessSession = Panic w' /\
    evolves clientlessSession w' /\ (wf clientlessSession -> wf w').
Proof.
  eexists. split; [vm_compute; reflexivity|].
  apply (Conn_Close_frame sampleProxy sampleClose 2 (serverWrapper 0)).
  vm_compute. reflexivity.
Defined.

(** ** The depth of a cascade *)

Lemma wrapClientConn_Close_mono proxy cl (Close1 Close2 : netConn -> M error) p w e w' :
  (forall conn w e w', Close1 conn w = Ret e w' -> Close2 conn w = Ret e w') ->
  wrapClientConn_Close proxy cl Close1 p w = Ret e w' ->
  wrapClientConn_Close proxy cl Close2 p w = Ret e w'.
Proof.
  intros Hsub. unfold wrapClientConn_Close, bind.
  destruct (clientClosed p w) as [[] w1| | |]; try discriminate; [auto|].
  destruct (clientMarkClosed p w1) as [[] w2| | |]; try discriminate.
  destruct (clientRealClose cl p w2) as [[] w3| | |]; try discriminate.
  destruct (clientNotify proxy p w3) as [[] w4| | |]; try discriminate.
  destruct (clientPaired p w4) as [[conn|] w5| | |]; try discriminate; [|auto].
  destruct (Close1 conn w5) as [e6 w6| | |] eqn:E6; try discriminate.
  rewrite (Hsub _ _ _ _ E6). auto.
Qed.

Lemma wrapServerConn_Close_mono proxy cl (Close1 Close2 : netConn -> M error) p w e w' :
  (forall conn w e w', Close1 conn w = Ret e w' -> Close2 conn w = Ret e w') ->
  wrapServerConn_Close proxy cl Close1 p w = Ret e w' ->
  wrapServerConn_Close proxy cl Close2 p w = Ret e w'.
Proof.
  intros Hsub. unfold wrapServerConn_Close, bind.
  destruct (serverClosed p w) as [[] w1| | |]; try discriminate; [auto|].
  destruct (serverMarkClosed p w1) as [[] w2| | |]; try discriminate.
  destruct (serverRealClose cl p w2) as [[] w3| | |]; try discriminate.
  destruct (serverNotify proxy p w3) as [[] w4| | |]; try discriminate.
  destruct (serverPaired p w4) as [conn w5| | |]; try discriminate.
  destruct (Close1 conn w5) as [e6 w6| | |] eqn:E6; try discriminate.
  rewrite (Hsub _ _ _ _ E6). auto.
Qed.

Lemma Conn_Close_fuel_mono proxy cl n :
  forall m conn w e w',
    n <= m ->
    Conn_Close proxy cl n conn w = Ret e w' ->
    Conn_Close proxy cl m conn w = Ret e w'.
Proof.
  induction n as [|n IH]; intros m conn w e w' Hle Hrun; [discriminate|].
  destruct m as [|m]; [lia|].
  assert (Hsub : forall conn w e w',
             Conn_Close proxy cl n conn w = Ret e w' ->
             Conn_Close proxy cl m conn w = Ret e w')
    by (intros; apply (IH m); [lia | assumption]).
  destruct conn as [|h|p|p]; cbn [Conn_Close] in *.
  - exact Hrun.
  - exact Hrun.
  - eapply wrapClientConn_Close_mono; eauto.
  - eapply wrapServerConn_Close_mono; eauto.
Qed.

Lemma count_pointwise_le {A} (f : A -> bool) (l l' : list A) :
  length l' = length l ->
  (forall p x, l !! p = Some x ->
     exists x', l' !! p = Some x' /\ (f x = false -> f x' = false)) ->
  count f l' <= count f l.
Proof.
  revert l'. induction l as [|a l IH]; intros [|a' l'] Hlen Hpt; simpl in Hlen;
    try discriminate; [reflexivity|].
  rewrite !count_cons.
  assert (Htail : count f l' <= count f l).
  { apply IH; [lia|]. intros p x Hx. exact (Hpt (S p) x Hx). }
  destruct (Hpt 0 a eq_refl) as (x' & Hx' & Hf). simpl in Hx'. injection Hx' as <-.
  destruct (f a) eqn:Ha; destruct (f a') eqn:Ha'; try lia;
    (specialize (Hf eq_refl); discriminate).
Qed.

Lemma openWrappers_evolves w w' : evolves w w' -> openWrappers w' <= openWrappers w.
Proof.
  intros Hev. unfold openWrappers.
  assert (count (fun x => negb (wrapClientConn.closed x)) (cwraps w')
          <= count (fun x => negb (wrapClientConn.closed x)) (cwraps w)).
  { apply count_pointwise_le; [apply (ev_cwraps_length _ _ Hev)|].
    intros p x Hx. destruct (ev_cwraps _ _ Hev p x Hx) as (x' & Hx' & _ & _ & Hsame).
    exists x'. split; [exact Hx'|]. intros Hc.
    rewrite Hsame; [exact Hc|]. destruct (wrapClientConn.closed x); [reflexivity|discriminate]. }
  assert (count (fun x => negb (wrapServerConn.closed x)) (swraps w')
          <= count (fun x => negb (wrapServerConn.closed x)) (swraps w)).
  { apply count_pointwise_le; [apply (ev_swraps_length _ _ Hev)|].
    intros p x Hx. destruct (ev_swraps _ _ Hev p x Hx) as (x' & Hx' & _ & _ & Hsame).
    exists x'. split; [exact Hx'|]. intros Hc.
    rewrite Hsame; [exact Hc|]. destruct (wrapServerConn.closed x); [reflexivity|discriminate]. }
  lia.
Qed.

(** X13: in a well-formed store the two [Close] methods, which call each
    other, come to an end: a [Close] on any connection of the store returns,
    with the connection closed and the store still well formed.  The nesting
    of the calls is never deeper than the number of open wrappers plus one,
    each wrapper being marked before it calls the other side, and a larger
    bound on the depth gives the same result. *)
Theorem Conn_Close_terminates proxy cl conn w :
  wf w -> liveConn w conn ->
  exists e w' d,
    (forall fuel, openWrappers w < fuel ->
       Conn_Close proxy cl fuel conn w = Ret e w') /\
    trace w' = trace w ++ d /\
    closedAfter w' d conn /\
    wf w' /\
    openWrappers w' <= openWrappers w.
Proof.
  intros Hwf Hlive.
  destruct (Conn_Close_returns proxy cl (S (openWrappers w)) conn w Hwf Hlive)
    as (e & w' & d & Hrun & Hev & Htr & Hclosed); [lia|].
  exists e, w', d.
  split; [|split; [exact Htr|split; [exact Hclosed|split]]].
  - intros fuel Hfuel. apply (Conn_Close_fuel_mono proxy cl (S (openWrappers w))); [lia|].
    exact Hrun.
  - eapply wf_evolves; eauto.
  - apply openWrappers_evolves, Hev.
Qed.

Lemma Conn_Close_terminates_witness :
  exists e w' d,
    (forall fuel, openWrappers pairedSession < fuel ->
       Conn_Close sampleProxy sampleClose fuel (clientWrapper 0) pairedSession = Ret e w') /\
    trace w' = trace pairedSession ++ d /\
    closedAfter w' d (clientWrapper 0) /\
    wf w' /\
    openWrappers w' <= openWrappers pairedSession.
Proof.
  apply (Conn_Close_terminates sampleProxy sampleClose (clientWrapper 0) pairedSession).
  - exact pairedSession_wf.
  - simpl. lia.
Defined.

(** ** Well-formed stores are what the initialisers build *)














(** ** Sessions without a handshake *)

Lemma TlsState_blocks_after_Close proxy cl w sc s :
  sconns w !! sc = Some s ->
  ServerConn.tlsHandshaked s = chanOpen ->
  TlsState sc w = Block w /\
  forall fuel conn w',
    worldOf (Conn_Close proxy cl fuel conn w) = Some w' -> TlsState sc w' = Block w'.
Proof.
  intros Hs Hopen. split.
  - rewrite (TlsState_run _ _ _ Hs), Hopen. reflexivity.
  - intros fuel conn w' Hrun.
    pose proof (Conn_Close_evolves proxy cl fuel conn w w' Hrun) as Hev.
    assert (Hs' : sconns w' !! sc = Some s) by (rewrite (ev_sconns _ _ Hev); exact Hs).
    rewrite (TlsState_run _ _ _ Hs'), Hopen. reflexivity.
Qed.

(** X15: in a plain-HTTP session nothing closes the handshake channel of
    the ServerConn that [initHttpServerConn] makes: [TlsState] on it does
    not return, neither before the client has dialled, nor after the dial,
    whatever its result, nor after any [Close]. *)
Theorem TlsState_blocks_in_plain_session proxy klw dial cl w k ctx network addr :
  ctxs w !! k = Some ctx ->
  ConnContext.ServerConn ctx = None ->
  ClientConn.Tls (ConnContext.ClientConn ctx) = false ->
  let sc := length (sconns w) in
  exists w1 r w2,
    initHttpServerConn proxy klw k w = Ret tt w1 /\
    dialContextHttp proxy dial k sc network addr w1 = Ret r w2 /\
    TlsState sc w1 = Block w1 /\
    TlsState sc w2 = Block w2 /\
    forall fuel conn w3,
      worldOf (Conn_Close proxy cl fuel conn w2) = Some w3 -> TlsState sc w3 = Block w3.
Proof.
  intros Hctx Hnone Htls sc. subst sc.
  pose proof (initHttpServerConn_install_run proxy klw _ _ _ Hctx Hnone Htls) as Hrun.
  set (s1 := ServerConn.mk (nextId w) ""%string nilConn chanOpen None None None
               (Some (httpClientOf proxy klw k (length (sconns w))))) in Hrun.
  set (w1 := mkWorld _ _ _ _ _ _) in Hrun.
  assert (Hs1 : sconns w1 !! length (sconns w) = Some s1) by apply lookup_snoc_new.
  exists w1.
  destruct (dial network addr (trace w1)) as [err|c] eqn:Hdial.
  - pose proof (dialContextHttp_failure_run proxy dial w1 k (length (sconns w))
                  network addr err Hdial) as Hd.
    set (w2 := mkWorld _ _ _ _ _ _) in Hd.
    eexists _, w2. split; [exact Hrun|]. split; [exact Hd|].
    split; [apply (TlsState_blocks_after_Close proxy cl w1 _ s1 Hs1 eq_refl)|].
    apply (TlsState_blocks_after_Close proxy cl w2 _ s1 Hs1 eq_refl).
  - pose proof (dialContextHttp_success_run proxy dial w1 k (length (sconns w)) s1
                  network addr c Hs1 Hdial) as Hd.
    set (w2 := mkWorld _ _ _ _ _ _) in Hd.
    eexists _, w2. split; [exact Hrun|]. split; [exact Hd|].
    split; [apply (TlsState_blocks_after_Close proxy cl w1 _ s1 Hs1 eq_refl)|].
    apply (TlsState_blocks_after_Close proxy cl w2 _
             (setAddress addr (setConn (serverWrapper (length (swraps w1))) s1)));
      [|reflexivity].
    simpl. eapply lookup_insert_same, Hs1.
Qed.

Lemma TlsState_blocks_in_plain_session_witness :
  exists w1 r w2,
    initHttpServerConn sampleProxy None 0 plainSession = Ret tt w1 /\
    dialContextHttp sampleProxy dialSucceeds 0 0 "tcp" "a.example:80" w1 = Ret r w2 /\
    TlsState 0 w1 = Block w1 /\
    TlsState 0 w2 = Block w2 /\
    forall fuel conn w3,
      worldOf (Conn_Close sampleProxy sampleClose fuel conn w2) = Some w3 ->
      TlsState 0 w3 = Block w3.
Proof.
  exact (TlsState_blocks_in_plain_session sampleProxy None dialSucceeds sampleClose
           plainSession 0 _ "tcp" "a.example:80" eq_refl eq_refl eq_refl).
Defined.

(** X16: in a raw tunnel nothing closes the handshake channel either:
    after [initServerTcpConn], with the dial failed or not, [TlsState] on
    the new ServerConn does not return, and no [Close] changes that. *)
Theorem TlsState_blocks_in_tunnel_session proxy dial cl w k ctx pipe :
  ctxs w !! k = Some ctx ->
  ConnContext.pipeConn ctx = Some pipe ->
  let sc := length (sconns w) in
  exists r w1,
    initServerTcpConn proxy dial k w = Ret r w1 /\
    TlsState sc w1 = Block w1 /\
    forall fuel conn w3,
      worldOf (Conn_Close proxy cl fuel conn w1) = Some w3 -> TlsState sc w3 = Block w3.
Proof.
  intros Hctx Hpipe sc. subst sc.
  destruct (dial "tcp"%string (host pipe) (trace w)) as [err|c] eqn:Hdial.
  - pose proof (initServerTcpConn_failure_run proxy dial w k ctx pipe err Hctx Hpipe Hdial)
      as Hrun.
    set (w1 := mkWorld _ _ _ _ _ _) in Hrun.
    eexists _, w1. split; [exact Hrun|].
    eapply (TlsState_blocks_after_Close proxy cl w1); [apply lookup_snoc_new|].
    reflexivity.
  - pose proof (initServerTcpConn_success_run proxy dial w k ctx pipe c Hctx Hpipe Hdial)
      as Hrun.
    set (w1 := mkWorld _ _ _ _ _ _) in Hrun.
    eexists _, w1. split; [exact Hrun|].
    eapply (TlsState_blocks_after_Close proxy cl w1); [apply lookup_snoc_new|].
    reflexivity.
Qed.

Lemma TlsState_blocks_in_tunnel_session_witness :
  exists r w1,
    initServerTcpConn sampleProxy dialSucceeds 0 tunnelSession = Ret r w1 /\
    TlsState 0 w1 = Block w1 /\
    forall fuel conn w3,
      worldOf (Conn_Close sampleProxy sampleClose fuel conn w1) = Some w3 ->
      TlsState 0 w3 = Block w3.
Proof.
  exact (TlsState_blocks_in_tunnel_session sampleProxy dialSucceeds sampleClose
           tunnelSession 0 _ (mkPipe "b.example:9000") eq_refl eq_refl).
Defined.
